(** * LSRstar: the simulation tick of [GameCanvas.tsx]

    A shallow embedding of the game logic of [src/components/GameCanvas.tsx]
    ([update], the [setTimeout] callback of the boss warning and the two
    [useEffect] hooks that react to a change of [gameState]), of
    [src/types.ts] and of [src/constants.ts].

    Conventions.
    - JavaScript numbers that hold coordinates, sizes, speeds and angles are
      rationals ([Q]); score, level, health, damage and [Date.now()] are
      integers ([Z]).
    - [Math.sin], [Math.cos], [Math.atan2] and [Math.PI] are the fields of
      the class [Trig]; every result holds for every interpretation of them.
    - Every [Math.random()] is a field of the tick's [Input]: each call site
      reads a value of its own.
    - The [useRef] cells of the component are the fields of [World].  The
      host callbacks ([onScoreUpdate], ...) append to the [events] log.
    - Particles, planets, stars and audio never feed back into the fields
      modelled here and are left out. *)

From Stdlib Require Import ZArith QArith Qround List Bool String Lia Lqa.
Import ListNotations.

Open Scope Z_scope.

(** ** [types.ts] *)

Inductive GameState := START | PLAYING | PAUSED | GAMEOVER.

Inductive EnemyType := BASIC | FAST | HEAVY | RANGED.

Inductive PowerUpType := TRIPLE_SHOT | SHIELD.

(** Entity identifiers.  [IdFresh] stands for [Math.random().toString()],
    whose value the code never inspects. *)
Inductive EntityId :=
| IdPlayer
| IdFresh
| IdBoss (i : nat)
| IdEscort (i : nat)
| IdDead.

Definition isDead (i : EntityId) : bool :=
  match i with IdDead => true | _ => false end.

Record Player := mkPlayer {
  p_x : Q; p_y : Q; p_width : Q; p_height : Q; p_speed : Q;
  p_health : Z; p_maxHealth : Z;
  shieldActive : bool;
  invincible : bool;
  invincibleTimer : Z;
  powerUpTimer : Z;
  activePowerUp : option PowerUpType
}.

(** [isEnemy?: boolean]: an absent flag is falsy. *)
Record Bullet := mkBullet {
  b_id : EntityId;
  b_x : Q; b_y : Q; b_width : Q; b_height : Q; b_speed : Q;
  damage : Z;
  angle : Q;
  isEnemy : bool
}.

Record Enemy := mkEnemy {
  e_id : EntityId;
  e_type : EnemyType;
  e_x : Q; e_y : Q; e_width : Q; e_height : Q; e_speed : Q;
  e_health : Z; e_maxHealth : Z;
  scoreValue : Z;
  isBoss : bool;
  attackTimer : option Q
}.

Record PowerUp := mkPowerUp {
  u_id : EntityId;
  u_type : PowerUpType;
  u_x : Q; u_y : Q; u_width : Q; u_height : Q; u_speed : Q
}.

(** ** [constants.ts] *)

Definition CANVAS_WIDTH : Q := 800%Q.
Definition CANVAS_HEIGHT : Q := 900%Q.
Definition PLAYER_SIZE : Q := 50%Q.
Definition PLAYER_SPEED : Q := 7%Q.
Definition PLAYER_MAX_HEALTH : Z := 3.
Definition BULLET_WIDTH : Q := 4%Q.
Definition BULLET_HEIGHT : Q := 15%Q.
Definition BULLET_SPEED : Q := 15%Q.
Definition POWERUP_SIZE : Q := 30%Q.
Definition POWERUP_DURATION : Z := 10000.

Record EnemyConfig := mkEnemyConfig {
  ec_width : Q; ec_height : Q; ec_speed : Q; ec_health : Z; ec_scoreValue : Z
}.

Definition ENEMY_CONFIGS (t : EnemyType) : EnemyConfig :=
  match t with
  | BASIC => mkEnemyConfig 40 40 2.5 1 100
  | FAST => mkEnemyConfig 30 30 5.5 1 200
  | HEAVY => mkEnemyConfig 60 60 1.5 6 500
  | RANGED => mkEnemyConfig 45 45 2.2 3 300
  end.

Record BossConfig := mkBossConfig {
  bc_name : string;
  bc_width : Q; bc_height : Q; bc_health : Z; bc_scoreValue : Z; bc_speed : Q
}.

(** [BOSS_CONFIGS[level]]: [None] is JavaScript's [undefined]. *)
Definition BOSS_CONFIGS (lvl : Z) : option BossConfig :=
  if lvl =? 5 then Some (mkBossConfig "初级守卫" 150 100 100 5000 1.2)
  else if lvl =? 10 then Some (mkBossConfig "虚空掠夺者" 200 150 300 15000 1.8)
  else if lvl =? 20 then Some (mkBossConfig "星系毁灭者" 250 200 800 50000 2.5)
  else if lvl =? 30 then Some (mkBossConfig "格赫罗斯之影" 300 250 2500 100000 3.2)
  else if lvl =? 50 then Some (mkBossConfig "格赫罗斯本体" 400 350 10000 500000 4)
  else None.

(** ** The component's state *)

Inductive Event :=
| ScoreUpdate (s : Z)
| LevelUpdate (l : Z)
| HealthUpdate (h : Z)
| AchievementUnlock (id : string)
| BossWarning (name : option string).

(** A pending [setTimeout(..., 3000)] of the boss warning: the closure
    keeps the [config] and the [now] of the tick that started it. *)
Record Timeout := mkTimeout {
  t_delay : Z;
  t_config : BossConfig;
  t_now : Z
}.

Record World := mkWorld {
  gameState : GameState;
  prevGameState : GameState;
  score : Z;
  level : Z;
  health : Z;
  lastEnemySpawn : Z;
  lastPowerUpSpawn : Z;
  lastShot : Z;
  lastLevelHealed : Z;
  bossWarningActive : bool;
  bossEntranceTimer : Z;
  player : Player;
  enemies : list Enemy;
  bullets : list Bullet;
  powerUps : list PowerUp;
  bosses : list Enemy;
  timeouts : list Timeout;
  events : list Event
}.

(** What one call of [update] reads from outside the component: the key
    and pointer refs, the clock and the random draws. *)
Record Input := mkInput {
  keys : string -> bool;
  touch : option (Q * Q);
  now : Z;
  randPattern : nat -> Q;
  randGap : nat -> Q;
  randUltimate : nat -> Q;
  randSpawnType : Q;
  randSpawnX : Q;
  randSpawnDelay : Q;
  randPowerType : Q;
  randPowerX : Q
}.

(** The trigonometry of [Math]. *)
Class Trig := {
  sin : Q -> Q;
  cos : Q -> Q;
  atan2 : Q -> Q -> Q;
  PI : Q
}.

(** ** Helpers *)

Definition Qltb (a b : Q) : bool := negb (Qle_bool b a).
Definition Qgtb (a b : Q) : bool := Qltb b a.
Definition Qleb (a b : Q) : bool := Qle_bool a b.
Definition Qgeb (a b : Q) : bool := Qle_bool b a.

Definition Qmax (a b : Q) : Q := if Qle_bool a b then b else a.
Definition Qmin (a b : Q) : Q := if Qle_bool a b then a else b.

(** [for (let i = lo; i <= hi; i++)] *)
Definition zrange (lo hi : Z) : list Z :=
  map (fun k => lo + Z.of_nat k) (seq 0 (Z.to_nat (hi - lo + 1))).

(** [for (let i = 0; i < n; i++)] *)
Definition upto (n : nat) : list nat := seq 0 n.

Definition set_p_pos (p : Player) (x y : Q) : Player :=
  mkPlayer x y (p_width p) (p_height p) (p_speed p) (p_health p)
    (p_maxHealth p) (shieldActive p) (invincible p) (invincibleTimer p)
    (powerUpTimer p) (activePowerUp p).

Definition set_shieldActive (p : Player) (v : bool) : Player :=
  mkPlayer (p_x p) (p_y p) (p_width p) (p_height p) (p_speed p) (p_health p)
    (p_maxHealth p) v (invincible p) (invincibleTimer p)
    (powerUpTimer p) (activePowerUp p).

Definition set_invincible (p : Player) (v : bool) : Player :=
  mkPlayer (p_x p) (p_y p) (p_width p) (p_height p) (p_speed p) (p_health p)
    (p_maxHealth p) (shieldActive p) v (invincibleTimer p)
    (powerUpTimer p) (activePowerUp p).

Definition set_invincibleTimer (p : Player) (v : Z) : Player :=
  mkPlayer (p_x p) (p_y p) (p_width p) (p_height p) (p_speed p) (p_health p)
    (p_maxHealth p) (shieldActive p) (invincible p) v
    (powerUpTimer p) (activePowerUp p).

Definition set_powerUp (p : Player) (t : Z) (u : option PowerUpType) : Player :=
  mkPlayer (p_x p) (p_y p) (p_width p) (p_height p) (p_speed p) (p_health p)
    (p_maxHealth p) (shieldActive p) (invincible p) (invincibleTimer p)
    t u.

Definition set_b_pos (b : Bullet) (x y : Q) : Bullet :=
  mkBullet (b_id b) x y (b_width b) (b_height b) (b_speed b) (damage b)
    (angle b) (isEnemy b).

Definition set_b_y (b : Bullet) (y : Q) : Bullet := set_b_pos b (b_x b) y.

Definition set_e_pos (e : Enemy) (x y : Q) : Enemy :=
  mkEnemy (e_id e) (e_type e) x y (e_width e) (e_height e) (e_speed e)
    (e_health e) (e_maxHealth e) (scoreValue e) (isBoss e) (attackTimer e).

Definition set_e_y (e : Enemy) (y : Q) : Enemy := set_e_pos e (e_x e) y.

Definition set_e_speed (e : Enemy) (s : Q) : Enemy :=
  mkEnemy (e_id e) (e_type e) (e_x e) (e_y e) (e_width e) (e_height e) s
    (e_health e) (e_maxHealth e) (scoreValue e) (isBoss e) (attackTimer e).

Definition set_e_health (e : Enemy) (h : Z) : Enemy :=
  mkEnemy (e_id e) (e_type e) (e_x e) (e_y e) (e_width e) (e_height e)
    (e_speed e) h (e_maxHealth e) (scoreValue e) (isBoss e) (attackTimer e).

Definition set_e_id (e : Enemy) (i : EntityId) : Enemy :=
  mkEnemy i (e_type e) (e_x e) (e_y e) (e_width e) (e_height e)
    (e_speed e) (e_health e) (e_maxHealth e) (scoreValue e) (isBoss e)
    (attackTimer e).

Definition set_attackTimer (e : Enemy) (t : option Q) : Enemy :=
  mkEnemy (e_id e) (e_type e) (e_x e) (e_y e) (e_width e) (e_height e)
    (e_speed e) (e_health e) (e_maxHealth e) (scoreValue e) (isBoss e) t.

Definition set_u_y (u : PowerUp) (y : Q) : PowerUp :=
  mkPowerUp (u_id u) (u_type u) (u_x u) y (u_width u) (u_height u) (u_speed u).

Definition set_player (w : World) (p : Player) : World :=
  mkWorld (gameState w) (prevGameState w) (score w) (level w) (health w)
    (lastEnemySpawn w) (lastPowerUpSpawn w) (lastShot w) (lastLevelHealed w)
    (bossWarningActive w) (bossEntranceTimer w) p (enemies w) (bullets w)
    (powerUps w) (bosses w) (timeouts w) (events w).

Definition set_enemies (w : World) (l : list Enemy) : World :=
  mkWorld (gameState w) (prevGameState w) (score w) (level w) (health w)
    (lastEnemySpawn w) (lastPowerUpSpawn w) (lastShot w) (lastLevelHealed w)
    (bossWarningActive w) (bossEntranceTimer w) (player w) l (bullets w)
    (powerUps w) (bosses w) (timeouts w) (events w).

Definition set_bullets (w : World) (l : list Bullet) : World :=
  mkWorld (gameState w) (prevGameState w) (score w) (level w) (health w)
    (lastEnemySpawn w) (lastPowerUpSpawn w) (lastShot w) (lastLevelHealed w)
    (bossWarningActive w) (bossEntranceTimer w) (player w) (enemies w) l
    (powerUps w) (bosses w) (timeouts w) (events w).

Definition set_powerUps (w : World) (l : list PowerUp) : World :=
  mkWorld (gameState w) (prevGameState w) (score w) (level w) (health w)
    (lastEnemySpawn w) (lastPowerUpSpawn w) (lastShot w) (lastLevelHealed w)
    (bossWarningActive w) (bossEntranceTimer w) (player w) (enemies w)
    (bullets w) l (bosses w) (timeouts w) (events w).

Definition set_bosses (w : World) (l : list Enemy) : World :=
  mkWorld (gameState w) (prevGameState w) (score w) (level w) (health w)
    (lastEnemySpawn w) (lastPowerUpSpawn w) (lastShot w) (lastLevelHealed w)
    (bossWarningActive w) (bossEntranceTimer w) (player w) (enemies w)
    (bullets w) (powerUps w) l (timeouts w) (events w).

Definition set_score (w : World) (s : Z) : World :=
  mkWorld (gameState w) (prevGameState w) s (level w) (health w)
    (lastEnemySpawn w) (lastPowerUpSpawn w) (lastShot w) (lastLevelHealed w)
    (bossWarningActive w) (bossEntranceTimer w) (player w) (enemies w)
    (bullets w) (powerUps w) (bosses w) (timeouts w) (events w).

Definition set_level (w : World) (l : Z) : World :=
  mkWorld (gameState w) (prevGameState w) (score w) l (health w)
    (lastEnemySpawn w) (lastPowerUpSpawn w) (lastShot w) (lastLevelHealed w)
    (bossWarningActive w) (bossEntranceTimer w) (player w) (enemies w)
    (bullets w) (powerUps w) (bosses w) (timeouts w) (events w).

Definition set_health (w : World) (h : Z) : World :=
  mkWorld (gameState w) (prevGameState w) (score w) (level w) h
    (lastEnemySpawn w) (lastPowerUpSpawn w) (lastShot w) (lastLevelHealed w)
    (bossWarningActive w) (bossEntranceTimer w) (player w) (enemies w)
    (bullets w) (powerUps w) (bosses w) (timeouts w) (events w).

Definition set_lastEnemySpawn (w : World) (t : Z) : World :=
  mkWorld (gameState w) (prevGameState w) (score w) (level w) (health w)
    t (lastPowerUpSpawn w) (lastShot w) (lastLevelHealed w)
    (bossWarningActive w) (bossEntranceTimer w) (player w) (enemies w)
    (bullets w) (powerUps w) (bosses w) (timeouts w) (events w).

Definition set_lastPowerUpSpawn (w : World) (t : Z) : World :=
  mkWorld (gameState w) (prevGameState w) (score w) (level w) (health w)
    (lastEnemySpawn w) t (lastShot w) (lastLevelHealed w)
    (bossWarningActive w) (bossEntranceTimer w) (player w) (enemies w)
    (bullets w) (powerUps w) (bosses w) (timeouts w) (events w).

Definition set_lastShot (w : World) (t : Z) : World :=
  mkWorld (gameState w) (prevGameState w) (score w) (level w) (health w)
    (lastEnemySpawn w) (lastPowerUpSpawn w) t (lastLevelHealed w)
    (bossWarningActive w) (bossEntranceTimer w) (player w) (enemies w)
    (bullets w) (powerUps w) (bosses w) (timeouts w) (events w).

Definition set_lastLevelHealed (w : World) (l : Z) : World :=
  mkWorld (gameState w) (prevGameState w) (score w) (level w) (health w)
    (lastEnemySpawn w) (lastPowerUpSpawn w) (lastShot w) l
    (bossWarningActive w) (bossEntranceTimer w) (player w) (enemies w)
    (bullets w) (powerUps w) (bosses w) (timeouts w) (events w).

Definition set_bossWarningActive (w : World) (v : bool) : World :=
  mkWorld (gameState w) (prevGameState w) (score w) (level w) (health w)
    (lastEnemySpawn w) (lastPowerUpSpawn w) (lastShot w) (lastLevelHealed w)
    v (bossEntranceTimer w) (player w) (enemies w)
    (bullets w) (powerUps w) (bosses w) (timeouts w) (events w).

Definition set_bossEntranceTimer (w : World) (t : Z) : World :=
  mkWorld (gameState w) (prevGameState w) (score w) (level w) (health w)
    (lastEnemySpawn w) (lastPowerUpSpawn w) (lastShot w) (lastLevelHealed w)
    (bossWarningActive w) t (player w) (enemies w)
    (bullets w) (powerUps w) (bosses w) (timeouts w) (events w).

Definition set_timeouts (w : World) (l : list Timeout) : World :=
  mkWorld (gameState w) (prevGameState w) (score w) (level w) (health w)
    (lastEnemySpawn w) (lastPowerUpSpawn w) (lastShot w) (lastLevelHealed w)
    (bossWarningActive w) (bossEntranceTimer w) (player w) (enemies w)
    (bullets w) (powerUps w) (bosses w) l (events w).

Definition set_gameState (w : World) (g prev : GameState) : World :=
  mkWorld g prev (score w) (level w) (health w)
    (lastEnemySpawn w) (lastPowerUpSpawn w) (lastShot w) (lastLevelHealed w)
    (bossWarningActive w) (bossEntranceTimer w) (player w) (enemies w)
    (bullets w) (powerUps w) (bosses w) (timeouts w) (events w).

(** A host callback: the call is appended to the log. *)
Definition emit (w : World) (ev : Event) : World :=
  mkWorld (gameState w) (prevGameState w) (score w) (level w) (health w)
    (lastEnemySpawn w) (lastPowerUpSpawn w) (lastShot w) (lastLevelHealed w)
    (bossWarningActive w) (bossEntranceTimer w) (player w) (enemies w)
    (bullets w) (powerUps w) (bosses w) (timeouts w) (events w ++ [ev]).

(** Axis-aligned overlap, as every collision test of [update] writes it:
    [a.x < b.x + b.width && a.x + a.width > b.x &&
     a.y < b.y + b.height && a.y + a.height > b.y]. *)
Definition overlap (ax ay aw ah bx by_ bw bh : Q) : bool :=
  Qltb ax (bx + bw) && Qgtb (ax + aw) bx &&
  Qltb ay (by_ + bh) && Qgtb (ay + ah) by_.

Definition bulletHits (b : Bullet) (e : Enemy) : bool :=
  overlap (b_x b) (b_y b) (b_width b) (b_height b)
          (e_x e) (e_y e) (e_width e) (e_height e).

Definition playerTouchesBullet (p : Player) (b : Bullet) : bool :=
  overlap (p_x p) (p_y p) (p_width p) (p_height p)
          (b_x b) (b_y b) (b_width b) (b_height b).

Definition playerTouchesEnemy (p : Player) (e : Enemy) : bool :=
  overlap (p_x p) (p_y p) (p_width p) (p_height p)
          (e_x e) (e_y e) (e_width e) (e_height e).

Definition playerTouchesPowerUp (p : Player) (u : PowerUp) : bool :=
  overlap (p_x p) (p_y p) (p_width p) (p_height p)
          (u_x u) (u_y u) (u_width u) (u_height u).

Definition isSome {A} (o : option A) : bool :=
  match o with Some _ => true | None => false end.

Definition isTriple (o : option PowerUpType) : bool :=
  match o with Some TRIPLE_SHOT => true | _ => false end.

(** ** [update], step by step *)

Section Update.

Context {trig : Trig}.

Local Open Scope Q_scope.

(** 1. Handle Player Movement, and the boundary checks. *)
Definition movePlayer (i : Input) (w : World) : World :=
  let p := player w in
  let '(x, y) :=
    match touch i with
    | Some (tx, ty) =>
        let targetX := tx - p_width p / 2 in
        let targetY := ty - p_height p / 2 in
        (p_x p + (targetX - p_x p) * 0.2, p_y p + (targetY - p_y p) * 0.2)
    | None =>
        let x1 := if keys i "ArrowLeft" || keys i "KeyA"
                  then p_x p - p_speed p else p_x p in
        let x2 := if keys i "ArrowRight" || keys i "KeyD"
                  then x1 + p_speed p else x1 in
        let y1 := if keys i "ArrowUp" || keys i "KeyW"
                  then p_y p - p_speed p else p_y p in
        let y2 := if keys i "ArrowDown" || keys i "KeyS"
                  then y1 + p_speed p else y1 in
        (x2, y2)
    end in
  set_player w
    (set_p_pos p (Qmax 0 (Qmin (CANVAS_WIDTH - p_width p) x))
                 (Qmax 0 (Qmin (CANVAS_HEIGHT - p_height p) y))).

(** 2. Handle Shooting. *)
Definition shotInterval (lvl : Z) : Z :=
  if (30 <=? lvl)%Z then 120%Z else 200%Z.

Definition fires (i : Input) (w : World) : bool :=
  (keys i "Space" || isSome (touch i)) &&
  (shotInterval (level w) <? now i - lastShot w)%Z.

Definition playerBullet (x y a : Q) : Bullet :=
  mkBullet IdFresh x y BULLET_WIDTH BULLET_HEIGHT BULLET_SPEED 1 a false.

Definition shotPattern (w : World) : list Bullet :=
  let p := player w in
  let bulletX := p_x p + p_width p / 2 - BULLET_WIDTH / 2 in
  let bulletY := p_y p in
  if isTriple (activePowerUp p) || ((15 <=? level w)%Z && (level w <? 25)%Z)
  then [ playerBullet bulletX bulletY 0;
         playerBullet bulletX bulletY (-0.2);
         playerBullet bulletX bulletY 0.2 ]
  else if (25 <=? level w)%Z
  then map (fun k => playerBullet bulletX bulletY (inject_Z k * 0.15))
           (zrange (-2) 2)
  else if (5 <=? level w)%Z
  then [ playerBullet (p_x p + 10) bulletY 0;
         playerBullet (p_x p + p_width p - 10 - BULLET_WIDTH) bulletY 0 ]
  else [ playerBullet bulletX bulletY 0 ].

Definition shoot (i : Input) (w : World) : World :=
  if fires i w
  then set_lastShot (set_bullets w (bullets w ++ shotPattern w)) (now i)
  else w.

(** 3. Update Bullets. *)
Definition advanceBullet (b : Bullet) : Bullet :=
  let dir := if isEnemy b then -1 else 1 in
  set_b_pos b (b_x b + sin (angle b) * b_speed b)
              (b_y b - cos (angle b) * b_speed b * dir).

Definition bulletOnScreen (b : Bullet) : bool :=
  Qgtb (b_y b) (-50) && Qltb (b_y b) (CANVAS_HEIGHT + 50) &&
  Qgtb (b_x b) (-50) && Qltb (b_x b) (CANVAS_WIDTH + 50).

Definition updateBullets (w : World) : World :=
  set_bullets w (filter bulletOnScreen (map advanceBullet (bullets w))).

(** 4. Update Bosses. *)
Definition ofNat (n : nat) : Q := inject_Z (Z.of_nat n).

Definition bossCenterX (boss : Enemy) : Q := e_x boss + e_width boss / 2.
Definition bossCenterY (boss : Enemy) : Q := e_y boss + e_height boss / 2.

Definition circularBurst (lvl : Z) (boss : Enemy) : list Bullet :=
  let count := if (30 <=? lvl)%Z then 20%nat else 12%nat in
  map (fun k => mkBullet IdFresh (bossCenterX boss) (bossCenterY boss)
                  8 8 4 1 ((ofNat k / ofNat count) * PI * 2) true)
      (upto count).

Definition targetedBurst (lvl : Z) (p : Player) (boss : Enemy) : list Bullet :=
  let angleToPlayer :=
    atan2 (p_x p + p_width p / 2 - bossCenterX boss)
          (- (p_y p + p_height p / 2 - bossCenterY boss)) in
  let count := if (30 <=? lvl)%Z then 5%Z else 3%Z in
  map (fun k => mkBullet IdFresh (bossCenterX boss) (bossCenterY boss)
                  10 10 6 1 (angleToPlayer + inject_Z k * 0.15) true)
      (zrange (- (count / 2))%Z (count / 2)%Z).

Definition spiral (t : Z) (boss : Enemy) : list Bullet :=
  let time := inject_Z t / 1000 in
  map (fun k => mkBullet IdFresh (bossCenterX boss) (bossCenterY boss)
                  8 8 5 1 (time + (ofNat k / 4) * PI * 2) true)
      (upto 4).

Definition verticalRain (r : Q) (boss : Enemy) : list Bullet :=
  let count := 10%nat in
  let gap := Qfloor (r * (ofNat count - 2)) in
  map (fun k => mkBullet IdFresh
                  ((CANVAS_WIDTH / ofNat count) * ofNat k
                   + (CANVAS_WIDTH / ofNat count / 2))
                  (e_y boss + e_height boss) 6 20 5 1 0 true)
      (filter (fun k => negb ((Z.of_nat k =? gap)%Z || (Z.of_nat k =? gap + 1)%Z))
              (upto count)).

Definition ultimateWave (boss : Enemy) : list Bullet :=
  map (fun k => mkBullet IdFresh ((CANVAS_WIDTH / 20) * ofNat k)
                  (e_y boss + e_height boss) 10 10 3 2 0 true)
      (upto 20).

(** The bullets of one attack of boss number [k] of the list. *)
Definition bossAttack (i : Input) (lvl : Z) (p : Player) (k : nat)
    (boss : Enemy) : list Bullet :=
  let pattern := Qfloor (randPattern i k * 4) in
  (if (pattern =? 0)%Z then circularBurst lvl boss
   else if (pattern =? 1)%Z then targetedBurst lvl p boss
   else if (pattern =? 2)%Z then spiral (now i) boss
   else verticalRain (randGap i k) boss)
  ++ (if (50 <=? lvl)%Z && Qltb (randUltimate i k) 0.1
      then ultimateWave boss else []).

(** Movement of a boss and [if (!boss.attackTimer) boss.attackTimer = 0]. *)
Definition moveBoss (boss : Enemy) : Enemy :=
  let x1 := e_x boss + e_speed boss in
  let b1 := set_e_pos boss x1 (e_y boss) in
  let b2 := if Qleb x1 0 || Qgeb (x1 + e_width b1) CANVAS_WIDTH
            then set_e_speed b1 (e_speed b1 * -1) else b1 in
  let b3 := if Qltb (e_y b2) 50 then set_e_y b2 (e_y b2 + 1) else b2 in
  let t := match attackTimer b3 with
           | Some t => if Qeq_bool t 0 then 0 else t
           | None => 0
           end in
  set_attackTimer b3 (Some t).

Definition timerOf (e : Enemy) : Q :=
  match attackTimer e with Some t => t | None => 0 end.

Definition attackInterval (lvl : Z) : Q :=
  if (20 <=? lvl)%Z then 500 else 1000.

Definition bossAttacks (i : Input) (lvl : Z) (boss : Enemy) : bool :=
  Qgtb (inject_Z (now i) - timerOf boss) (attackInterval lvl).

(** One iteration of [bossesRef.current.forEach]: the boss afterwards and
    the bullets it pushed. *)
Definition stepBoss (i : Input) (lvl : Z) (p : Player) (k : nat)
    (boss : Enemy) : Enemy * list Bullet :=
  let b := moveBoss boss in
  if bossAttacks i lvl b
  then (set_attackTimer b (Some (inject_Z (now i))), bossAttack i lvl p k b)
  else (b, []).

Fixpoint stepBosses (i : Input) (lvl : Z) (p : Player) (k : nat)
    (bs : list Enemy) : list Enemy * list Bullet :=
  match bs with
  | [] => ([], [])
  | boss :: rest =>
      let '(boss', shots) := stepBoss i lvl p k boss in
      let '(rest', shots') := stepBosses i lvl p (S k) rest in
      (boss' :: rest', shots ++ shots')
  end.

Definition updateBosses (i : Input) (w : World) : World :=
  let '(bs, shots) := stepBosses i (level w) (player w) 0 (bosses w) in
  set_bullets (set_bosses w bs) (bullets w ++ shots).

(** 5. Update Boss Spawning with Warning. *)
Definition bossLevels : list Z := [5; 10; 20; 30; 50]%Z.

Definition includes (l : list Z) (x : Z) : bool := existsb (Z.eqb x) l.

Definition noBoss (w : World) : bool := (List.length (bosses w) =? 0)%nat.

Definition warningTriggers (w : World) : bool :=
  includes bossLevels (level w) && noBoss w && negb (bossWarningActive w).

(** The synchronous part of the [if]: the warning is raised, the regular
    enemies are dropped and the callback is scheduled.  [BOSS_CONFIGS] is
    defined at every level of [bossLevels], so the [None] branch (where
    [config.name] would throw) is never taken. *)
Definition bossWarning (i : Input) (w : World) : World :=
  if warningTriggers w then
    match BOSS_CONFIGS (level w) with
    | Some config =>
        let w1 := set_bossWarningActive w true in
        let w2 := emit w1 (BossWarning (Some (bc_name config))) in
        let w3 := set_enemies w2 [] in
        set_timeouts w3 (timeouts w3 ++ [mkTimeout 3000 config (now i)])
    | None => w
    end
  else w.

(** The body of the [setTimeout] callback.  [levelRef.current] is read when
    the callback runs; [config] and [now] are those of the closure. *)
Definition bossCount (lvl : Z) : nat :=
  let c := 1%nat in
  let c := if (lvl =? 20)%Z then 2%nat else c in
  let c := if (lvl =? 30)%Z then 3%nat else c in
  if (lvl =? 50)%Z then 1%nat else c.

Definition escortCount (lvl : Z) : nat :=
  let c := 0%nat in
  let c := if (lvl =? 20)%Z then 2%nat else c in
  let c := if (lvl =? 30)%Z then 3%nat else c in
  if (lvl =? 50)%Z then 5%nat else c.

Definition newBoss (config : BossConfig) (t : Z) (count k : nat) : Enemy :=
  mkEnemy (IdBoss k) BASIC
    ((CANVAS_WIDTH / (ofNat count + 1)) * (ofNat k + 1) - bc_width config / 2)
    (- bc_height config)
    (bc_width config) (bc_height config)
    (bc_speed config * (if (k mod 2 =? 0)%nat then 1 else -1))
    (bc_health config) (bc_health config) (bc_scoreValue config)
    true (Some (inject_Z t)).

Definition newEscort (t : Z) (count k : nat) : Enemy :=
  let eType := HEAVY in
  let eConfig := ENEMY_CONFIGS eType in
  mkEnemy (IdEscort k) eType
    ((CANVAS_WIDTH / (ofNat count + 1)) * (ofNat k + 1) - ec_width eConfig / 2)
    (- ec_height eConfig - 100)
    (ec_width eConfig) (ec_height eConfig) (ec_speed eConfig)
    (ec_health eConfig * 2)%Z (ec_health eConfig * 2)%Z
    (ec_scoreValue eConfig)
    false (Some (inject_Z t + 1000)).

Definition bossSpawnCallback (t : Timeout) (w : World) : World :=
  let w1 := emit w (BossWarning None) in
  let n := bossCount (level w1) in
  let w2 := set_bosses w1
              (bosses w1 ++ map (newBoss (t_config t) (t_now t) n) (upto n)) in
  let m := escortCount (level w2) in
  let w3 := set_enemies w2
              (enemies w2 ++ map (newEscort (t_now t) m) (upto m)) in
  set_bossWarningActive (set_bossEntranceTimer w3 (t_now t)) false.

(** Boss Entrance Animation. *)
Definition isEntering (i : Input) (w : World) : bool :=
  negb (noBoss w) && (now i - bossEntranceTimer w <? 2000)%Z.

Definition easeBoss (boss : Enemy) : Enemy :=
  let targetY := 50 in
  set_e_y boss (e_y boss + (targetY - e_y boss) * 0.05).

Definition bossEntrance (i : Input) (w : World) : World :=
  if isEntering i w then set_bosses w (map easeBoss (bosses w)) else w.

(** Regular enemies: spawning. *)
Definition spawnInterval (lvl : Z) : Z := Z.max 300 (1500 - lvl * 120).

Definition spawnType (lvl : Z) (rand : Q) : EnemyType :=
  let type := BASIC in
  let type := if (3 <=? lvl)%Z && Qgtb rand 0.6 then FAST else type in
  let type := if (5 <=? lvl)%Z && Qgtb rand 0.75 then RANGED else type in
  if (7 <=? lvl)%Z && Qgtb rand 0.9 then HEAVY else type.

Definition newEnemy (i : Input) (lvl : Z) : Enemy :=
  let type := spawnType lvl (randSpawnType i) in
  let config := ENEMY_CONFIGS type in
  let scaledHealth := (ec_health config + lvl / 2)%Z in
  mkEnemy IdFresh type
    (randSpawnX i * (CANVAS_WIDTH - ec_width config))
    (- ec_height config)
    (ec_width config) (ec_height config)
    (ec_speed config + inject_Z lvl * 0.3)
    scaledHealth scaledHealth (ec_scoreValue config)
    false (Some (inject_Z (now i) + randSpawnDelay i * 2000)).

Definition spawnAllowed (entering : bool) (w : World) : bool :=
  noBoss w && negb (bossWarningActive w) && negb entering.

Definition spawnEnemies (i : Input) (entering : bool) (w : World) : World :=
  if spawnAllowed entering w then
    if (spawnInterval (level w) <? now i - lastEnemySpawn w)%Z
    then set_lastEnemySpawn
           (set_enemies w (enemies w ++ [newEnemy i (level w)])) (now i)
    else w
  else w.

(** Regular enemies: movement, and the aimed shot of the RANGED ones. *)
Definition initTimer (e : Enemy) : Enemy :=
  set_attackTimer e
    (Some match attackTimer e with
          | Some t => if Qeq_bool t 0 then 0 else t
          | None => 0
          end).

Definition aimedBullet (p : Player) (e : Enemy) : Bullet :=
  let a := atan2 (p_x p + p_width p / 2 - (e_x e + e_width e / 2))
                 (- (p_y p + p_height p / 2 - (e_y e + e_height e / 2))) in
  mkBullet IdFresh (e_x e + e_width e / 2) (e_y e + e_height e) 6 6 4 1 a true.

Definition stepEnemy (i : Input) (p : Player) (e : Enemy)
    : Enemy * list Bullet :=
  match e_type e with
  | RANGED =>
      if Qltb (e_y e) 200 then (set_e_y e (e_y e + e_speed e), [])
      else
        let e1 := initTimer e in
        if Qgtb (inject_Z (now i) - timerOf e1) 2000
        then (set_attackTimer e1 (Some (inject_Z (now i))), [aimedBullet p e1])
        else (e1, [])
  | _ => (set_e_y e (e_y e + e_speed e), [])
  end.

Fixpoint stepEnemies (i : Input) (p : Player) (es : list Enemy)
    : list Enemy * list Bullet :=
  match es with
  | [] => ([], [])
  | e :: rest =>
      let '(e', shots) := stepEnemy i p e in
      let '(rest', shots') := stepEnemies i p rest in
      (e' :: rest', shots ++ shots')
  end.

Definition updateEnemies (i : Input) (w : World) : World :=
  let '(es, shots) := stepEnemies i (player w) (enemies w) in
  set_bullets (set_enemies w es) (bullets w ++ shots).

(** Check for escaped enemies. *)
Definition hasEscaped (e : Enemy) : bool := Qgtb (e_y e) CANVAS_HEIGHT.
Definition stillInside (e : Enemy) : bool := Qleb (e_y e) CANVAS_HEIGHT.

Definition checkEscaped (w : World) : World :=
  let escaped := filter hasEscaped (enemies w) in
  if (0 <? List.length escaped)%nat then
    let w1 := set_score w (Z.max 0 (score w - 50 * Z.of_nat (List.length escaped))) in
    let w2 := emit w1 (ScoreUpdate (score w1)) in
    set_enemies w2 (filter stillInside (enemies w2))
  else w.

(** 6. Update PowerUps & Spawning. *)
Definition newPowerUp (i : Input) : PowerUp :=
  let type := if Qgtb (randPowerType i) 0.5 then TRIPLE_SHOT else SHIELD in
  mkPowerUp IdFresh type (randPowerX i * (CANVAS_WIDTH - POWERUP_SIZE))
    (- POWERUP_SIZE) POWERUP_SIZE POWERUP_SIZE 2.

Definition updatePowerUps (i : Input) (w : World) : World :=
  let w1 := if (15000 <? now i - lastPowerUpSpawn w)%Z
            then set_lastPowerUpSpawn
                   (set_powerUps w (powerUps w ++ [newPowerUp i])) (now i)
            else w in
  set_powerUps w1
    (filter (fun u => Qltb (u_y u) CANVAS_HEIGHT)
            (map (fun u => set_u_y u (u_y u + u_speed u)) (powerUps w1))).


(** 7. Collision Detection: Bullet vs Enemy/Boss.  The loops thread the
    world; the list a loop walks is handed over element by element and
    stored back when the loop ends. *)
Definition award (w : World) (e : Enemy) : World :=
  let w1 := set_score w (score w + scoreValue e)%Z in
  emit w1 (ScoreUpdate (score w1)).

Definition hitBoss (w : World) (b : Bullet) (e : Enemy)
    : World * Bullet * Enemy :=
  if bulletHits b e then
    let e1 := set_e_health e (e_health e - damage b)%Z in
    let b1 := set_b_y b (-100) in
    if (e_health e1 <=? 0)%Z
    then (award w e1, b1, set_e_id e1 IdDead)
    else (w, b1, e1)
  else (w, b, e).

Fixpoint bulletVsBosses (w : World) (b : Bullet) (es : list Enemy)
    : World * Bullet * list Enemy :=
  match es with
  | [] => (w, b, [])
  | e :: rest =>
      let '(w1, b1, e1) := hitBoss w b e in
      let '(w2, b2, rest') := bulletVsBosses w1 b1 rest in
      (w2, b2, e1 :: rest')
  end.

(** Level up check (only if no boss is active). *)
Definition levelUpCheck (w : World) : World :=
  if noBoss w then
    if (level w * 2000 <=? score w)%Z then
      let nextLevel := (level w + 1)%Z in
      let w1 :=
        if (Z.rem nextLevel 2 =? 0)%Z && (lastLevelHealed w <? nextLevel)%Z
        then
          let w' := if (health w <? PLAYER_MAX_HEALTH)%Z
                    then let w'' := set_health w (health w + 1)%Z in
                         emit w'' (HealthUpdate (health w''))
                    else w in
          set_lastLevelHealed w' nextLevel
        else w in
      let w2 := set_level w1 nextLevel in
      let w3 := emit w2 (LevelUpdate (level w2)) in
      if (level w3 =? 5)%Z then emit w3 (AchievementUnlock "level_up") else w3
    else w
  else w.

Definition killEnemy (w : World) (e : Enemy) : World :=
  let w1 := award w e in
  let w2 := emit w1 (AchievementUnlock "first_blood") in
  let w3 := if (10000 <=? score w2)%Z
            then emit w2 (AchievementUnlock "ace") else w2 in
  levelUpCheck w3.

Definition hitEnemy (w : World) (b : Bullet) (e : Enemy)
    : World * Bullet * Enemy :=
  if bulletHits b e then
    let e1 := set_e_health e (e_health e - damage b)%Z in
    let b1 := set_b_y b (-100) in
    if (e_health e1 <=? 0)%Z
    then (killEnemy w e1, b1, e1)
    else (w, b1, e1)
  else (w, b, e).

Fixpoint bulletVsEnemies (w : World) (b : Bullet) (es : list Enemy)
    : World * Bullet * list Enemy :=
  match es with
  | [] => (w, b, [])
  | e :: rest =>
      let '(w1, b1, e1) := hitEnemy w b e in
      let '(w2, b2, rest') := bulletVsEnemies w1 b1 rest in
      (w2, b2, e1 :: rest')
  end.

(** One iteration of the outer [bulletsRef.current.forEach]. *)
Definition bulletStep (w : World) (b : Bullet) : World * Bullet :=
  let '(w1, b1, bs) := bulletVsBosses w b (bosses w) in
  let w2 := set_bosses w1 bs in
  let '(w3, b2, es) := bulletVsEnemies w2 b1 (enemies w2) in
  (set_enemies w3 es, b2).

Fixpoint bulletLoop (w : World) (bs : list Bullet) : World * list Bullet :=
  match bs with
  | [] => (w, [])
  | b :: rest =>
      let '(w1, b1) := bulletStep w b in
      let '(w2, rest') := bulletLoop w1 rest in
      (w2, b1 :: rest')
  end.

Definition alive (e : Enemy) : bool := (0 <? e_health e)%Z.

Definition bulletPass (w : World) : World :=
  let '(w1, bs) := bulletLoop w (bullets w) in
  let w2 := set_bullets w1 bs in
  set_enemies w2 (filter alive (enemies w2)).

(** Cleanup dead bosses. *)
Definition deadBoss (e : Enemy) : bool := isDead (e_id e).

Definition cleanupBosses (w : World) : World :=
  let deadBosses := filter deadBoss (bosses w) in
  if (0 <? List.length deadBosses)%nat then
    let w1 := set_bosses w (filter (fun e => negb (deadBoss e)) (bosses w)) in
    if noBoss w1
    then let w2 := set_level w1 (level w1 + 1)%Z in
         emit w2 (LevelUpdate (level w2))
    else w1
  else w.

(** Player vs Enemy/Boss/EnemyBullet.  [takeHit] is the body shared by the
    three loops; only the enemy loop unlocks ["shield_master"]. *)
Definition takeHit (unlock : bool) (t : Z) (w : World) : World :=
  let w1 :=
    if shieldActive (player w) then
      let w' := set_player w (set_shieldActive (player w) false) in
      if unlock then emit w' (AchievementUnlock "shield_master") else w'
    else
      let w' := set_health w (health w - 1)%Z in
      emit w' (HealthUpdate (health w')) in
  set_player w1 (set_invincibleTimer (set_invincible (player w1) true) t).

Fixpoint playerVsBullets (t : Z) (w : World) (bs : list Bullet)
    : World * list Bullet :=
  match bs with
  | [] => (w, [])
  | b :: rest =>
      if isEnemy b && playerTouchesBullet (player w) b then
        let '(w1, rest') := playerVsBullets t (takeHit false t w) rest in
        (w1, set_b_y b (CANVAS_HEIGHT + 100) :: rest')
      else
        let '(w1, rest') := playerVsBullets t w rest in
        (w1, b :: rest')
  end.

Fixpoint playerVsBosses (t : Z) (w : World) (es : list Enemy) : World :=
  match es with
  | [] => w
  | e :: rest =>
      if playerTouchesEnemy (player w) e
      then playerVsBosses t (takeHit false t w) rest
      else playerVsBosses t w rest
  end.

Fixpoint playerVsEnemies (t : Z) (w : World) (es : list Enemy)
    : World * list Enemy :=
  match es with
  | [] => (w, [])
  | e :: rest =>
      if playerTouchesEnemy (player w) e then
        let '(w1, rest') := playerVsEnemies t (takeHit true t w) rest in
        (w1, set_e_health e 0 :: rest')
      else
        let '(w1, rest') := playerVsEnemies t w rest in
        (w1, e :: rest')
  end.

Definition playerCollisions (i : Input) (w : World) : World :=
  if negb (invincible (player w)) then
    let '(w1, bs) := playerVsBullets (now i) w (bullets w) in
    let w2 := set_bullets w1 bs in
    let w3 := playerVsBosses (now i) w2 (bosses w2) in
    let '(w4, es) := playerVsEnemies (now i) w3 (enemies w3) in
    set_enemies w4 es
  else w.

(** Player vs PowerUp. *)
Fixpoint pickUp (t : Z) (w : World) (us : list PowerUp)
    : World * list PowerUp :=
  match us with
  | [] => (w, [])
  | u :: rest =>
      if playerTouchesPowerUp (player w) u then
        let w1 :=
          match u_type u with
          | SHIELD => set_player w (set_shieldActive (player w) true)
          | ty =>
              let w' := set_player w (set_powerUp (player w) t (Some ty)) in
              emit w' (AchievementUnlock "triple_threat")
          end in
        let '(w2, rest') := pickUp t w1 rest in
        (w2, set_u_y u (CANVAS_HEIGHT + 100) :: rest')
      else
        let '(w2, rest') := pickUp t w rest in
        (w2, u :: rest')
  end.

Definition pickUpPowerUps (i : Input) (w : World) : World :=
  let '(w1, us) := pickUp (now i) w (powerUps w) in
  set_powerUps w1 us.

(** 8. Update Timers. *)
Definition updateTimers (i : Input) (w : World) : World :=
  let p := player w in
  let p1 := if invincible p && (2000 <? now i - invincibleTimer p)%Z
            then set_invincible p false else p in
  let p2 := if isSome (activePowerUp p1)
               && (POWERUP_DURATION <? now i - powerUpTimer p1)%Z
            then set_powerUp p1 (powerUpTimer p1) None else p1 in
  set_player w p2.

(** The whole of [update]. *)
Definition update (i : Input) (w : World) : World :=
  match gameState w with
  | PLAYING =>
      let w := movePlayer i w in
      let w := shoot i w in
      let w := updateBullets w in
      let w := updateBosses i w in
      let w := bossWarning i w in
      let entering := isEntering i w in
      let w := bossEntrance i w in
      let w := spawnEnemies i entering w in
      let w := updateEnemies i w in
      let w := checkEscaped w in
      let w := updatePowerUps i w in
      let w := bulletPass w in
      let w := cleanupBosses w in
      let w := playerCollisions i w in
      let w := pickUpPowerUps i w in
      updateTimers i w
  | _ => w
  end.

End Update.

(** ** The hooks on [gameState], and the event loop *)

Definition isPlaying (g : GameState) : bool :=
  match g with PLAYING => true | _ => false end.

Definition leavesPlay (g : GameState) : bool :=
  match g with PAUSED | GAMEOVER | START => true | PLAYING => false end.

(** "Reset game values when starting a new game". *)
Definition resetGame (w : World) : World :=
  let p := player w in
  let p' := mkPlayer (CANVAS_WIDTH / 2 - PLAYER_SIZE / 2) (CANVAS_HEIGHT - 100)
              (p_width p) (p_height p) (p_speed p)
              PLAYER_MAX_HEALTH (p_maxHealth p) false false
              (invincibleTimer p) (powerUpTimer p) None in
  let w1 := mkWorld (gameState w) (prevGameState w) 0 1 PLAYER_MAX_HEALTH
              (lastEnemySpawn w) (lastPowerUpSpawn w) (lastShot w) 1
              false (bossEntranceTimer w) p' [] [] [] [] (timeouts w)
              (events w) in
  emit (emit (emit w1 (ScoreUpdate 0)) (LevelUpdate 1))
       (HealthUpdate PLAYER_MAX_HEALTH).

(** "Reset Game & Clear Entities on Pause/GameOver". *)
Definition clearEntities (w : World) : World :=
  set_bosses (set_powerUps (set_bullets (set_enemies w []) []) []) [].

Definition sameState (g h : GameState) : bool :=
  match g, h with
  | START, START | PLAYING, PLAYING | PAUSED, PAUSED | GAMEOVER, GAMEOVER => true
  | _, _ => false
  end.

(** A render with a new [gameState]: the two effects run in order.  Setting
    the state it already has does not render again. *)
Definition changeGameState (g : GameState) (w : World) : World :=
  if sameState g (gameState w) then w else
  let w1 := if isPlaying g && negb (isPlaying (prevGameState w))
            then resetGame w else w in
  let w2 := set_gameState w1 g g in
  if leavesPlay g then clearEntities w2 else w2.

(** The timers of the event loop: those whose delay has elapsed at [clock]
    run, oldest first, and leave the queue. *)
Definition due (clock : Z) (t : Timeout) : bool :=
  (t_now t + t_delay t <=? clock)%Z.

Definition runTimeouts (clock : Z) (w : World) : World :=
  fold_left (fun w t => bossSpawnCallback t w)
    (filter (due clock) (timeouts w))
    (set_timeouts w (filter (fun t => negb (due clock t)) (timeouts w))).

Inductive Action :=
| Frame (i : Input)
| Timers (clock : Z)
| SetGameState (g : GameState).

Section Run.

Context {trig : Trig}.

Definition act (a : Action) (w : World) : World :=
  match a with
  | Frame i => update i w
  | Timers clock => runTimeouts clock w
  | SetGameState g => changeGameState g w
  end.

Definition run (l : list Action) (w : World) : World :=
  fold_left (fun w a => act a w) l w.

Definition frames (l : list Input) (w : World) : World :=
  fold_left (fun w i => update i w) l w.

End Run.

(** ** Sample data for the examples *)

(** An interpretation of [Math] that is exact at angle 0 (the leading terms
    of the expansions of sine and cosine).  In the examples below the
    bullets that move on the field fly at angle 0; the bullets of a boss's
    burst are taken off the field before their position is read again. *)
Definition sampleTrig : Trig :=
  {| sin := fun a => a;
     cos := fun a => (1 - a * a / 2)%Q;
     atan2 := fun x y => 0%Q;
     PI := (355 # 113)%Q |}.

Definition noKeys : string -> bool := fun _ => false.

Definition spaceKey : string -> bool := fun k => String.eqb k "Space".

Definition idle (t : Z) : Input :=
  mkInput noKeys None t (fun _ => 0%Q) (fun _ => 0%Q) (fun _ => 1%Q)
    0%Q 0%Q 0%Q 0%Q 0%Q.

Definition firing (t : Z) : Input :=
  mkInput spaceKey None t (fun _ => 0%Q) (fun _ => 0%Q) (fun _ => 1%Q)
    0%Q 0%Q 0%Q 0%Q 0%Q.

(** The player of [playerRef]'s initial value, and a run that has just
    started. *)
Definition player0 : Player :=
  mkPlayer (CANVAS_WIDTH / 2 - PLAYER_SIZE / 2) (CANVAS_HEIGHT - 100)
    PLAYER_SIZE PLAYER_SIZE PLAYER_SPEED PLAYER_MAX_HEALTH PLAYER_MAX_HEALTH
    false false 0 0 None.

Definition world0 : World :=
  mkWorld PLAYING PLAYING 0 1 PLAYER_MAX_HEALTH 0 0 0 1 false 0 player0
    [] [] [] [] [] [].

(** ** Vocabulary of the statements *)

Definition countIf {A} (f : A -> bool) (l : list A) : nat :=
  List.length (filter f l).

(** The test of the enemy-bullet loop: [b.isEnemy] and the overlap. *)
Definition bulletTouch (p : Player) (b : Bullet) : bool :=
  isEnemy b && playerTouchesBullet p b.

(** The collisions the player block of a tick tests positive: enemy
    bullets, bosses and regular enemies that overlap the player. *)
Definition qualifyingHits (w : World) : nat :=
  (countIf (bulletTouch (player w)) (bullets w)
   + countIf (playerTouchesEnemy (player w)) (bosses w)
   + countIf (playerTouchesEnemy (player w)) (enemies w))%nat.

(** Those the block resolves: none when the player enters it invincible. *)
Definition resolvedHits (w : World) : nat :=
  if invincible (player w) then 0%nat else qualifyingHits w.

(** Of [n] resolved hits, how many cost health: all but the one a shield
    takes. *)
Definition unshielded (shield : bool) (n : nat) : nat :=
  if shield then Nat.pred n else n.

Definition markBullet (p : Player) (b : Bullet) : Bullet :=
  if bulletTouch p b then set_b_y b (CANVAS_HEIGHT + 100)%Q else b.

Definition ram (p : Player) (e : Enemy) : Enemy :=
  if playerTouchesEnemy p e then set_e_health e 0 else e.

(** What [takeHit] leaves alone. *)
Definition hitFrame (w w' : World) : Prop :=
  p_x (player w') = p_x (player w) /\ p_y (player w') = p_y (player w)
  /\ p_width (player w') = p_width (player w)
  /\ p_height (player w') = p_height (player w)
  /\ enemies w' = enemies w /\ bosses w' = bosses w
  /\ powerUps w' = powerUps w
  /\ score w' = score w /\ level w' = level w
  /\ gameState w' = gameState w /\ timeouts w' = timeouts w
  /\ bossWarningActive w' = bossWarningActive w.

(** ** Sample worlds *)

(** An enemy bullet flying straight down, a player bullet flying straight
    up, and a BASIC enemy as [ENEMY_CONFIGS] makes it at level 1. *)
Definition enemyShot (x y : Q) : Bullet := mkBullet IdFresh x y 6 6 4 1 0 true.

Definition playerShot (x y : Q) : Bullet := playerBullet x y 0.

Definition basicEnemy (x y : Q) : Enemy :=
  mkEnemy IdFresh BASIC x y 40 40 2.5 1 1 100 false (Some 0%Q).

(** The player holds a shield and one enemy bullet lies on the ship. *)
Definition shieldedWorld : World :=
  set_bullets (set_player world0 (set_shieldActive player0 true))
    [enemyShot 390 810].

(** The player was hit 100 ms ago and a BASIC enemy is about to fly into
    the ship. *)
Definition invincibleWorld : World :=
  set_enemies
    (set_player world0
       (set_invincibleTimer (set_invincible player0 true) 900))
    [basicEnemy 380 780].

(** The same enemy, the player vulnerable. *)
Definition rammedWorld : World := set_enemies world0 [basicEnemy 380 780].

(** Two enemy bullets, side by side, one step above the ship; the run has
    [h] health left. *)
Definition twoShotsWorld (h : Z) : World :=
  set_bullets (set_health world0 h) [enemyShot 390 806; enemyShot 400 806].

(** Two player bullets about to enter the same BASIC enemy of health 1. *)
Definition doubleKillWorld : World :=
  set_bullets (set_enemies world0 [basicEnemy 380 300])
    [playerShot 390 330; playerShot 400 330].

(** A run that has just reached level 5. *)
Definition level5World : World := set_level (set_score world0 8000) 5.

(** The boss warning is running: the level is [L], no boss and no regular
    enemy is in the world, and the callbacks [T] are pending. *)
Definition warningPhase (L : Z) (T : list Timeout) (w : World) : Prop :=
  level w = L /\ bosses w = [] /\ enemies w = []
  /\ bossWarningActive w = true /\ timeouts w = T.

(** The same before the warning is raised, whatever the enemies. *)
Definition beforeWarning (L : Z) (T : list Timeout) (w : World) : Prop :=
  level w = L /\ bosses w = [] /\ bossWarningActive w = false
  /\ timeouts w = T.

(** ** Bosses and their own bullets *)

(** The three attack patterns that emit at the boss's centre. *)
Definition centredShots {trig : Trig} (i : Input) (lvl : Z) (p : Player)
    (e : Enemy) : list Bullet :=
  circularBurst lvl e ++ targetedBurst lvl p e ++ spiral (now i) e.

(** The boss as the collision pass of the tick of an attack finds it: its
    timer is set and, during an entrance, it has been eased. *)
Definition afterEmission (i : Input) (entering : bool) (e : Enemy) : Enemy :=
  let e1 := set_attackTimer e (Some (inject_Z (now i))) in
  if entering then easeBoss e1 else e1.

(** Where a boss can be: it is spawned at [y = -height] and only moves
    down towards [y = 50]. *)
Definition bossInField (e : Enemy) : Prop :=
  (0 < e_width e /\ 1 <= e_height e /\ - e_height e <= e_y e /\ e_y e < 51)%Q.

(** The bullets of [bs] that sit at the centre of [e]. *)
Definition shotsFrom (e : Enemy) (bs : list Bullet) : list Bullet :=
  filter (fun b => Qeq_bool (b_x b) (bossCenterX e)
                   && Qeq_bool (b_y b) (bossCenterY e)) bs.

(** A boss fight at level 20.  The warning is raised at 1000 ms, ten more
    ticks follow, the callback runs at 4000 ms, and 256 ticks follow, 16 ms
    apart, with no input; every boss attack is a circular burst.  By then
    the two bosses have bounced off the walls and are crossing at y = 50,
    and both are due to attack at the next tick. *)
Definition level20World : World := set_level (set_score world0 40000) 20.

Definition ticksFrom (t0 : Z) (n : nat) : list Action :=
  map (fun k => Frame (idle (t0 + 16 * Z.of_nat (S k)))) (seq 0 n).

Definition crossingWorld : World :=
  run (trig := sampleTrig)
    (Frame (idle 1000) :: ticksFrom 1000 10 ++ [Timers 4000]
       ++ ticksFrom 4000 256)
    level20World.

(** The level-5 boss as the callback makes it, one step into the field. *)
Definition guard : Enemy :=
  moveBoss (newBoss (mkBossConfig "初级守卫" 150 100 100 5000 1.2) 1000 1 0).

(** A run at level 24, one at level 30 and one with two enemies of which
    the first has left the field. *)
Definition level24World : World := set_level (set_score world0 46000) 24.

Definition level30World : World := set_level (set_score world0 58000) 30.

Definition escapeWorld : World :=
  set_enemies (set_score world0 30) [basicEnemy 100 901; basicEnemy 200 100].

(** What the steps of a tick before the collisions leave alone: the health
    and the player's shield and invincibility. *)
Definition vitals (w : World) : Z * bool * bool * Z :=
  (health w, shieldActive (player w), invincible (player w),
   invincibleTimer (player w)).

(** What a bullet pass may do to them: heal, up to the maximum. *)
Definition mended (w w' : World) : Prop :=
  player w' = player w
  /\ health w <= health w' <= Z.max (health w) PLAYER_MAX_HEALTH.

(** The level-5 boss with 1 health left, two player bullets about to
    enter it. *)
Definition doubleBossKillWorld : World :=
  set_bullets
    (set_bosses level5World
       [mkEnemy (IdBoss 0) BASIC 325 50 150 100 1.2 1 100 5000 true
          (Some 1000%Q)])
    [playerShot 390 120; playerShot 400 120].

(** ** [App.tsx]: the achievements *)

Record Achievement := mkAchievement {
  a_id : string;
  a_title : string;
  a_description : string;
  a_unlocked : bool
}.

Definition ACHIEVEMENTS_LIST : list Achievement :=
  [ mkAchievement "first_blood" "第一滴血" "击毁第一架敌机" false;
    mkAchievement "survivor" "生存者" "在单局游戏中存活超过60秒" false;
    mkAchievement "ace" "王牌飞行员" "单局得分超过10000分" false;
    mkAchievement "shield_master" "护盾大师" "使用护盾抵挡一次攻击" false;
    mkAchievement "triple_threat" "三重威胁" "拾取三向子弹道具" false;
    mkAchievement "level_up" "晋升" "达到第5关" false;
    mkAchievement "boss_slayer" "首领克星" "击败第一个BOSS" false;
    mkAchievement "untouchable" "不可触碰" "单局游戏内无伤击败一个BOSS" false;
    mkAchievement "power_hungry" "能量渴求" "单局累计拾取10个道具" false;
    mkAchievement "planet_traveler" "星际旅者" "单局累计得分超过50000分" false;
    mkAchievement "order_restorer" "秩序修复者" "击败最终BOSS格赫罗斯之影" false;
    mkAchievement "speed_demon" "极速恶魔" "在30秒内击毁50架敌机" false ].

(** The part of the [App] state that the achievement handlers touch:
    the [achievements] and [lastAchievement] states and the
    ['gherros_achievements'] entry of [localStorage] ([None]: no entry).
    The timer that hides the toast after 3000 ms is left out. *)
Record Trophies := mkTrophies {
  achievements : list Achievement;
  lastAchievement : option Achievement;
  savedAchievements : option (list string)
}.

Definition set_unlocked (a : Achievement) (v : bool) : Achievement :=
  mkAchievement (a_id a) (a_title a) (a_description a) v.

(** [prev.findIndex(a => a.id === id)]; [None] is JavaScript's [-1]. *)
Fixpoint findIndex (id : string) (l : list Achievement) : option nat :=
  match l with
  | [] => None
  | a :: rest =>
      if String.eqb (a_id a) id then Some 0%nat
      else option_map S (findIndex id rest)
  end.

(** [updated[index] = v] on a copy. *)
Fixpoint setAt (index : nat) (v : Achievement) (l : list Achievement)
    : list Achievement :=
  match l, index with
  | [], _ => []
  | _ :: rest, O => v :: rest
  | a :: rest, S k => a :: setAt k v rest
  end.

(** [updated.filter(a => a.unlocked).map(a => a.id)] *)
Definition unlockedIds (l : list Achievement) : list string :=
  map a_id (filter a_unlocked l).

Definition handleAchievementUnlock (id : string) (s : Trophies) : Trophies :=
  let prev := achievements s in
  match findIndex id prev with
  | Some index =>
      match nth_error prev index with
      | Some a =>
          if negb (a_unlocked a) then
            let updated := setAt index (set_unlocked a true) prev in
            mkTrophies updated (Some (set_unlocked a true))
              (Some (unlockedIds updated))
          else s
      | None => s
      end
  | None => s
  end.

(** The effect that runs on mount: the flags are read back from the saved
    ids, [parsed.includes(a.id)]. *)
Definition loadAchievements (s : Trophies) : Trophies :=
  match savedAchievements s with
  | Some parsed =>
      mkTrophies
        (map (fun a => set_unlocked a (existsb (String.eqb (a_id a)) parsed))
             (achievements s))
        (lastAchievement s) (savedAchievements s)
  | None => s
  end.

(** [togglePause] of [App], on the game state. *)
Definition togglePause (g : GameState) : GameState :=
  match g with
  | PLAYING => PAUSED
  | PAUSED => PLAYING
  | other => other
  end.

(** ** More sample data *)

(** An interpretation of [Math] whose cosine stays within [-1, 1]. *)
Definition boundedTrig : Trig :=
  {| sin := fun a => 0%Q;
     cos := fun a => Qmax (-1) (Qmin 1 (1 - a * a / 2))%Q;
     atan2 := fun x y => 0%Q;
     PI := (355 # 113)%Q |}.

Definition rangedEnemy (x y : Q) : Enemy :=
  mkEnemy IdFresh RANGED x y 45 45 2.5 3 3 300 false (Some 0%Q).

(** ** Vocabulary of the further statements *)

(** What the steps of a tick outside the collisions never write. *)
Definition ledger (w : World) : Z * Z * Z * GameState * GameState :=
  (level w, health w, lastLevelHealed w, gameState w, prevGameState w).

(** What a hit of the bullet pass may do to level and health: the level
    may rise, and with a boss on the field neither changes. *)
Definition quiet (w w' : World) : Prop :=
  noBoss w' = noBoss w
  /\ level w <= level w'
  /\ (noBoss w = false ->
      level w' = level w /\ health w' = health w
      /\ lastLevelHealed w' = lastLevelHealed w).

(** An entity is worth something, never less than nothing. *)
Definition worth (e : Enemy) : Prop := 0 <= scoreValue e.

(** The score is non-negative and so is every score value it can still
    receive: those of the enemies and bosses on the field and those of the
    bosses of the pending callbacks. *)
Definition sound (w : World) : Prop :=
  0 <= score w
  /\ Forall worth (enemies w) /\ Forall worth (bosses w)
  /\ Forall (fun t => 0 <= bc_scoreValue (t_config t)) (timeouts w).

(** The ship lies inside the field. *)
Definition inField (p : Player) : Prop :=
  (0 <= p_x p /\ p_x p + p_width p <= CANVAS_WIDTH
   /\ 0 <= p_y p /\ p_y p + p_height p <= CANVAS_HEIGHT)%Q.

(** Position and size of the ship. *)
Definition hull (p : Player) : Q * Q * Q * Q :=
  (p_x p, p_y p, p_width p, p_height p).

(** The achievements the simulation can report. *)
Definition reported : list string :=
  ["first_blood"; "ace"; "level_up"; "shield_master";
   "triple_threat"]%string.

Definition simEvent (ev : Event) : Prop :=
  match ev with
  | AchievementUnlock id => In id reported
  | _ => True
  end.

(** The log of [w'] is the log of [w] with events of the simulation after
    it. *)
Definition extends (w w' : World) : Prop :=
  exists new, events w' = events w ++ new /\ Forall simEvent new.

(** ** Vocabulary of the statements on power-ups, spawns and the host *)
(** What the pick-up does to a power-up: the one the ship touches is put
    below the field. *)
Definition taken (p : Player) (u : PowerUp) : PowerUp :=
  if playerTouchesPowerUp p u then set_u_y u (CANVAS_HEIGHT + 100) else u.

(** The power-up the ship carries and the time it was picked up. *)
Definition gear (p : Player) : option PowerUpType * Z :=
  (activePowerUp p, powerUpTimer p).

Definition isShield (u : PowerUp) : bool :=
  match u_type u with SHIELD => true | TRIPLE_SHOT => false end.

(** What only the power-up steps of a tick write: the list of power-ups
    and the time of the last supply. *)
Definition supply (w : World) : list PowerUp * Z :=
  (powerUps w, lastPowerUpSpawn w).

(** What the steps of a tick outside the power-up and spawn code never
    write: the power-ups, the time of the last supply, the power-up the
    ship carries and the time of the last enemy spawn. *)
Definition kept (w w' : World) : Prop :=
  powerUps w' = powerUps w /\ lastPowerUpSpawn w' = lastPowerUpSpawn w
  /\ gear (player w') = gear (player w)
  /\ lastEnemySpawn w' = lastEnemySpawn w.

(** What the steps of a tick before the spawn leave of the conditions of
    the spawn: the time of the last spawn, the level and whether a boss is
    on the field are as they were, a warning that was on is still on, and
    no enemy has been added. *)
Definition gate (w w' : World) : Prop :=
  lastEnemySpawn w' = lastEnemySpawn w /\ level w' = level w
  /\ noBoss w' = noBoss w
  /\ (bossWarningActive w = true -> bossWarningActive w' = true)
  /\ (List.length (enemies w') <= List.length (enemies w))%nat.

(** What the steps after the spawn do to the enemies: there are no more of
    them, and the time of the last spawn is as it was. *)
Definition thins (w w' : World) : Prop :=
  lastEnemySpawn w' = lastEnemySpawn w
  /\ (List.length (enemies w') <= List.length (enemies w))%nat.

(** ** [App.tsx]: what the host shows *)

(** The [score], [level], [health], [gameState] and [bossWarning] states
    of [App].  The best score that [handleScoreUpdate] also keeps is left
    out. *)
Record Hud := mkHud {
  shownScore : Z;
  shownLevel : Z;
  shownHealth : Z;
  appState : GameState;
  shownWarning : option string
}.

Definition handleScoreUpdate (newScore : Z) (h : Hud) : Hud :=
  mkHud newScore (shownLevel h) (shownHealth h) (appState h) (shownWarning h).

Definition handleLevelUpdate (newLevel : Z) (h : Hud) : Hud :=
  mkHud (shownScore h) newLevel (shownHealth h) (appState h) (shownWarning h).

Definition handleHealthUpdate (newHealth : Z) (h : Hud) : Hud :=
  mkHud (shownScore h) (shownLevel h) newHealth
    (if newHealth <=? 0 then GAMEOVER else appState h) (shownWarning h).

Definition handleBossWarning (bossName : option string) (h : Hud) : Hud :=
  mkHud (shownScore h) (shownLevel h) (shownHealth h) (appState h) bossName.

(** The callbacks of [GameCanvas] as [App] passes them; the achievements
    are kept in [Trophies]. *)
Definition handle (h : Hud) (ev : Event) : Hud :=
  match ev with
  | ScoreUpdate s => handleScoreUpdate s h
  | LevelUpdate l => handleLevelUpdate l h
  | HealthUpdate v => handleHealthUpdate v h
  | AchievementUnlock _ => h
  | BossWarning name => handleBossWarning name h
  end.

Definition figures (w : World) : Z * Z * Z := (score w, level w, health w).

Definition shown (h : Hud) : Z * Z * Z :=
  (shownScore h, shownLevel h, shownHealth h).

(** The log of [w'] is the log of [w] with more events, and a host that
    shows the figures of [w] shows those of [w'] once it has handled them;
    it has then set GAMEOVER if the health has changed to a value of 0 or
    less, and it has not left GAMEOVER. *)
Definition tracks (w w' : World) : Prop :=
  exists new, events w' = events w ++ new
    /\ forall h, shown h = figures w ->
         shown (fold_left handle new h) = figures w'
         /\ (appState h = GAMEOVER ->
             appState (fold_left handle new h) = GAMEOVER)
         /\ (health w' <> health w -> health w' <= 0 ->
             appState (fold_left handle new h) = GAMEOVER).

(** The same for the warning banner: a host that shows a boss warning
    exactly when the simulation has one running does so again once it has
    handled the new callbacks. *)
Definition banner (w w' : World) : Prop :=
  exists new, events w' = events w ++ new
    /\ forall h, isSome (shownWarning h) = bossWarningActive w ->
         isSome (shownWarning (fold_left handle new h))
         = bossWarningActive w'.

(** A TRIPLE_SHOT and a SHIELD as [update] makes them, and a run that has
    just started with a TRIPLE_SHOT on the ship. *)
Definition tripleShotAt (x y : Q) : PowerUp :=
  mkPowerUp IdFresh TRIPLE_SHOT x y POWERUP_SIZE POWERUP_SIZE 2.

Definition shieldAt (x y : Q) : PowerUp :=
  mkPowerUp IdFresh SHIELD x y POWERUP_SIZE POWERUP_SIZE 2.

Definition powerUpWorld : World :=
  set_powerUps world0
    [tripleShotAt (p_x player0) (p_y player0); shieldAt 10 10].

(** The [App] of a run that has just started. *)
Definition hud0 : Hud := mkHud 0 1 PLAYER_MAX_HEALTH PLAYING None.

(** * Properties *)

Section Properties.

Context {trig : Trig}.

Local Open Scope Z_scope.

(** ** Comparisons on [Q] *)

Lemma Qltb_lt (a b : Q) : Qltb a b = true <-> (a < b)%Q.
Proof.
  unfold Qltb. rewrite negb_true_iff. split.
  - intros H. apply Qnot_le_lt. intros Hle.
    apply Qle_bool_iff in Hle. congruence.
  - intros H. destruct (Qle_bool b a) eqn:E; [|reflexivity].
    apply Qle_bool_iff in E. exfalso. apply (Qlt_not_le _ _ H E).
Qed.

Lemma Qgtb_lt (a b : Q) : Qgtb a b = true <-> (b < a)%Q.
Proof. unfold Qgtb. apply Qltb_lt. Qed.

Lemma Qleb_le (a b : Q) : Qleb a b = true <-> (a <= b)%Q.
Proof. unfold Qleb. apply Qle_bool_iff. Qed.

Lemma Qgtb_negb_Qleb (a b : Q) : Qgtb a b = negb (Qleb a b).
Proof. reflexivity. Qed.

Lemma overlap_spec (ax ay aw ah bx by_ bw bh : Q) :
  overlap ax ay aw ah bx by_ bw bh = true <->
  (ax < bx + bw /\ bx < ax + aw /\ ay < by_ + bh /\ by_ < ay + ah)%Q.
Proof.
  unfold overlap. rewrite !andb_true_iff, !Qltb_lt, !Qgtb_lt. tauto.
Qed.

(** ** Escaped enemies *)

Lemma filter_length_split {A} (f : A -> bool) (l : list A) :
  (List.length (filter f l) + List.length (filter (fun x => negb (f x)) l)
   = List.length l)%nat.
Proof.
  induction l as [|x l IH]; simpl; [reflexivity|].
  destruct (f x); simpl; lia.
Qed.

(** C10.  When N >= 1 enemies are below the field at the escape check of a
    tick, the check lowers the score by exactly min(score, 50 N), leaves it
    non-negative, and removes exactly those N enemies. *)
Theorem escape_penalty (w : World) (n : nat) :
  n = List.length (filter hasEscaped (enemies w)) ->
  (1 <= n)%nat ->
  score (checkEscaped w) = score w - Z.min (score w) (50 * Z.of_nat n)
  /\ 0 <= score (checkEscaped w)
  /\ enemies (checkEscaped w)
     = filter (fun e => negb (hasEscaped e)) (enemies w)
  /\ (List.length (enemies (checkEscaped w)) + n
      = List.length (enemies w))%nat
  /\ Forall (fun e => hasEscaped e = false) (enemies (checkEscaped w)).
Proof.
  intros Hn Hpos. unfold checkEscaped.
  destruct (0 <? List.length (filter hasEscaped (enemies w)))%nat eqn:E.
  2:{ apply Nat.ltb_ge in E. lia. }
  cbn [score enemies set_enemies emit set_score]. rewrite <- Hn.
  assert (Hf : filter stillInside (enemies w)
               = filter (fun e => negb (hasEscaped e)) (enemies w)).
  { apply filter_ext. intros e. unfold stillInside, hasEscaped.
    rewrite Qgtb_negb_Qleb, negb_involutive. reflexivity. }
  rewrite Hf. repeat split.
  - lia.
  - lia.
  - rewrite Hn. pose proof (filter_length_split hasEscaped (enemies w)). lia.
  - apply Forall_forall. intros e He. apply filter_In in He.
    destruct He as [_ He]. now apply negb_true_iff in He.
Qed.

(** ** Weapon tiers and the fire gate *)

Lemma shoot_gate (i : Input) (w : World) :
  now i - lastShot w <= shotInterval (level w) -> shoot i w = w.
Proof.
  intros H. unfold shoot, fires.
  replace (shotInterval (level w) <? now i - lastShot w) with false.
  - now rewrite andb_false_r.
  - symmetry. apply Z.ltb_ge. exact H.
Qed.

Lemma shoot_fires (i : Input) (w : World) :
  fires i w = true ->
  bullets (shoot i w) = bullets w ++ shotPattern w
  /\ lastShot (shoot i w) = now i
  /\ shotInterval (level w) < now i - lastShot w.
Proof.
  intros H. unfold shoot. rewrite H. cbn. repeat split.
  unfold fires in H. apply andb_true_iff in H. destruct H as [_ H].
  now apply Z.ltb_lt in H.
Qed.

Lemma shotPattern_triple (w : World) :
  isTriple (activePowerUp (player w)) = false -> 15 <= level w < 25 ->
  map angle (shotPattern w) = [0; -0.2; 0.2]%Q.
Proof.
  intros Hp Hl. unfold shotPattern. rewrite Hp.
  replace (15 <=? level w) with true by (symmetry; apply Z.leb_le; lia).
  replace (level w <? 25) with true by (symmetry; apply Z.ltb_lt; lia).
  reflexivity.
Qed.

Lemma shotPattern_penta (w : World) :
  isTriple (activePowerUp (player w)) = false -> 25 <= level w ->
  map angle (shotPattern w)
  = map (fun k => (inject_Z k * 0.15)%Q) [-2; -1; 0; 1; 2].
Proof.
  intros Hp Hl. unfold shotPattern. rewrite Hp.
  replace (level w <? 25) with false by (symmetry; apply Z.ltb_ge; lia).
  replace (25 <=? level w) with true by (symmetry; apply Z.leb_le; lia).
  rewrite andb_false_r. cbn [orb]. rewrite map_map. reflexivity.
Qed.

(** C8.  With no TRIPLE_SHOT active, a shot at level 24 appends exactly 3
    bullets at angles 0, -0.2, 0.2 and a shot at level 25 or above appends
    exactly 5 bullets at angles -0.3, -0.15, 0, 0.15, 0.3; a shot is only
    fired when more than the interval has passed since the last one, the
    interval being 200 ms below level 30 and 120 ms from level 30 on, and
    within the interval [shoot] leaves the world as it is. *)
Theorem weapon_tiers_and_fire_gate (i : Input) (w : World) :
  isTriple (activePowerUp (player w)) = false ->
  (fires i w = true ->
     bullets (shoot i w) = bullets w ++ shotPattern w
     /\ lastShot (shoot i w) = now i
     /\ shotInterval (level w) < now i - lastShot w)
  /\ (level w = 24 ->
        List.length (shotPattern w) = 3%nat
        /\ map angle (shotPattern w) = [0; -0.2; 0.2]%Q)
  /\ (25 <= level w ->
        List.length (shotPattern w) = 5%nat
        /\ Forall2 Qeq (map angle (shotPattern w))
                       [-0.3; -0.15; 0; 0.15; 0.3]%Q)
  /\ (level w < 30 -> shotInterval (level w) = 200)
  /\ (30 <= level w -> shotInterval (level w) = 120)
  /\ (now i - lastShot w <= shotInterval (level w) -> shoot i w = w).
Proof.
  intros Hp. split; [apply shoot_fires|]. split; [|split; [|split; [|split]]].
  - intros Hl.
    pose proof (shotPattern_triple w Hp ltac:(lia)) as Ha.
    split; [|exact Ha].
    rewrite <- (length_map angle), Ha. reflexivity.
  - intros Hl.
    pose proof (shotPattern_penta w Hp Hl) as Ha.
    split.
    + rewrite <- (length_map angle), Ha. reflexivity.
    + rewrite Ha. cbn [map].
      repeat (constructor; [reflexivity|]). constructor.
  - intros Hl. unfold shotInterval.
    replace (30 <=? level w) with false by (symmetry; apply Z.leb_gt; lia).
    reflexivity.
  - intros Hl. unfold shotInterval.
    replace (30 <=? level w) with true by (symmetry; apply Z.leb_le; lia).
    reflexivity.
  - apply shoot_gate.
Qed.

(** ** The player block *)

Lemma hitFrame_refl (w : World) : hitFrame w w.
Proof. unfold hitFrame. repeat split. Qed.

Lemma hitFrame_trans (a b c : World) :
  hitFrame a b -> hitFrame b c -> hitFrame a c.
Proof.
  unfold hitFrame. intros H1 H2.
  repeat match goal with H : _ /\ _ |- _ => destruct H end.
  repeat split; congruence.
Qed.

Lemma takeHit_frame (u : bool) (t : Z) (w : World) : hitFrame w (takeHit u t w).
Proof.
  unfold hitFrame, takeHit.
  destruct (shieldActive (player w)); destruct u; cbn; repeat split.
Qed.

Lemma takeHit_health (u : bool) (t : Z) (w : World) :
  health (takeHit u t w)
  = if shieldActive (player w) then health w else health w - 1.
Proof.
  unfold takeHit. destruct (shieldActive (player w)); destruct u; reflexivity.
Qed.

Lemma takeHit_shield (u : bool) (t : Z) (w : World) :
  shieldActive (player (takeHit u t w)) = false.
Proof.
  unfold takeHit. destruct (shieldActive (player w)) eqn:E; destruct u; cbn;
    try reflexivity; exact E.
Qed.

Lemma takeHit_invincible (u : bool) (t : Z) (w : World) :
  invincible (player (takeHit u t w)) = true
  /\ invincibleTimer (player (takeHit u t w)) = t.
Proof.
  unfold takeHit. destruct (shieldActive (player w)); destruct u; cbn; auto.
Qed.

Lemma frame_touchEnemy (w w' : World) (e : Enemy) :
  hitFrame w w' ->
  playerTouchesEnemy (player w') e = playerTouchesEnemy (player w) e.
Proof.
  unfold hitFrame, playerTouchesEnemy. intros (-> & -> & -> & -> & _).
  reflexivity.
Qed.

Lemma frame_touchBullet (w w' : World) (b : Bullet) :
  hitFrame w w' -> bulletTouch (player w') b = bulletTouch (player w) b.
Proof.
  unfold hitFrame, bulletTouch, playerTouchesBullet.
  intros (-> & -> & -> & -> & _). reflexivity.
Qed.

Lemma countIf_ext {A} (f g : A -> bool) (l : list A) :
  (forall x, f x = g x) -> countIf f l = countIf g l.
Proof. intros H. unfold countIf. now rewrite (filter_ext f g H). Qed.

Lemma countIf_cons {A} (f : A -> bool) (x : A) (l : list A) :
  countIf f (x :: l) = ((if f x then 1 else 0) + countIf f l)%nat.
Proof. unfold countIf. simpl. destruct (f x); reflexivity. Qed.

(** The worlds the three loops leave are [n] applications of [takeHit],
    [n] being the number of positive tests. *)
Lemma playerVsBullets_iter (t : Z) (bs : list Bullet) (w : World) :
  playerVsBullets t w bs
  = (Nat.iter (countIf (bulletTouch (player w)) bs) (takeHit false t) w,
     map (markBullet (player w)) bs).
Proof.
  revert w. induction bs as [|b rest IH]; intros w; [reflexivity|].
  cbn [playerVsBullets map]. rewrite countIf_cons. unfold markBullet at 1.
  fold (bulletTouch (player w) b).
  destruct (bulletTouch (player w) b).
  - rewrite IH.
    rewrite (countIf_ext _ (bulletTouch (player w)))
      by (intros x; apply frame_touchBullet, takeHit_frame).
    rewrite (map_ext (markBullet (player (takeHit false t w)))
                     (markBullet (player w))).
    2:{ intros x. unfold markBullet.
        now rewrite (frame_touchBullet w _ x (takeHit_frame false t w)). }
    cbn [Nat.add]. now rewrite Nat.iter_succ_r.
  - rewrite IH. reflexivity.
Qed.

Lemma playerVsBosses_iter (t : Z) (es : list Enemy) (w : World) :
  playerVsBosses t w es
  = Nat.iter (countIf (playerTouchesEnemy (player w)) es) (takeHit false t) w.
Proof.
  revert w. induction es as [|e rest IH]; intros w; [reflexivity|].
  cbn [playerVsBosses]. rewrite countIf_cons.
  destruct (playerTouchesEnemy (player w) e).
  - rewrite IH.
    rewrite (countIf_ext _ (playerTouchesEnemy (player w)))
      by (intros x; apply frame_touchEnemy, takeHit_frame).
    cbn [Nat.add]. now rewrite Nat.iter_succ_r.
  - rewrite IH. reflexivity.
Qed.

Lemma playerVsEnemies_iter (t : Z) (es : list Enemy) (w : World) :
  playerVsEnemies t w es
  = (Nat.iter (countIf (playerTouchesEnemy (player w)) es) (takeHit true t) w,
     map (ram (player w)) es).
Proof.
  revert w. induction es as [|e rest IH]; intros w; [reflexivity|].
  cbn [playerVsEnemies map]. rewrite countIf_cons. unfold ram at 1.
  destruct (playerTouchesEnemy (player w) e).
  - rewrite IH.
    rewrite (countIf_ext _ (playerTouchesEnemy (player w)))
      by (intros x; apply frame_touchEnemy, takeHit_frame).
    rewrite (map_ext (ram (player (takeHit true t w))) (ram (player w))).
    2:{ intros x. unfold ram.
        now rewrite (frame_touchEnemy w _ x (takeHit_frame true t w)). }
    cbn [Nat.add]. now rewrite Nat.iter_succ_r.
  - rewrite IH. reflexivity.
Qed.

Lemma iter_takeHit_frame (u : bool) (t : Z) (n : nat) (w : World) :
  hitFrame w (Nat.iter n (takeHit u t) w).
Proof.
  induction n as [|n IH]; [apply hitFrame_refl|].
  rewrite Nat.iter_succ. eapply hitFrame_trans; [exact IH|apply takeHit_frame].
Qed.

Lemma takeHit_bullets (u : bool) (t : Z) (w : World) :
  bullets (takeHit u t w) = bullets w.
Proof.
  unfold takeHit. destruct (shieldActive (player w)); destruct u; reflexivity.
Qed.

Lemma iter_takeHit_bullets (u : bool) (t : Z) (n : nat) (w : World) :
  bullets (Nat.iter n (takeHit u t) w) = bullets w.
Proof.
  induction n as [|n IH]; [reflexivity|].
  rewrite Nat.iter_succ, takeHit_bullets. exact IH.
Qed.

Lemma iter_takeHit_shield (u : bool) (t : Z) (n : nat) (w : World) :
  shieldActive (player (Nat.iter n (takeHit u t) w))
  = shieldActive (player w) && (n =? 0)%nat.
Proof.
  destruct n as [|n].
  - cbn. now rewrite andb_true_r.
  - rewrite Nat.iter_succ, takeHit_shield. cbn. now rewrite andb_false_r.
Qed.

Lemma iter_takeHit_health (u : bool) (t : Z) (n : nat) (w : World) :
  health (Nat.iter n (takeHit u t) w)
  = health w - Z.of_nat (unshielded (shieldActive (player w)) n).
Proof.
  induction n as [|n IH].
  - cbn. destruct (shieldActive (player w)); cbn; lia.
  - rewrite Nat.iter_succ, takeHit_health, iter_takeHit_shield, IH.
    destruct (shieldActive (player w)); destruct n;
      cbn [andb Nat.eqb unshielded Nat.pred]; lia.
Qed.

Lemma iter_takeHit_invincible (u : bool) (t : Z) (n : nat) (w : World) :
  invincible (player (Nat.iter n (takeHit u t) w))
  = invincible (player w) || negb (n =? 0)%nat.
Proof.
  destruct n as [|n].
  - cbn. now rewrite orb_false_r.
  - rewrite Nat.iter_succ, (proj1 (takeHit_invincible _ _ _)). cbn.
    now rewrite orb_true_r.
Qed.

Lemma unshielded_split (s : bool) (a b : nat) :
  (unshielded s a + unshielded (s && (a =? 0)%nat) b = unshielded s (a + b))%nat.
Proof. destruct s, a, b; cbn; lia. Qed.

(** The player block of a tick the player enters vulnerable. *)
Lemma playerCollisions_spec (i : Input) (w : World) :
  invincible (player w) = false ->
  let w' := playerCollisions i w in
  let n := qualifyingHits w in
  health w' = health w - Z.of_nat (unshielded (shieldActive (player w)) n)
  /\ shieldActive (player w') = shieldActive (player w) && (n =? 0)%nat
  /\ invincible (player w') = negb (n =? 0)%nat
  /\ enemies w' = map (ram (player w)) (enemies w)
  /\ bosses w' = bosses w
  /\ bullets w' = map (markBullet (player w)) (bullets w)
  /\ level w' = level w /\ score w' = score w
  /\ bossWarningActive w' = bossWarningActive w
  /\ timeouts w' = timeouts w.
Proof.
  intros Hinv. unfold playerCollisions, qualifyingHits. rewrite Hinv.
  cbn [negb]. rewrite playerVsBullets_iter.
  set (n1 := countIf (bulletTouch (player w)) (bullets w)).
  set (w1 := Nat.iter n1 (takeHit false (now i)) w).
  set (w2 := set_bullets w1 (map (markBullet (player w)) (bullets w))).
  assert (F1 : hitFrame w w1) by apply iter_takeHit_frame.
  assert (F2 : hitFrame w w2).
  { eapply hitFrame_trans; [exact F1|]. unfold hitFrame. cbn. repeat split. }
  rewrite playerVsBosses_iter.
  rewrite (countIf_ext (playerTouchesEnemy (player w2))
                       (playerTouchesEnemy (player w)))
    by (intros x; apply frame_touchEnemy, F2).
  replace (bosses w2) with (bosses w) by (symmetry; apply F2).
  set (n2 := countIf (playerTouchesEnemy (player w)) (bosses w)).
  set (w3 := Nat.iter n2 (takeHit false (now i)) w2).
  assert (F3 : hitFrame w w3).
  { eapply hitFrame_trans; [exact F2|apply iter_takeHit_frame]. }
  rewrite playerVsEnemies_iter.
  rewrite (countIf_ext (playerTouchesEnemy (player w3))
                       (playerTouchesEnemy (player w)))
    by (intros x; apply frame_touchEnemy, F3).
  rewrite (map_ext (ram (player w3)) (ram (player w))).
  2:{ intros x. unfold ram. now rewrite (frame_touchEnemy w w3 x F3). }
  replace (enemies w3) with (enemies w) by (symmetry; apply F3).
  set (n3 := countIf (playerTouchesEnemy (player w)) (enemies w)).
  set (w4 := Nat.iter n3 (takeHit true (now i)) w3).
  assert (F4 : hitFrame w w4).
  { eapply hitFrame_trans; [exact F3|apply iter_takeHit_frame]. }
  cbn [health player enemies bosses bullets set_enemies].
  assert (S1 : shieldActive (player w2)
               = shieldActive (player w) && (n1 =? 0)%nat)
    by apply iter_takeHit_shield.
  assert (S3 : shieldActive (player w3)
               = shieldActive (player w) && (n1 + n2 =? 0)%nat).
  { unfold w3. rewrite iter_takeHit_shield, S1.
    destruct (shieldActive (player w)), n1, n2; reflexivity. }
  assert (H2 : health w2
               = health w - Z.of_nat (unshielded (shieldActive (player w)) n1))
    by apply iter_takeHit_health.
  assert (H3 : health w3
               = health w
                 - Z.of_nat (unshielded (shieldActive (player w)) (n1 + n2))).
  { unfold w3. rewrite iter_takeHit_health, H2, S1.
    rewrite <- (unshielded_split _ n1 n2). lia. }
  repeat split.
  - unfold w4. rewrite iter_takeHit_health, H3, S3.
    rewrite <- (unshielded_split _ (n1 + n2) n3). lia.
  - unfold w4. rewrite iter_takeHit_shield, S3.
    destruct (shieldActive (player w)), n1, n2, n3; reflexivity.
  - unfold w4, w3. rewrite !iter_takeHit_invincible.
    change (invincible (player w2)) with (invincible (player w1)).
    unfold w1. rewrite iter_takeHit_invincible, Hinv.
    destruct n1, n2, n3; reflexivity.
  - apply F4.
  - unfold w4, w3. now rewrite !iter_takeHit_bullets.
  - apply F4.
  - apply F4.
  - apply F4.
  - apply F4.
Qed.

Lemma playerCollisions_invincible (i : Input) (w : World) :
  invincible (player w) = true -> playerCollisions i w = w.
Proof. intros H. unfold playerCollisions. now rewrite H. Qed.

(** C5.  With the shield up, a player block that resolves exactly one hit
    leaves the shield down and the health as it was; more generally, of the
    hits the block resolves the shield takes exactly one, and a hit taken
    on the shield costs no health. *)
Theorem shield_absorbs_one_hit (i : Input) (w : World) :
  shieldActive (player w) = true ->
  (resolvedHits w = 1%nat ->
     shieldActive (player (playerCollisions i w)) = false
     /\ health (playerCollisions i w) = health w)
  /\ (forall k, resolvedHits w = S k ->
        shieldActive (player (playerCollisions i w)) = false
        /\ health (playerCollisions i w) = health w - Z.of_nat k)
  /\ (forall u t,
        shieldActive (player (takeHit u t w)) = false
        /\ health (takeHit u t w) = health w).
Proof.
  intros Hs.
  assert (G : forall k, resolvedHits w = S k ->
            shieldActive (player (playerCollisions i w)) = false
            /\ health (playerCollisions i w) = health w - Z.of_nat k).
  { intros k Hk. unfold resolvedHits in Hk.
    destruct (invincible (player w)) eqn:Hinv; [discriminate|].
    destruct (playerCollisions_spec i w Hinv) as (Hh & Hsh & _).
    rewrite Hh, Hsh, Hs, Hk. cbn. split; [reflexivity|lia]. }
  split; [|split].
  - intros H1. destruct (G 0%nat H1) as [A B]. split; [exact A|]. cbn in B. lia.
  - exact G.
  - intros u t. split; [apply takeHit_shield|].
    rewrite takeHit_health, Hs. reflexivity.
Qed.

Lemma shield_absorbs_one_hit_witness :
  shieldActive (player shieldedWorld) = true
  /\ resolvedHits shieldedWorld = 1%nat
  /\ shieldActive (player (playerCollisions (idle 1000) shieldedWorld)) = false
  /\ health (playerCollisions (idle 1000) shieldedWorld) = health shieldedWorld.
Proof.
  split; [reflexivity|]. split; [reflexivity|].
  exact (proj1 (shield_absorbs_one_hit (idle 1000) shieldedWorld eq_refl) eq_refl).
Defined.

(** ** Contact with a regular enemy *)

Lemma bulletPass_alive (w : World) :
  Forall (fun e => 0 < e_health e) (enemies (bulletPass w)).
Proof.
  unfold bulletPass. destruct (bulletLoop w (bullets w)) as [w1 bs].
  cbn [enemies set_enemies set_bullets]. apply Forall_forall.
  intros e He. apply filter_In in He. destruct He as [_ He].
  unfold alive in He. now apply Z.ltb_lt in He.
Qed.

(** C6, as the code has it.  In a tick whose player block the player enters
    vulnerable, every regular enemy that overlaps the player has its
    health set to 0 by the contact, whatever the shield and whether or not
    the player loses health, and the other enemies are left alone; no enemy
    with health 0 or less outlives the dead-enemy filter of a bullet pass.
    A player who enters the block invincible is not tested against the
    enemies at all. *)
Theorem contact_destroys_enemy (i : Input) (w : World) :
  (invincible (player w) = false ->
     enemies (playerCollisions i w) = map (ram (player w)) (enemies w)
     /\ forall e, In e (enemies w) ->
          playerTouchesEnemy (player w) e = true ->
          In (set_e_health e 0) (enemies (playerCollisions i w)))
  /\ (invincible (player w) = true -> playerCollisions i w = w)
  /\ (forall w2, Forall (fun e => 0 < e_health e) (enemies (bulletPass w2))).
Proof.
  split; [|split].
  - intros Hinv.
    destruct (playerCollisions_spec i w Hinv) as (_ & _ & _ & He & _).
    split; [exact He|]. intros e Hin Ht. rewrite He.
    apply in_map_iff. exists e. split; [|exact Hin].
    unfold ram. now rewrite Ht.
  - apply playerCollisions_invincible.
  - apply bulletPass_alive.
Qed.

Lemma contact_destroys_enemy_witness :
  invincible (player rammedWorld) = false
  /\ In (basicEnemy 380 780) (enemies rammedWorld)
  /\ playerTouchesEnemy (player rammedWorld) (basicEnemy 380 780) = true
  /\ In (set_e_health (basicEnemy 380 780) 0)
        (enemies (playerCollisions (idle 1000) rammedWorld)).
Proof.
  split; [reflexivity|]. split; [left; reflexivity|]. split; [reflexivity|].
  exact (proj2 (proj1 (contact_destroys_enemy (idle 1000) rammedWorld) eq_refl)
           (basicEnemy 380 780) (or_introl eq_refl) eq_refl).
Defined.

(** C6 as stated fails: the player of [invincibleWorld] is invincible, the
    BASIC enemy overlaps the ship before and after the tick, and the tick
    leaves the enemy in the list with its health of 1. *)
Lemma contact_spares_enemy_when_invincible :
  let w := invincibleWorld in
  let w' := update (trig := sampleTrig) (idle 1000) w in
  gameState w = PLAYING
  /\ forallb (playerTouchesEnemy (player w)) (enemies w) = true
  /\ map e_health (enemies w) = [1]
  /\ map e_health (enemies w') = [1]
  /\ forallb (playerTouchesEnemy (player w')) (enemies w') = true
  /\ health w' = health w.
Proof. vm_compute. repeat split. Qed.

(** ** Several hits in one tick *)

(** C4, evaluated.  The player of [twoShotsWorld 3] is vulnerable and has 3
    health; two enemy bullets reach the ship in the same tick.  The first
    hit sets [invincible], and the second, resolved in the same player
    block 0 ms later, still costs health: the tick ends with health 1. *)
Theorem second_hit_in_same_tick_costs_health :
  let w := twoShotsWorld 3 in
  let w' := update (trig := sampleTrig) (idle 1000) w in
  invincible (player w) = false /\ shieldActive (player w) = false
  /\ health w = 3
  /\ health w' = 1
  /\ invincible (player w') = true
  /\ invincibleTimer (player w') = 1000
  /\ events w' = [HealthUpdate 2; HealthUpdate 1].
Proof. vm_compute. repeat split. Qed.

(** C1, evaluated.  With 1 health left the same two bullets take the health
    to -1 within one tick: the decrement has no floor. *)
Theorem health_below_zero_in_one_tick :
  let w := twoShotsWorld 1 in
  let w' := update (trig := sampleTrig) (idle 1000) w in
  gameState w = PLAYING /\ health w = 1
  /\ health w' = -1
  /\ events w' = [HealthUpdate 0; HealthUpdate (-1)].
Proof. vm_compute. repeat split. Qed.

(** ** Score of a kill *)

(** C3, evaluated.  Two player bullets overlap the same BASIC enemy of
    health 1 and score value 100 in one bullet pass: the first takes its
    health to 0 and scores 100, the second takes it to -1 and scores 100
    again.  The same happens to the level-5 boss of
    [doubleBossKillWorld]: its score value of 5000 is added twice. *)
Theorem kill_scored_once_per_bullet :
  let w := doubleKillWorld in
  let w' := update (trig := sampleTrig) (idle 1000) w in
  let v := doubleBossKillWorld in
  let v' := update (trig := sampleTrig) (idle 1000) v in
  (score w = 0 /\ map scoreValue (enemies w) = [100]
   /\ map e_health (enemies w) = [1]
   /\ score w' = 200
   /\ enemies w' = []
   /\ events w' = [ScoreUpdate 100; AchievementUnlock "first_blood";
                   ScoreUpdate 200; AchievementUnlock "first_blood"])
  /\ (score v = 8000 /\ map scoreValue (bosses v) = [5000]
      /\ map e_health (bosses v) = [1]
      /\ score v' = 18000
      /\ bosses v' = []
      /\ events v' = [ScoreUpdate 13000; ScoreUpdate 18000; LevelUpdate 6]).
Proof. vm_compute. repeat split. Qed.

(** ** Leaving PLAYING while a boss warning runs *)

(** C7, evaluated.  At level 5 the first tick raises the warning and
    schedules the spawn.  Pausing empties the four lists but leaves the
    warning flag up and the callback pending; when the 3000 ms are over
    the callback puts a boss into the paused world.  If the game is
    resumed first (which starts a new run at level 1), the callback puts
    the level-5 boss into the new run. *)
Theorem pending_warning_survives_pause :
  let r := run (trig := sampleTrig) in
  let paused := r [Frame (idle 1000); SetGameState PAUSED] level5World in
  let later := r [Timers 4000] paused in
  let resumed :=
    r [SetGameState PLAYING; Timers 4000; Frame (idle 4016)] paused in
  (gameState paused = PAUSED
   /\ enemies paused = [] /\ bullets paused = [] /\ powerUps paused = []
   /\ bosses paused = []
   /\ bossWarningActive paused = true
   /\ List.length (timeouts paused) = 1%nat)
  /\ (gameState later = PAUSED /\ map e_id (bosses later) = [IdBoss 0])
  /\ (gameState resumed = PLAYING /\ level resumed = 1
      /\ map e_id (bosses resumed) = [IdBoss 0]
      /\ map e_maxHealth (bosses resumed) = [100]).
Proof. vm_compute. repeat split. Qed.

(** ** The boss warning *)

Lemma bossLevels_cases (L : Z) :
  includes bossLevels L = true ->
  L = 5 \/ L = 10 \/ L = 20 \/ L = 30 \/ L = 50.
Proof.
  unfold includes, bossLevels. cbn [existsb].
  rewrite orb_false_r, !orb_true_iff, !Z.eqb_eq. tauto.
Qed.

Lemma bossLevels_config (L : Z) :
  includes bossLevels L = true -> exists c, BOSS_CONFIGS L = Some c.
Proof.
  intros H. apply bossLevels_cases in H.
  destruct H as [-> | [-> | [-> | [-> | ->]]]]; eexists; reflexivity.
Qed.

Lemma stepBosses_nil (i : Input) (lvl : Z) (p : Player) (k : nat) :
  stepBosses i lvl p k [] = ([], []).
Proof. reflexivity. Qed.

Lemma movePlayer_fields (i : Input) (w : World) :
  level (movePlayer i w) = level w /\ bosses (movePlayer i w) = bosses w
  /\ enemies (movePlayer i w) = enemies w
  /\ bossWarningActive (movePlayer i w) = bossWarningActive w
  /\ timeouts (movePlayer i w) = timeouts w.
Proof.
  unfold movePlayer. destruct (touch i) as [[tx ty]|]; cbn; repeat split.
Qed.

Lemma shoot_fields (i : Input) (w : World) :
  level (shoot i w) = level w /\ bosses (shoot i w) = bosses w
  /\ enemies (shoot i w) = enemies w
  /\ bossWarningActive (shoot i w) = bossWarningActive w
  /\ timeouts (shoot i w) = timeouts w.
Proof. unfold shoot. destruct (fires i w); cbn; repeat split. Qed.

Lemma updateBosses_none (i : Input) (w : World) :
  bosses w = [] ->
  level (updateBosses i w) = level w /\ bosses (updateBosses i w) = []
  /\ enemies (updateBosses i w) = enemies w
  /\ bossWarningActive (updateBosses i w) = bossWarningActive w
  /\ timeouts (updateBosses i w) = timeouts w.
Proof. intros H. unfold updateBosses. rewrite H. cbn. repeat split. Qed.

Lemma updatePowerUps_fields (i : Input) (w : World) :
  level (updatePowerUps i w) = level w
  /\ bosses (updatePowerUps i w) = bosses w
  /\ enemies (updatePowerUps i w) = enemies w
  /\ bossWarningActive (updatePowerUps i w) = bossWarningActive w
  /\ timeouts (updatePowerUps i w) = timeouts w.
Proof.
  unfold updatePowerUps.
  destruct (15000 <? now i - lastPowerUpSpawn w); cbn; repeat split.
Qed.

Lemma bulletLoop_quiet (bs : list Bullet) (w : World) :
  bosses w = [] -> enemies w = [] ->
  let w' := fst (bulletLoop w bs) in
  level w' = level w /\ bosses w' = [] /\ enemies w' = []
  /\ bossWarningActive w' = bossWarningActive w
  /\ timeouts w' = timeouts w.
Proof.
  revert w. induction bs as [|b rest IH]; intros w Hb He; cbn.
  - repeat split; assumption.
  - unfold bulletStep. rewrite Hb. cbn. rewrite He. cbn.
    set (w1 := set_enemies (set_bosses w []) []).
    specialize (IH w1 eq_refl eq_refl).
    destruct (bulletLoop w1 rest) as [w2 rest']. cbn in *. exact IH.
Qed.

Lemma pickUp_fields (t : Z) (us : list PowerUp) (w : World) :
  let w' := fst (pickUp t w us) in
  level w' = level w /\ bosses w' = bosses w /\ enemies w' = enemies w
  /\ bossWarningActive w' = bossWarningActive w
  /\ timeouts w' = timeouts w.
Proof.
  revert w. induction us as [|u rest IH]; intros w; cbn.
  - repeat split.
  - destruct (playerTouchesPowerUp (player w) u).
    + match goal with |- context [pickUp t ?x rest] => set (w1 := x) end.
      specialize (IH w1). destruct (pickUp t w1 rest) as [w2 r]. cbn in *.
      assert (level w1 = level w /\ bosses w1 = bosses w
              /\ enemies w1 = enemies w
              /\ bossWarningActive w1 = bossWarningActive w
              /\ timeouts w1 = timeouts w) as (A & B & C & D & E)
        by (unfold w1; destruct (u_type u); cbn; repeat split).
      destruct IH as (A' & B' & C' & D' & E').
      repeat split; congruence.
    + specialize (IH w). destruct (pickUp t w rest) as [w2 r]. exact IH.
Qed.

Lemma playerCollisions_fields (i : Input) (w : World) :
  level (playerCollisions i w) = level w
  /\ bosses (playerCollisions i w) = bosses w
  /\ (enemies w = [] -> enemies (playerCollisions i w) = [])
  /\ bossWarningActive (playerCollisions i w) = bossWarningActive w
  /\ timeouts (playerCollisions i w) = timeouts w.
Proof.
  destruct (invincible (player w)) eqn:Hinv.
  - rewrite playerCollisions_invincible by exact Hinv. repeat split. auto.
  - destruct (playerCollisions_spec i w Hinv)
      as (_ & _ & _ & He & Hb & _ & A & _ & B & C).
    repeat split; try assumption.
    intros E. rewrite He, E. reflexivity.
Qed.

(** The steps of a tick from the entrance animation on, during a warning. *)
Lemma warning_rest_of_tick (i : Input) (L : Z) (T : list Timeout) (w : World) :
  warningPhase L T w ->
  warningPhase L T
    (updateTimers i (pickUpPowerUps i (playerCollisions i (cleanupBosses
       (bulletPass (updatePowerUps i (checkEscaped (updateEnemies i
          (spawnEnemies i (isEntering i w) (bossEntrance i w))))))))))
  /\ isEntering i w = false.
Proof.
  intros (Hl & Hb & He & Hw & Ht).
  assert (En : isEntering i w = false).
  { unfold isEntering, noBoss. rewrite Hb. reflexivity. }
  split; [|exact En].
  assert (E1 : bossEntrance i w = w) by (unfold bossEntrance; now rewrite En).
  rewrite E1.
  assert (E2 : spawnEnemies i (isEntering i w) w = w).
  { unfold spawnEnemies, spawnAllowed. rewrite Hw.
    now rewrite andb_false_r. }
  rewrite E2.
  set (w1 := updateEnemies i w).
  assert (W1 : warningPhase L T w1).
  { unfold w1, updateEnemies. rewrite He. cbn. repeat split; assumption. }
  assert (E3 : checkEscaped w1 = w1).
  { unfold checkEscaped. destruct W1 as (_ & _ & -> & _). reflexivity. }
  rewrite E3.
  set (w2 := updatePowerUps i w1).
  assert (W2 : warningPhase L T w2).
  { destruct W1 as (A & B & C & D & E).
    destruct (updatePowerUps_fields i w1) as (A' & B' & C' & D' & E').
    unfold warningPhase, w2. repeat split; congruence. }
  clearbody w2. clear W1 E3. clearbody w1.
  set (w3 := bulletPass w2).
  assert (W3 : warningPhase L T w3).
  { destruct W2 as (A & B & C & D & E).
    pose proof (bulletLoop_quiet (bullets w2) w2 B C) as Q.
    unfold w3, bulletPass. destruct (bulletLoop w2 (bullets w2)) as [x bs].
    cbn in Q. destruct Q as (A' & B' & C' & D' & E').
    unfold warningPhase. cbn. rewrite C'. cbn. repeat split; congruence. }
  clearbody w3.
  assert (E4 : cleanupBosses w3 = w3).
  { unfold cleanupBosses. destruct W3 as (_ & -> & _). reflexivity. }
  rewrite E4.
  set (w4 := playerCollisions i w3).
  assert (W4 : warningPhase L T w4).
  { destruct W3 as (A & B & C & D & E).
    destruct (playerCollisions_fields i w3) as (A' & B' & C' & D' & E').
    unfold warningPhase, w4. specialize (C' C). repeat split; congruence. }
  clearbody w4.
  set (w5 := pickUpPowerUps i w4).
  assert (W5 : warningPhase L T w5).
  { destruct W4 as (A & B & C & D & E).
    pose proof (pickUp_fields (now i) (powerUps w4) w4) as Q.
    unfold w5, pickUpPowerUps. destruct (pickUp (now i) w4 (powerUps w4)) as [x us].
    cbn in Q. destruct Q as (A' & B' & C' & D' & E').
    unfold warningPhase. cbn. repeat split; congruence. }
  clearbody w5.
  destruct W5 as (A & B & C & D & E).
  unfold warningPhase, updateTimers. cbn. repeat split; assumption.
Qed.

Lemma updateBullets_fields (w : World) :
  level (updateBullets w) = level w /\ bosses (updateBullets w) = bosses w
  /\ enemies (updateBullets w) = enemies w
  /\ bossWarningActive (updateBullets w) = bossWarningActive w
  /\ timeouts (updateBullets w) = timeouts w.
Proof. unfold updateBullets. cbn. repeat split. Qed.

(** The steps of a tick before the warning check, with no boss around. *)
Lemma before_warning_check (i : Input) (w : World) :
  bosses w = [] ->
  let w' := updateBosses i (updateBullets (shoot i (movePlayer i w))) in
  level w' = level w /\ bosses w' = [] /\ enemies w' = enemies w
  /\ bossWarningActive w' = bossWarningActive w
  /\ timeouts w' = timeouts w.
Proof.
  intros Hb.
  destruct (movePlayer_fields i w) as (A1 & B1 & C1 & D1 & E1).
  destruct (shoot_fields i (movePlayer i w)) as (A2 & B2 & C2 & D2 & E2).
  destruct (updateBullets_fields (shoot i (movePlayer i w)))
    as (A3 & B3 & C3 & D3 & E3).
  assert (B : bosses (updateBullets (shoot i (movePlayer i w))) = [])
    by congruence.
  destruct (updateBosses_none i _ B) as (A4 & B4 & C4 & D4 & E4).
  cbv zeta. repeat split; congruence.
Qed.

Lemma update_warningPhase (i : Input) (L : Z) (T : list Timeout) (w : World) :
  warningPhase L T w -> warningPhase L T (update i w).
Proof.
  intros W. unfold update. destruct (gameState w); try exact W.
  destruct W as (A & B & C & D & E).
  destruct (before_warning_check i w B) as (A' & B' & C' & D' & E').
  set (w1 := updateBosses i (updateBullets (shoot i (movePlayer i w)))) in *.
  assert (W1 : warningPhase L T w1) by (repeat split; congruence).
  clearbody w1.
  assert (Q : bossWarning i w1 = w1).
  { unfold bossWarning, warningTriggers. destruct W1 as (_ & _ & _ & -> & _).
    now rewrite andb_false_r. }
  rewrite Q. apply warning_rest_of_tick. exact W1.
Qed.

Lemma frames_warningPhase (l : list Input) (L : Z) (T : list Timeout)
    (w : World) :
  warningPhase L T w -> warningPhase L T (frames l w).
Proof.
  revert w. induction l as [|i l IH]; intros w W; [exact W|].
  cbn. apply IH. apply update_warningPhase. exact W.
Qed.

(** The tick that raises the warning. *)
Lemma update_raises_warning (i : Input) (c : BossConfig) (w : World) :
  gameState w = PLAYING -> warningTriggers w = true ->
  BOSS_CONFIGS (level w) = Some c ->
  warningPhase (level w) (timeouts w ++ [mkTimeout 3000 c (now i)])
    (update i w).
Proof.
  intros Hg Ht Hc. unfold update. rewrite Hg.
  assert (Hb : bosses w = []).
  { unfold warningTriggers, noBoss in Ht.
    apply andb_true_iff in Ht. destruct Ht as [Ht _].
    apply andb_true_iff in Ht. destruct Ht as [_ Ht].
    apply Nat.eqb_eq in Ht. now apply length_zero_iff_nil. }
  destruct (before_warning_check i w Hb) as (A & B & C & D & E).
  set (w1 := updateBosses i (updateBullets (shoot i (movePlayer i w)))) in *.
  assert (T1 : warningTriggers w1 = true).
  { unfold warningTriggers, noBoss in *. now rewrite A, B, D, Hb in *. }
  assert (W1 : warningPhase (level w)
                 (timeouts w ++ [mkTimeout 3000 c (now i)])
                 (bossWarning i w1)).
  { unfold bossWarning. rewrite T1, A, Hc. unfold warningPhase. cbn.
    repeat split; congruence. }
  clearbody w1. apply warning_rest_of_tick. exact W1.
Qed.

Lemma runTimeouts_single (clock : Z) (t : Timeout) (w : World) :
  timeouts w = [t] -> t_now t + t_delay t <= clock ->
  runTimeouts clock w = bossSpawnCallback t (set_timeouts w []).
Proof.
  intros Ht Hd. unfold runTimeouts. rewrite Ht. cbn [filter].
  assert (D : due clock t = true) by (unfold due; now apply Z.leb_le).
  rewrite D. reflexivity.
Qed.

Lemma runTimeouts_early (clock : Z) (t : Timeout) (w : World) :
  timeouts w = [t] -> clock < t_now t + t_delay t ->
  bosses (runTimeouts clock w) = bosses w
  /\ enemies (runTimeouts clock w) = enemies w
  /\ bossWarningActive (runTimeouts clock w) = bossWarningActive w.
Proof.
  intros Ht Hd. unfold runTimeouts. rewrite Ht. cbn [filter].
  assert (D : due clock t = false) by (unfold due; now apply Z.leb_gt).
  rewrite D. cbn. repeat split.
Qed.

Lemma newBoss_centre (c : BossConfig) (t : Z) (n k : nat) :
  (bossCenterX (newBoss c t n k)
   == CANVAS_WIDTH / (ofNat n + 1) * (ofNat k + 1))%Q.
Proof. unfold bossCenterX, newBoss. cbn. ring. Qed.

Lemma bossCount_cases (L : Z) :
  bossCount L = if L =? 20 then 2%nat else if L =? 30 then 3%nat else 1%nat.
Proof.
  unfold bossCount.
  destruct (L =? 20) eqn:E20; destruct (L =? 30) eqn:E30;
    destruct (L =? 50) eqn:E50; try reflexivity;
    rewrite ?Z.eqb_eq in *; lia.
Qed.

Lemma escortCount_cases (L : Z) :
  escortCount L
  = if L =? 20 then 2%nat else if L =? 30 then 3%nat
    else if L =? 50 then 5%nat else 0%nat.
Proof.
  unfold escortCount.
  destruct (L =? 20) eqn:E20; destruct (L =? 30) eqn:E30;
    destruct (L =? 50) eqn:E50; try reflexivity;
    rewrite ?Z.eqb_eq in *; lia.
Qed.

(** C9.  Let the warning be raised by a tick at level L of [bossLevels]
    with configuration [c], and let any number of ticks follow.  The tick
    that raises the warning ends with no regular enemy; until the 3000 ms
    are over no boss appears; when the callback runs, the world holds
    exactly n bosses (n = 2 at level 20, 3 at level 30, 1 otherwise), boss
    k centred at (k+1)/(n+1) of the field width and moving right for even
    k, left for odd k, and exactly m escorts (m = 2 at level 20, 3 at
    level 30, 5 at level 50, 0 otherwise), all of type HEAVY with twice
    the configured health. *)
Theorem boss_warning_completes (i0 : Input) (ticks : list Input) (clock : Z)
    (c : BossConfig) (w : World) :
  gameState w = PLAYING ->
  warningTriggers w = true ->
  BOSS_CONFIGS (level w) = Some c ->
  timeouts w = [] ->
  now i0 + 3000 <= clock ->
  let L := level w in
  let n := if L =? 20 then 2%nat else if L =? 30 then 3%nat else 1%nat in
  let m := if L =? 20 then 2%nat else if L =? 30 then 3%nat
           else if L =? 50 then 5%nat else 0%nat in
  let w1 := update i0 w in
  let w2 := frames ticks w1 in
  let w3 := runTimeouts clock w2 in
  (enemies w1 = [] /\ bossWarningActive w1 = true)
  /\ (bosses w2 = [] /\ enemies w2 = []
      /\ forall early, early < now i0 + 3000 ->
           bosses (runTimeouts early w2) = [])
  /\ (bosses w3 = map (newBoss c (now i0) n) (upto n)
      /\ List.length (bosses w3) = n
      /\ forall k, (k < n)%nat ->
           (bossCenterX (newBoss c (now i0) n k)
            == CANVAS_WIDTH / (ofNat n + 1) * (ofNat k + 1))%Q
           /\ e_speed (newBoss c (now i0) n k)
              = (bc_speed c * (if Nat.even k then 1 else -1))%Q)
  /\ (enemies w3 = map (newEscort (now i0) m) (upto m)
      /\ List.length (enemies w3) = m
      /\ Forall (fun e => e_type e = HEAVY
                          /\ e_health e = 2 * ec_health (ENEMY_CONFIGS HEAVY)
                          /\ isBoss e = false)
                (enemies w3))
  /\ bossWarningActive w3 = false.
Proof.
  intros Hg Ht Hc Hq Hclock L n m w1 w2 w3.
  set (t := mkTimeout 3000 c (now i0)).
  assert (W1 : warningPhase L [t] w1).
  { pose proof (update_raises_warning i0 c w Hg Ht Hc) as W.
    rewrite Hq in W. exact W. }
  assert (W2 : warningPhase L [t] w2)
    by (apply frames_warningPhase; exact W1).
  destruct W1 as (_ & _ & E1 & A1 & _).
  destruct W2 as (L2 & B2 & E2 & A2 & T2).
  assert (R : w3 = bossSpawnCallback t (set_timeouts w2 [])).
  { unfold w3. apply runTimeouts_single; [exact T2|exact Hclock]. }
  assert (Hn : bossCount L = n) by apply bossCount_cases.
  assert (Hm : escortCount L = m) by apply escortCount_cases.
  assert (Bs : bosses w3 = map (newBoss c (now i0) n) (upto n)).
  { rewrite R. unfold bossSpawnCallback. cbn. rewrite L2, B2, Hn. reflexivity. }
  assert (Es : enemies w3 = map (newEscort (now i0) m) (upto m)).
  { rewrite R. unfold bossSpawnCallback. cbn. rewrite L2, E2, Hm. reflexivity. }
  clearbody w1 w2 w3 n m.
  split; [split; assumption|]. split; [|split; [|split]].
  - split; [exact B2|]. split; [exact E2|]. intros early He.
    destruct (runTimeouts_early early t w2 T2 He) as (-> & _). exact B2.
  - split; [exact Bs|]. split.
    + rewrite Bs, length_map. unfold upto. apply length_seq.
    + intros k Hk. split; [apply newBoss_centre|].
      unfold newBoss. cbn [e_speed].
      destruct (Nat.even k) eqn:Ev.
      * apply Nat.even_spec in Ev. destruct Ev as [j ->].
        replace (2 * j mod 2 =? 0)%nat with true; [reflexivity|].
        symmetry. apply Nat.eqb_eq. rewrite Nat.mul_comm.
        apply Nat.Div0.mod_mul.
      * replace (k mod 2 =? 0)%nat with false; [reflexivity|].
        symmetry. apply Nat.eqb_neq. intros Hmod.
        apply Nat.Div0.mod_divides in Hmod. destruct Hmod as [j ->].
        rewrite Nat.even_mul in Ev. discriminate.
  - split; [exact Es|]. split.
    + rewrite Es, length_map. unfold upto. apply length_seq.
    + rewrite Es. apply Forall_forall. intros e He.
      apply in_map_iff in He. destruct He as (k & <- & _).
      repeat split.
  - rewrite R. reflexivity.
Qed.

(** ** Bullets against bosses and enemies *)

Lemma hitBoss_hit (w : World) (b : Bullet) (e : Enemy) :
  bulletHits b e = true ->
  e_health (snd (hitBoss w b e)) = e_health e - damage b
  /\ b_y (snd (fst (hitBoss w b e))) = (-100)%Q.
Proof.
  intros H. unfold hitBoss. rewrite H. cbn [e_health set_e_health].
  destruct (e_health e - damage b <=? 0); cbn; split; reflexivity.
Qed.

Lemma hitEnemy_hit (w : World) (b : Bullet) (e : Enemy) :
  bulletHits b e = true ->
  e_health (snd (hitEnemy w b e)) = e_health e - damage b
  /\ b_y (snd (fst (hitEnemy w b e))) = (-100)%Q.
Proof.
  intros H. unfold hitEnemy. rewrite H. cbn [e_health set_e_health].
  destruct (e_health e - damage b <=? 0); cbn; split; reflexivity.
Qed.

Lemma hitBoss_miss (w : World) (b : Bullet) (e : Enemy) :
  bulletHits b e = false -> hitBoss w b e = (w, b, e).
Proof. intros H. unfold hitBoss. now rewrite H. Qed.

Lemma hitBoss_marked (w : World) (b : Bullet) (e : Enemy) :
  b_y b = (-100)%Q -> b_y (snd (fst (hitBoss w b e))) = (-100)%Q.
Proof.
  intros H. unfold hitBoss. destruct (bulletHits b e); [|exact H].
  destruct (e_health (set_e_health e (e_health e - damage b)) <=? 0);
    reflexivity.
Qed.

Lemma bulletVsBosses_marked (es : list Enemy) (w : World) (b : Bullet) :
  b_y b = (-100)%Q -> b_y (snd (fst (bulletVsBosses w b es))) = (-100)%Q.
Proof.
  revert w b. induction es as [|e rest IH]; intros w b H; [exact H|].
  cbn [bulletVsBosses].
  pose proof (hitBoss_marked w b e H) as H1.
  destruct (hitBoss w b e) as [[w1 b1] e1]. cbn in H1.
  specialize (IH w1 b1 H1).
  destruct (bulletVsBosses w1 b1 rest) as [[w2 b2] rest']. exact IH.
Qed.

Lemma bulletVsBosses_skip (pre l : list Enemy) (w : World) (b : Bullet) :
  Forall (fun x => bulletHits b x = false) pre ->
  bulletVsBosses w b (pre ++ l)
  = (fst (fst (bulletVsBosses w b l)), snd (fst (bulletVsBosses w b l)),
     pre ++ snd (bulletVsBosses w b l)).
Proof.
  induction 1 as [|x pre Hx _ IH]; cbn [app bulletVsBosses].
  - now destruct (bulletVsBosses w b l) as [[? ?] ?].
  - rewrite (hitBoss_miss w b x Hx), IH. reflexivity.
Qed.

(** The first boss of the list that a bullet overlaps takes its damage,
    and the bullet ends the loop at [y = -100]. *)
Lemma bulletVsBosses_first (pre post : list Enemy) (e : Enemy) (w : World)
    (b : Bullet) :
  Forall (fun x => bulletHits b x = false) pre ->
  bulletHits b e = true ->
  exists w' b' e' post',
    bulletVsBosses w b (pre ++ e :: post) = (w', b', pre ++ e' :: post')
    /\ e_health e' = e_health e - damage b
    /\ b_y b' = (-100)%Q.
Proof.
  intros Hpre He. rewrite (bulletVsBosses_skip pre (e :: post) w b Hpre).
  cbn [bulletVsBosses].
  destruct (hitBoss_hit w b e He) as [Hh Hy].
  destruct (hitBoss w b e) as [[w1 b1] e1]. cbn in Hh, Hy.
  pose proof (bulletVsBosses_marked post w1 b1 Hy) as Hm.
  destruct (bulletVsBosses w1 b1 post) as [[w2 b2] post']. cbn in Hm.
  exists w2, b2, e1, post'. cbn. auto.
Qed.

Lemma centredShots_shape {t : Trig} (i : Input) (lvl : Z) (p : Player)
    (e : Enemy) (b : Bullet) :
  In b (centredShots i lvl p e) ->
  b_x b = bossCenterX e /\ b_y b = bossCenterY e
  /\ (8 <= b_width b)%Q /\ (8 <= b_height b)%Q
  /\ damage b = 1 /\ isEnemy b = true.
Proof.
  unfold centredShots, circularBurst, targetedBurst, spiral. intros H.
  repeat (apply in_app_or in H; destruct H as [H|H]);
    apply in_map_iff in H; destruct H as (k & <- & _); cbn;
    repeat split; discriminate.
Qed.

Lemma centre_overlaps (b : Bullet) (e e' : Enemy) :
  bossInField e ->
  b_x b = bossCenterX e -> b_y b = bossCenterY e ->
  (8 <= b_width b)%Q -> (8 <= b_height b)%Q ->
  e_x e' = e_x e -> e_width e' = e_width e -> e_height e' = e_height e ->
  (e_y e' = e_y e \/ e_y e' = (e_y e + (50 - e_y e) * 0.05)%Q) ->
  bulletHits b e' = true.
Proof.
  intros (Hw & Hh & Hlo & Hhi) Hx Hy Hbw Hbh Ex Ew Eh Ey.
  unfold bulletHits. apply overlap_spec.
  rewrite Hx, Hy, Ex, Ew, Eh. unfold bossCenterX, bossCenterY, Qdiv.
  change (/ 2)%Q with (1 # 2)%Q.
  destruct Ey as [-> | ->]; repeat split; lra.
Qed.

(** Where bosses are: the callback spawns them in [bossInField], and the
    two moves of a boss keep them there. *)
Lemma newBoss_inField (c : BossConfig) (t : Z) (n k : nat) :
  (0 < bc_width c)%Q -> (1 <= bc_height c)%Q ->
  bossInField (newBoss c t n k).
Proof. intros Hw Hh. unfold bossInField, newBoss. cbn. repeat split; lra. Qed.



Lemma bossAttack_centred (i : Input) (lvl : Z) (p : Player) (k : nat)
    (e : Enemy) :
  0 <= Qfloor (randPattern i k * 4) <= 2 -> lvl < 50 ->
  incl (bossAttack i lvl p k e) (centredShots i lvl p e).
Proof.
  intros Hp Hl. unfold bossAttack, centredShots.
  replace (50 <=? lvl) with false by (symmetry; apply Z.leb_gt; lia).
  cbn [andb]. rewrite app_nil_r.
  destruct (Qfloor (randPattern i k * 4) =? 0) eqn:E0.
  { intros b Hb. apply in_or_app. now left. }
  destruct (Qfloor (randPattern i k * 4) =? 1) eqn:E1.
  { intros b Hb. apply in_or_app. right. apply in_or_app. now left. }
  destruct (Qfloor (randPattern i k * 4) =? 2) eqn:E2.
  { intros b Hb. apply in_or_app. right. apply in_or_app. now right. }
  apply Z.eqb_neq in E0, E1, E2. lia.
Qed.

(** C2, as the code has it.  Neither bullet loop looks at [isEnemy]: a
    bullet that overlaps a boss or a regular enemy takes its damage off
    that health and goes to [y = -100].  A bullet of a centred pattern
    (circular burst, targeted burst, spiral) is an enemy bullet and
    overlaps the boss that emitted it when the collision pass of the same
    tick begins; the boss loses the bullet's damage, and the bullet ends
    the loop at [y = -100], whenever no boss earlier in the list overlaps
    the bullet, in particular when the boss is alone. *)
Theorem boss_hit_by_own_bullets (i : Input) (lvl : Z) (p : Player) (e : Enemy)
    (entering : bool) (b : Bullet) :
  bossInField e ->
  In b (centredShots i lvl p e) ->
  let e' := afterEmission i entering e in
  isEnemy b = true
  /\ bulletHits b e' = true
  /\ (forall w pre post,
        Forall (fun x => bulletHits b x = false) pre ->
        exists w' b' e'' post',
          bulletVsBosses w b (pre ++ e' :: post)
          = (w', b', pre ++ e'' :: post')
          /\ e_health e'' = e_health e - damage b
          /\ b_y b' = (-100)%Q)
  /\ (forall w b0 x, bulletHits b0 x = true ->
        (e_health (snd (hitBoss w b0 x)) = e_health x - damage b0
         /\ b_y (snd (fst (hitBoss w b0 x))) = (-100)%Q)
        /\ (e_health (snd (hitEnemy w b0 x)) = e_health x - damage b0
            /\ b_y (snd (fst (hitEnemy w b0 x))) = (-100)%Q)).
Proof.
  intros Hf Hb e'.
  destruct (centredShots_shape i lvl p e b Hb) as (Hx & Hy & Hw & Hh & _ & He).
  assert (Hit : bulletHits b e' = true).
  { apply (centre_overlaps b e e' Hf Hx Hy Hw Hh);
      unfold e', afterEmission; destruct entering; cbn; auto. }
  split; [exact He|]. split; [exact Hit|]. split.
  - intros w pre post Hpre.
    destruct (bulletVsBosses_first pre post e' w b Hpre Hit)
      as (w' & b' & e'' & post' & E & Hh' & Hy').
    exists w', b', e'', post'. split; [exact E|]. split; [|exact Hy'].
    rewrite Hh'. unfold e', afterEmission. destruct entering; reflexivity.
  - intros w b0 x Hx0. split; [apply hitBoss_hit|apply hitEnemy_hit]; exact Hx0.
Qed.

End Properties.

(** ** The statements at sample worlds *)

Lemma escape_penalty_witness :
  (1 <= 1)%nat
  /\ score (checkEscaped escapeWorld) = 30 - Z.min 30 (50 * 1)
  /\ List.length (enemies (checkEscaped escapeWorld)) = 1%nat.
Proof.
  destruct (escape_penalty escapeWorld 1 eq_refl (le_n 1))
    as (Hs & _ & He & _).
  split; [apply le_n|]. split; [exact Hs|]. rewrite He. reflexivity.
Defined.

Lemma weapon_tiers_and_fire_gate_witness :
  (isTriple (activePowerUp (player level24World)) = false
   /\ fires (firing 1000) level24World = true
   /\ map angle (shotPattern level24World) = [0; -0.2; 0.2]%Q
   /\ lastShot (shoot (firing 1000) level24World) = 1000)
  /\ (25 <= level level30World
      /\ List.length (shotPattern level30World) = 5%nat
      /\ shotInterval (level level30World) = 120
      /\ shoot (firing 120) level30World = level30World).
Proof.
  pose proof (weapon_tiers_and_fire_gate (firing 1000) level24World eq_refl)
    as (F & L24 & _).
  pose proof (weapon_tiers_and_fire_gate (firing 120) level30World eq_refl)
    as (_ & _ & L25 & _ & I30 & G).
  split.
  - split; [reflexivity|]. split; [reflexivity|].
    split; [exact (proj2 (L24 eq_refl))|].
    exact (proj1 (proj2 (F eq_refl))).
  - assert (H25 : 25 <= level level30World) by (cbn; lia).
    assert (H30 : 30 <= level level30World) by (cbn; lia).
    split; [exact H25|]. split; [exact (proj1 (L25 H25))|].
    split; [exact (I30 H30)|]. apply G. cbn. lia.
Defined.

Lemma boss_warning_completes_witness :
  let w3 := runTimeouts 4000
              (frames (trig := sampleTrig) [idle 1016; idle 1032]
                 (update (trig := sampleTrig) (idle 1000) level5World)) in
  gameState level5World = PLAYING
  /\ warningTriggers level5World = true
  /\ List.length (bosses w3) = 1%nat
  /\ List.length (enemies w3) = 0%nat.
Proof.
  pose proof (boss_warning_completes (trig := sampleTrig) (idle 1000)
                [idle 1016; idle 1032] 4000
                (mkBossConfig "初级守卫" 150 100 100 5000 1.2) level5World
                eq_refl eq_refl eq_refl eq_refl
                (proj1 (Z.leb_le (now (idle 1000) + 3000) 4000) eq_refl))
    as (_ & _ & (_ & Hb & _) & (_ & He & _) & _).
  cbv zeta in *. split; [reflexivity|]. split; [reflexivity|].
  split; [exact Hb|exact He].
Defined.

Lemma guard_inField : bossInField guard.
Proof. unfold bossInField. cbn. repeat split; lra. Defined.

Lemma boss_hit_by_own_bullets_witness :
  let b := hd (enemyShot 0 0)
              (centredShots (trig := sampleTrig) (idle 4016) 5 player0 guard) in
  bossInField guard
  /\ In b (centredShots (trig := sampleTrig) (idle 4016) 5 player0 guard)
  /\ isEnemy b = true
  /\ bulletHits b (afterEmission (idle 4016) false guard) = true.
Proof.
  intros b.
  assert (Hin : In b (centredShots (trig := sampleTrig) (idle 4016) 5
                        player0 guard)) by (left; reflexivity).
  pose proof (boss_hit_by_own_bullets (trig := sampleTrig) (idle 4016) 5
                player0 guard false b guard_inField Hin) as (A & B & _).
  split; [exact guard_inField|]. split; [exact Hin|].
  split; [exact A|exact B].
Defined.

(** The bosses of [crossingWorld]: position, size, speed, health and
    timer. *)
Lemma crossingWorld_bosses :
  map (fun e => (e_id e, (Qred (e_x e), Qred (e_y e)),
                 (Qred (e_width e), Qred (e_height e), Qred (e_speed e)),
                 (e_health e, option_map Qred (attackTimer e))))
      (bosses crossingWorld)
  = [ (IdBoss 0, (965 # 3, 50), (250, 200, -5 # 2), (680%Z, Some 7600));
      (IdBoss 1, (685 # 3, 50), (250, 200, 5 # 2), (680%Z, Some 7600)) ]%Q
  /\ gameState crossingWorld = PLAYING /\ level crossingWorld = 20
  /\ bullets crossingWorld = [] /\ enemies crossingWorld = []
  /\ bossEntranceTimer crossingWorld = 1000.
Proof. vm_compute. repeat split. Qed.

(** C2 as stated fails with two bosses.  At the tick of 8112 ms both bosses
    of [crossingWorld] attack with a circular burst: each emits 12 bullets
    at its centre, and each overlaps its own 12 bullets.  The first boss of
    the list overlaps the bullets of the second too and is tested first:
    it takes all 24, the bullets go to [y = -100], where they no longer
    overlap the second boss, and the second boss ends the tick with the
    680 health it had. *)
Lemma own_bullets_taken_by_another_boss :
  let i := idle 8112 in
  let w := crossingWorld in
  let stepped := stepBosses (trig := sampleTrig) i (level w) (player w) 0
                   (bosses w) in
  let w' := update (trig := sampleTrig) i w in
  map e_health (bosses w) = [680; 680]
  /\ List.length (snd stepped) = 24%nat
  /\ map (fun e => List.length (shotsFrom e (snd stepped))) (fst stepped)
     = [12; 12]%nat
  /\ forallb (fun e => forallb (fun b => bulletHits b e)
                         (shotsFrom e (snd stepped))) (fst stepped) = true
  /\ map e_health (bosses w') = [656; 680]
  /\ map b_y (bullets w') = repeat (-100)%Q 24.
Proof. vm_compute. repeat split. Qed.

(** ** Health over a whole tick *)

Section Ticks.

Context {trig : Trig}.

Lemma vitals_movePlayer (i : Input) (w : World) :
  vitals (movePlayer i w) = vitals w.
Proof. unfold movePlayer. destruct (touch i) as [[tx ty]|]; reflexivity. Qed.

Lemma vitals_shoot (i : Input) (w : World) : vitals (shoot i w) = vitals w.
Proof. unfold shoot. destruct (fires i w); reflexivity. Qed.

Lemma vitals_updateBullets (w : World) : vitals (updateBullets w) = vitals w.
Proof. reflexivity. Qed.

Lemma vitals_updateBosses (i : Input) (w : World) :
  vitals (updateBosses i w) = vitals w.
Proof.
  unfold updateBosses.
  destruct (stepBosses i (level w) (player w) 0 (bosses w)); reflexivity.
Qed.

Lemma vitals_bossWarning (i : Input) (w : World) :
  vitals (bossWarning i w) = vitals w.
Proof.
  unfold bossWarning. destruct (warningTriggers w); [|reflexivity].
  destruct (BOSS_CONFIGS (level w)); reflexivity.
Qed.

Lemma vitals_bossEntrance (i : Input) (w : World) :
  vitals (bossEntrance i w) = vitals w.
Proof. unfold bossEntrance. destruct (isEntering i w); reflexivity. Qed.

Lemma vitals_spawnEnemies (i : Input) (en : bool) (w : World) :
  vitals (spawnEnemies i en w) = vitals w.
Proof.
  unfold spawnEnemies. destruct (spawnAllowed en w); [|reflexivity].
  destruct (spawnInterval (level w) <? now i - lastEnemySpawn w)%Z;
    reflexivity.
Qed.

Lemma vitals_updateEnemies (i : Input) (w : World) :
  vitals (updateEnemies i w) = vitals w.
Proof.
  unfold updateEnemies.
  destruct (stepEnemies i (player w) (enemies w)); reflexivity.
Qed.

Lemma vitals_checkEscaped (w : World) : vitals (checkEscaped w) = vitals w.
Proof.
  unfold checkEscaped.
  destruct (0 <? List.length (filter hasEscaped (enemies w)))%nat; reflexivity.
Qed.

Lemma vitals_updatePowerUps (i : Input) (w : World) :
  vitals (updatePowerUps i w) = vitals w.
Proof.
  unfold updatePowerUps.
  destruct (15000 <? now i - lastPowerUpSpawn w)%Z; reflexivity.
Qed.

Lemma vitals_cleanupBosses (w : World) : vitals (cleanupBosses w) = vitals w.
Proof.
  unfold cleanupBosses.
  destruct (0 <? List.length (filter deadBoss (bosses w)))%nat; [|reflexivity].
  match goal with |- context [noBoss ?x] => destruct (noBoss x) end;
    reflexivity.
Qed.

Lemma mended_refl (w : World) : mended w w.
Proof. unfold mended. split; [reflexivity|lia]. Qed.

Lemma mended_trans (a b c : World) : mended a b -> mended b c -> mended a c.
Proof.
  unfold mended. intros [P1 H1] [P2 H2]. split; [congruence|lia].
Qed.

Lemma mended_award (w : World) (e : Enemy) : mended w (award w e).
Proof. unfold mended, award. cbn. split; [reflexivity|lia]. Qed.

Lemma mended_levelUpCheck (w : World) : mended w (levelUpCheck w).
Proof.
  unfold levelUpCheck. destruct (noBoss w); [|apply mended_refl].
  destruct (level w * 2000 <=? score w)%Z; [|apply mended_refl].
  destruct ((Z.rem (level w + 1) 2 =? 0)%Z && (lastLevelHealed w <? level w + 1)%Z).
  - destruct (health w <? PLAYER_MAX_HEALTH)%Z eqn:E.
    + apply Z.ltb_lt in E.
      match goal with |- context [(level ?x =? 5)%Z] =>
        destruct (level x =? 5)%Z end;
        unfold mended; cbn; (split; [reflexivity|lia]).
    + match goal with |- context [(level ?x =? 5)%Z] =>
        destruct (level x =? 5)%Z end;
        unfold mended; cbn; (split; [reflexivity|lia]).
  - match goal with |- context [(level ?x =? 5)%Z] =>
      destruct (level x =? 5)%Z end;
      unfold mended; cbn; (split; [reflexivity|lia]).
Qed.

Lemma mended_killEnemy (w : World) (e : Enemy) : mended w (killEnemy w e).
Proof.
  unfold killEnemy.
  eapply mended_trans; [|apply mended_levelUpCheck].
  match goal with |- context [(10000 <=? ?s)%Z] => destruct (10000 <=? s)%Z end;
    unfold mended, award; cbn; (split; [reflexivity|lia]).
Qed.

Lemma mended_hitBoss (w : World) (b : Bullet) (e : Enemy) :
  mended w (fst (fst (hitBoss w b e))).
Proof.
  unfold hitBoss. destruct (bulletHits b e); [|apply mended_refl].
  match goal with |- context [(?h <=? 0)%Z] => destruct (h <=? 0)%Z end;
    [apply mended_award|apply mended_refl].
Qed.

Lemma mended_hitEnemy (w : World) (b : Bullet) (e : Enemy) :
  mended w (fst (fst (hitEnemy w b e))).
Proof.
  unfold hitEnemy. destruct (bulletHits b e); [|apply mended_refl].
  match goal with |- context [(?h <=? 0)%Z] => destruct (h <=? 0)%Z end;
    [apply mended_killEnemy|apply mended_refl].
Qed.

Lemma mended_bulletVsBosses (es : list Enemy) (w : World) (b : Bullet) :
  mended w (fst (fst (bulletVsBosses w b es))).
Proof.
  revert w b. induction es as [|e rest IH]; intros w b; [apply mended_refl|].
  cbn [bulletVsBosses]. pose proof (mended_hitBoss w b e) as H.
  destruct (hitBoss w b e) as [[w1 b1] e1]. cbn in H.
  specialize (IH w1 b1).
  destruct (bulletVsBosses w1 b1 rest) as [[w2 b2] r]. cbn in *.
  eapply mended_trans; eassumption.
Qed.

Lemma mended_bulletVsEnemies (es : list Enemy) (w : World) (b : Bullet) :
  mended w (fst (fst (bulletVsEnemies w b es))).
Proof.
  revert w b. induction es as [|e rest IH]; intros w b; [apply mended_refl|].
  cbn [bulletVsEnemies]. pose proof (mended_hitEnemy w b e) as H.
  destruct (hitEnemy w b e) as [[w1 b1] e1]. cbn in H.
  specialize (IH w1 b1).
  destruct (bulletVsEnemies w1 b1 rest) as [[w2 b2] r]. cbn in *.
  eapply mended_trans; eassumption.
Qed.

Lemma mended_bulletStep (w : World) (b : Bullet) :
  mended w (fst (bulletStep w b)).
Proof.
  unfold bulletStep.
  pose proof (mended_bulletVsBosses (bosses w) w b) as H1.
  destruct (bulletVsBosses w b (bosses w)) as [[w1 b1] bs]. cbn in H1.
  pose proof (mended_bulletVsEnemies (enemies (set_bosses w1 bs))
                (set_bosses w1 bs) b1) as H2.
  destruct (bulletVsEnemies (set_bosses w1 bs) b1 (enemies (set_bosses w1 bs)))
    as [[w3 b2] es]. cbn in H2.
  cbn [fst]. unfold mended in *. cbn in *. destruct H1, H2.
  split; [congruence|lia].
Qed.

Lemma mended_bulletLoop (bs : list Bullet) (w : World) :
  mended w (fst (bulletLoop w bs)).
Proof.
  revert w. induction bs as [|b rest IH]; intros w; [apply mended_refl|].
  cbn [bulletLoop]. pose proof (mended_bulletStep w b) as H.
  destruct (bulletStep w b) as [w1 b1]. cbn in H. specialize (IH w1).
  destruct (bulletLoop w1 rest) as [w2 r]. cbn in *.
  eapply mended_trans; eassumption.
Qed.

Lemma mended_bulletPass (w : World) : mended w (bulletPass w).
Proof.
  unfold bulletPass. pose proof (mended_bulletLoop (bullets w) w) as H.
  destruct (bulletLoop w (bullets w)) as [w1 bs]. exact H.
Qed.

Lemma pickUp_vitals (t : Z) (us : list PowerUp) (w : World) :
  let w' := fst (pickUp t w us) in
  health w' = health w
  /\ invincible (player w') = invincible (player w)
  /\ invincibleTimer (player w') = invincibleTimer (player w).
Proof.
  revert w. induction us as [|u rest IH]; intros w; cbn; [repeat split|].
  destruct (playerTouchesPowerUp (player w) u).
  - match goal with |- context [pickUp t ?x rest] => set (w1 := x) end.
    assert (health w1 = health w
            /\ invincible (player w1) = invincible (player w)
            /\ invincibleTimer (player w1) = invincibleTimer (player w))
      as (A & B & C) by (unfold w1; destruct (u_type u); repeat split).
    specialize (IH w1). destruct (pickUp t w1 rest) as [w2 r]. cbn in *.
    destruct IH as (A' & B' & C'). repeat split; congruence.
  - specialize (IH w). destruct (pickUp t w rest) as [w2 r]. exact IH.
Qed.

(** The world a tick hands to its collision passes. *)
Lemma vitals_before_collisions (i : Input) (w : World) :
  let w1 := bossWarning i
              (updateBosses i (updateBullets (shoot i (movePlayer i w)))) in
  vitals (updatePowerUps i (checkEscaped (updateEnemies i
            (spawnEnemies i (isEntering i w1) (bossEntrance i w1)))))
  = vitals w.
Proof.
  cbv zeta.
  rewrite vitals_updatePowerUps, vitals_checkEscaped, vitals_updateEnemies,
    vitals_spawnEnemies, vitals_bossEntrance, vitals_bossWarning,
    vitals_updateBosses, vitals_updateBullets, vitals_shoot.
  apply vitals_movePlayer.
Qed.

(** Healing never takes the health above the maximum: a tick that starts
    with at most [PLAYER_MAX_HEALTH] ends with at most [PLAYER_MAX_HEALTH]. *)
Lemma health_never_above_max (i : Input) (w : World) :
  health w <= PLAYER_MAX_HEALTH -> health (update i w) <= PLAYER_MAX_HEALTH.
Proof.
  intros H. unfold update. destruct (gameState w); try exact H.
  pose proof (vitals_before_collisions i w) as V. cbv zeta in V.
  match type of V with vitals ?x = _ => set (w1 := x) in * end.
  assert (H1 : health w1 = health w) by (unfold vitals in V; congruence).
  clearbody w1.
  destruct (mended_bulletPass w1) as [_ H2].
  pose proof (vitals_cleanupBosses (bulletPass w1)) as V3.
  assert (H3 : health (cleanupBosses (bulletPass w1)) = health (bulletPass w1))
    by (unfold vitals in V3; congruence).
  set (w3 := cleanupBosses (bulletPass w1)) in *. clearbody w3.
  assert (H4 : health (playerCollisions i w3) <= health w3).
  { destruct (invincible (player w3)) eqn:Hinv.
    - rewrite playerCollisions_invincible by exact Hinv. lia.
    - destruct (playerCollisions_spec i w3 Hinv) as (-> & _). lia. }
  set (w4 := playerCollisions i w3) in *. clearbody w4.
  unfold pickUpPowerUps, updateTimers.
  pose proof (pickUp_vitals (now i) (powerUps w4) w4) as (H5 & _).
  destruct (pickUp (now i) w4 (powerUps w4)) as [w5 us]. cbn in *. lia.
Qed.

(** The invincibility window across ticks: a player who starts a tick
    invincible loses no health in it, and is still invincible after it
    when no more than 2000 ms have passed since the hit. *)
Lemma invincible_tick (i : Input) (w : World) :
  invincible (player w) = true ->
  health w <= health (update i w)
  /\ (now i - invincibleTimer (player w) <= 2000 ->
      invincible (player (update i w)) = true).
Proof.
  intros Hinv. unfold update. destruct (gameState w);
    try (split; [lia|intros _; exact Hinv]).
  pose proof (vitals_before_collisions i w) as V. cbv zeta in V.
  match type of V with vitals ?x = _ => set (w1 := x) in * end.
  clearbody w1. unfold vitals in V. injection V as V1 _ V2 V3.
  destruct (mended_bulletPass w1) as [P2 H2].
  pose proof (vitals_cleanupBosses (bulletPass w1)) as V'.
  set (w3 := cleanupBosses (bulletPass w1)) in *. clearbody w3.
  set (w2 := bulletPass w1) in *. clearbody w2.
  unfold vitals in V'. injection V' as V1' _ V2' V3'.
  assert (I3 : invincible (player w3) = true) by congruence.
  rewrite (playerCollisions_invincible i w3 I3).
  unfold pickUpPowerUps, updateTimers.
  pose proof (pickUp_vitals (now i) (powerUps w3) w3) as (H5 & I5 & T5).
  destruct (pickUp (now i) w3 (powerUps w3)) as [w5 us]. cbn in *.
  split; [lia|]. intros Hwin.
  assert (T : invincibleTimer (player w5) = invincibleTimer (player w))
    by congruence.
  rewrite I5, I3, T. cbn [andb].
  replace (2000 <? now i - invincibleTimer (player w))%Z with false
    by (symmetry; apply Z.ltb_ge; exact Hwin).
  destruct (isSome (activePowerUp (player w5))
            && (POWERUP_DURATION <? now i - powerUpTimer (player w5))%Z);
    cbn; congruence.
Qed.

End Ticks.

(** * Further properties of the tick *)

Section Further.

Context {trig : Trig}.

Local Open Scope Z_scope.

(** ** Boss attacks *)

Lemma Qfloor_range (x : Q) (n : Z) :
  (0 <= x)%Q -> (x < inject_Z n)%Q -> 0 <= Qfloor x < n.
Proof.
  intros H0 Hn. split.
  - change 0 with (Qfloor 0). apply Qfloor_resp_le. exact H0.
  - pose proof (Qfloor_le x) as Hf.
    assert (H : (inject_Z (Qfloor x) < inject_Z n)%Q)
      by (eapply Qle_lt_trans; eassumption).
    rewrite <- Zlt_Qlt in H. exact H.
Qed.

Lemma rain_gap_range (r : Q) :
  (0 <= r)%Q -> (r < 1)%Q -> 0 <= Qfloor (r * (ofNat 10 - 2)) <= 7.
Proof.
  intros H0 H1.
  assert (H : 0 <= Qfloor (r * (ofNat 10 - 2)) < 8).
  { apply Qfloor_range; change (ofNat 10) with 10%Q;
      change (inject_Z 8) with 8%Q; lra. }
  lia.
Qed.

Lemma verticalRain_shape (r : Q) (boss : Enemy) :
  (0 <= r)%Q -> (r < 1)%Q ->
  List.length (verticalRain r boss) = 8%nat
  /\ Forall (fun b => isEnemy b = true /\ damage b = 1 /\ angle b = 0%Q
                      /\ b_y b = (e_y boss + e_height boss)%Q
                      /\ (0 < b_x b)%Q /\ (b_x b + b_width b < CANVAS_WIDTH)%Q)
            (verticalRain r boss)
  /\ exists gap, 0 <= gap <= 7
       /\ Forall (fun b =>
                    ~ (b_x b == 80 * inject_Z gap + 40)%Q
                    /\ ~ (b_x b == 80 * inject_Z (gap + 1) + 40)%Q)
                 (verticalRain r boss).
Proof.
  intros H0 H1. pose proof (rain_gap_range r H0 H1) as Hg.
  unfold verticalRain.
  set (gap := Qfloor (r * (ofNat 10 - 2))) in *. clearbody gap.
  assert (Hc : gap = 0 \/ gap = 1 \/ gap = 2 \/ gap = 3 \/ gap = 4
               \/ gap = 5 \/ gap = 6 \/ gap = 7) by lia.
  split; [|split].
  - destruct Hc as [-> | [-> | [-> | [-> | [-> | [-> | [-> | ->]]]]]]];
      reflexivity.
  - destruct Hc as [-> | [-> | [-> | [-> | [-> | [-> | [-> | ->]]]]]]];
      cbn; repeat constructor.
  - exists gap. split; [exact Hg|].
    destruct Hc as [-> | [-> | [-> | [-> | [-> | [-> | [-> | ->]]]]]]];
      cbn; repeat constructor; intros E; vm_compute in E; discriminate.
Qed.

(** The rain of a boss: whatever the draw, the gap lies inside the ten
    columns, so exactly eight bullets fall, all straight down from the
    boss's lower edge, all inside the field and none in the two columns
    of the gap. *)
Theorem rain_has_eight_columns (r : Q) (boss : Enemy) :
  (0 <= r)%Q -> (r < 1)%Q ->
  List.length (verticalRain r boss) = 8%nat
  /\ Forall (fun b => isEnemy b = true /\ damage b = 1 /\ angle b = 0%Q
                      /\ b_y b = (e_y boss + e_height boss)%Q
                      /\ (0 < b_x b)%Q /\ (b_x b + b_width b < CANVAS_WIDTH)%Q)
            (verticalRain r boss)
  /\ exists gap, 0 <= gap <= 7
       /\ Forall (fun b =>
                    ~ (b_x b == 80 * inject_Z gap + 40)%Q
                    /\ ~ (b_x b == 80 * inject_Z (gap + 1) + 40)%Q)
                 (verticalRain r boss).
Proof. apply verticalRain_shape. Qed.

(** The pattern index [Math.floor(Math.random() * 4)] is one of 0..3, and
    below level 50 an attack is one of the four patterns: 12 or 20 bullets
    of a circular burst, 3 or 5 of a targeted burst, 4 of a spiral, 8 of
    the rain; all of them enemy bullets of damage 1. *)
Theorem boss_attack_patterns (i : Input) (lvl : Z) (p : Player) (k : nat)
    (boss : Enemy) :
  (0 <= randPattern i k)%Q -> (randPattern i k < 1)%Q ->
  (0 <= randGap i k)%Q -> (randGap i k < 1)%Q ->
  lvl < 50 ->
  let shots := bossAttack i lvl p k boss in
  let n := List.length shots in
  0 <= Qfloor (randPattern i k * 4) <= 3
  /\ (lvl < 30 -> n = 12%nat \/ n = 3%nat \/ n = 4%nat \/ n = 8%nat)
  /\ (30 <= lvl -> n = 20%nat \/ n = 5%nat \/ n = 4%nat \/ n = 8%nat)
  /\ Forall (fun b => isEnemy b = true /\ damage b = 1) shots.
Proof.
  intros Hp0 Hp1 Hg0 Hg1 Hl shots n.
  assert (Hr : 0 <= Qfloor (randPattern i k * 4) < 4)
    by (apply Qfloor_range; change (inject_Z 4) with 4%Q; lra).
  destruct (verticalRain_shape (randGap i k) boss Hg0 Hg1)
    as (R8 & RF & _).
  split; [lia|].
  unfold n, shots, bossAttack.
  replace (50 <=? lvl) with false by (symmetry; apply Z.leb_gt; lia).
  cbn [andb]. rewrite app_nil_r.
  destruct (Qfloor (randPattern i k * 4) =? 0);
    [|destruct (Qfloor (randPattern i k * 4) =? 1);
      [|destruct (Qfloor (randPattern i k * 4) =? 2)]].
  - unfold circularBurst. split; [|split].
    + intros H. replace (30 <=? lvl) with false
        by (symmetry; apply Z.leb_gt; lia). left. reflexivity.
    + intros H. replace (30 <=? lvl) with true
        by (symmetry; apply Z.leb_le; lia). left. reflexivity.
    + apply Forall_forall. intros b Hb. apply in_map_iff in Hb.
      destruct Hb as (j & <- & _). split; reflexivity.
  - unfold targetedBurst. split; [|split].
    + intros H. replace (30 <=? lvl) with false
        by (symmetry; apply Z.leb_gt; lia). right. left. reflexivity.
    + intros H. replace (30 <=? lvl) with true
        by (symmetry; apply Z.leb_le; lia). right. left. reflexivity.
    + apply Forall_forall. intros b Hb. apply in_map_iff in Hb.
      destruct Hb as (j & <- & _). split; reflexivity.
  - unfold spiral. split; [|split].
    + intros _. right. right. left. reflexivity.
    + intros _. right. right. left. reflexivity.
    + apply Forall_forall. intros b Hb. apply in_map_iff in Hb.
      destruct Hb as (j & <- & _). split; reflexivity.
  - split; [|split].
    + intros _. right. right. right. exact R8.
    + intros _. right. right. right. exact R8.
    + eapply Forall_impl; [|exact RF]. cbn. intros b H. tauto.
Qed.

(** ** The player's weapon below level 24 *)

(** The tiers of the weapon that depend on the level alone: one centred
    bullet below level 5, two bullets at the ship's edges from level 5 to
    14, three from level 15 to 24; with TRIPLE_SHOT the shot has three
    bullets at every level, also from level 25 on, where the shot without
    the power-up has five.  Every bullet of a shot has damage 1, is no
    enemy bullet and starts at the ship's upper edge. *)
Theorem shot_tiers (w : World) :
  let p := player w in
  let shots := shotPattern w in
  (isTriple (activePowerUp p) = true ->
     map angle shots = [0; -0.2; 0.2]%Q)
  /\ (isTriple (activePowerUp p) = false -> level w < 5 ->
        map angle shots = [0%Q]
        /\ map b_x shots = [(p_x p + p_width p / 2 - BULLET_WIDTH / 2)%Q])
  /\ (isTriple (activePowerUp p) = false -> 5 <= level w < 15 ->
        map angle shots = [0; 0]%Q
        /\ map b_x shots
           = [(p_x p + 10)%Q; (p_x p + p_width p - 10 - BULLET_WIDTH)%Q])
  /\ (isTriple (activePowerUp p) = false -> 15 <= level w < 25 ->
        map angle shots = [0; -0.2; 0.2]%Q)
  /\ Forall (fun b => damage b = 1 /\ isEnemy b = false
                      /\ b_y b = p_y p /\ b_speed b = BULLET_SPEED)
            shots.
Proof.
  cbv zeta. unfold shotPattern.
  destruct (isTriple (activePowerUp (player w))) eqn:Ht; cbn [orb].
  - repeat split; try discriminate; repeat constructor.
  - destruct (15 <=? level w) eqn:E15; destruct (level w <? 25) eqn:E25;
      destruct (25 <=? level w) eqn:E25'; destruct (5 <=? level w) eqn:E5;
      cbn [andb];
      rewrite ?Z.leb_le, ?Z.ltb_lt, ?Z.leb_gt, ?Z.ltb_ge in *;
      repeat split; intros; try lia; try discriminate;
      repeat constructor.
Qed.

Lemma shot_tiers_witness :
  5 <= level level5World < 15
  /\ map angle (shotPattern level5World) = [0; 0]%Q
  /\ map angle (shotPattern world0) = [0%Q].
Proof.
  pose proof (shot_tiers level5World) as (_ & _ & H5 & _).
  pose proof (shot_tiers world0) as (_ & H1 & _).
  assert (R : 5 <= level level5World < 15) by (cbn; lia).
  split; [exact R|]. split.
  - exact (proj1 (H5 eq_refl R)).
  - exact (proj1 (H1 eq_refl ltac:(cbn; lia))).
Defined.

(** ** Regular enemies *)

(** A RANGED enemy that has reached y >= 200 never moves again, and one
    that is inside the field never leaves it through the bottom, so it is
    never counted as escaped; it fires at most one bullet per tick, an
    enemy bullet of damage 1 from the middle of its lower edge, and only
    once it holds its position. *)
Theorem ranged_enemy_holds (i : Input) (p : Player) (e : Enemy) :
  e_type e = RANGED ->
  let e' := fst (stepEnemy i p e) in
  let shots := snd (stepEnemy i p e) in
  ((200 <= e_y e)%Q -> e_y e' = e_y e /\ e_x e' = e_x e)
  /\ ((e_y e <= CANVAS_HEIGHT)%Q -> (e_speed e <= 700)%Q ->
      hasEscaped e' = false)
  /\ (List.length shots <= 1)%nat
  /\ ((e_y e < 200)%Q -> shots = [])
  /\ Forall (fun b => isEnemy b = true /\ damage b = 1
                      /\ b_x b = (e_x e + e_width e / 2)%Q
                      /\ b_y b = (e_y e + e_height e)%Q) shots
  /\ e_type e' = RANGED /\ e_health e' = e_health e.
Proof.
  intros Ht. cbv zeta. unfold stepEnemy. rewrite Ht.
  destruct (Qltb (e_y e) 200) eqn:E.
  - apply Qltb_lt in E. cbn. repeat split; try (intros; lra); auto.
    intros Hy Hs. unfold hasEscaped. cbn.
    destruct (Qgtb (e_y e + e_speed e) CANVAS_HEIGHT) eqn:G; [|reflexivity].
    apply Qgtb_lt in G. unfold CANVAS_HEIGHT in *. lra.
  - assert (Hge : (200 <= e_y e)%Q).
    { destruct (Qlt_le_dec (e_y e) 200) as [H|H]; [|exact H].
      apply Qltb_lt in H. congruence. }
    destruct (Qgtb (inject_Z (now i) - timerOf (initTimer e)) 2000); cbn;
      repeat split; auto; try (intros; lra);
      try (intros Hy Hs; unfold hasEscaped; cbn;
           destruct (Qgtb (e_y e) CANVAS_HEIGHT) eqn:G; [|reflexivity];
           apply Qgtb_lt in G; lra);
      repeat constructor.
Qed.

(** The other enemies fall by their speed each tick and never fire. *)
Lemma falling_enemy_step (i : Input) (p : Player) (e : Enemy) :
  e_type e <> RANGED ->
  stepEnemy i p e = (set_e_y e (e_y e + e_speed e), []).
Proof. intros H. unfold stepEnemy. destruct (e_type e); congruence. Qed.

Lemma filter_none {A} (f g : A -> bool) (l : list A) :
  (forall x, g x = true -> f x = false) -> filter f (filter g l) = [].
Proof.
  intros H. induction l as [|x l IH]; [reflexivity|]. cbn.
  destruct (g x) eqn:E; [|exact IH]. cbn. rewrite (H x E). exact IH.
Qed.

(** The escape penalty is charged once: after the check no enemy is below
    the field, and checking again changes nothing. *)
Theorem escape_check_once (w : World) :
  filter hasEscaped (enemies (checkEscaped w)) = []
  /\ checkEscaped (checkEscaped w) = checkEscaped w.
Proof.
  assert (H : filter hasEscaped (enemies (checkEscaped w)) = []).
  { unfold checkEscaped.
    destruct (0 <? List.length (filter hasEscaped (enemies w)))%nat eqn:E.
    - cbn. apply filter_none. intros e He. unfold stillInside in He.
      unfold hasEscaped. rewrite Qgtb_negb_Qleb, He. reflexivity.
    - apply Nat.ltb_ge in E.
      destruct (filter hasEscaped (enemies w)); [reflexivity|cbn in E; lia]. }
  split; [exact H|].
  unfold checkEscaped at 1. rewrite H. reflexivity.
Qed.

(** A spawned enemy: FAST needs level 3, RANGED level 5, HEAVY level 7,
    and below level 3 every enemy is BASIC; from level 7 on the draw
    selects HEAVY above 0.9, RANGED above 0.75, FAST above 0.6 and BASIC
    otherwise.  Its health is the configured health plus half the level,
    so it is alive; it starts just above the field and, for a draw in
    [0, 1), between the left and the right edge. *)
Theorem spawned_enemy (i : Input) (lvl : Z) :
  0 <= lvl ->
  (0 <= randSpawnX i)%Q -> (randSpawnX i < 1)%Q ->
  let e := newEnemy i lvl in
  let r := randSpawnType i in
  (lvl < 3 -> e_type e = BASIC)
  /\ (e_type e = FAST -> 3 <= lvl)
  /\ (e_type e = RANGED -> 5 <= lvl)
  /\ (e_type e = HEAVY -> 7 <= lvl)
  /\ (7 <= lvl ->
        e_type e = (if Qgtb r 0.9 then HEAVY
                    else if Qgtb r 0.75 then RANGED
                    else if Qgtb r 0.6 then FAST else BASIC))
  /\ e_health e = ec_health (ENEMY_CONFIGS (e_type e)) + lvl / 2
  /\ 0 < e_health e /\ e_maxHealth e = e_health e
  /\ e_y e = (- e_height e)%Q
  /\ (0 <= e_x e)%Q /\ (e_x e + e_width e <= CANVAS_WIDTH)%Q
  /\ isBoss e = false.
Proof.
  intros Hl Hx0 Hx1. cbv zeta.
  assert (Hd : 0 <= lvl / 2) by (apply Z.div_pos; lia).
  unfold newEnemy, spawnType.
  destruct (3 <=? lvl) eqn:E3; destruct (5 <=? lvl) eqn:E5;
    destruct (7 <=? lvl) eqn:E7;
    rewrite ?Z.leb_le, ?Z.leb_gt in *; try lia;
    destruct (Qgtb (randSpawnType i) 0.9);
    destruct (Qgtb (randSpawnType i) 0.75);
    destruct (Qgtb (randSpawnType i) 0.6);
    cbn -[Z.add Z.div Qplus Qmult Qminus Qopp Qle]; unfold CANVAS_WIDTH;
    repeat split; intros; try lia; try discriminate; try reflexivity;
    try lra.
Qed.

Lemma spawned_enemy_witness :
  0 <= 7 /\ e_type (newEnemy (idle 1000) 7) = BASIC
  /\ e_health (newEnemy (idle 1000) 7) = 4.
Proof.
  pose proof (spawned_enemy (idle 1000) 7 ltac:(lia)
                ltac:(cbn; lra) ltac:(cbn; lra))
    as (_ & _ & _ & _ & T & H & _).
  split; [lia|]. split.
  - rewrite (T ltac:(lia)). reflexivity.
  - rewrite H. rewrite (T ltac:(lia)). reflexivity.
Defined.

(** ** Bullets that have hit *)

Lemma cos_speed_bound (c s : Q) :
  (-1 <= c)%Q -> (c <= 1)%Q -> (0 <= s)%Q -> (s <= 50)%Q ->
  (-50 <= c * s)%Q /\ (c * s <= 50)%Q.
Proof.
  intros H1 H2 H3 H4.
  assert (A : (c * s <= 1 * s)%Q) by (apply Qmult_le_compat_r; assumption).
  assert (B : (-1 * s <= c * s)%Q) by (apply Qmult_le_compat_r; assumption).
  split; lra.
Qed.

(** The marks of the collision code work: with a cosine within [-1, 1] and
    a speed of at most 50, a bullet that a hit has put at y = -100 (on an
    enemy or a boss) or at y = CANVAS_HEIGHT + 100 (on the player) is gone
    after the next [updateBullets], that is, at the start of the next
    tick. *)
Theorem marked_bullets_are_culled (w : World) :
  (forall a, (-1 <= cos a)%Q /\ (cos a <= 1)%Q) ->
  Forall (fun b => (0 <= b_speed b)%Q /\ (b_speed b <= 50)%Q
                   /\ (b_y b = (-100)%Q \/ b_y b = (CANVAS_HEIGHT + 100)%Q))
         (bullets w) ->
  bullets (updateBullets w) = [].
Proof.
  intros Hc Hall. unfold updateBullets. cbn [bullets set_bullets].
  induction Hall as [|b l (Hs0 & Hs1 & Hy) _ IH]; [reflexivity|].
  cbn [map filter]. rewrite IH.
  replace (bulletOnScreen (advanceBullet b)) with false; [reflexivity|].
  symmetry. unfold bulletOnScreen, advanceBullet.
  cbn [b_x b_y set_b_pos].
  destruct (Hc (angle b)) as [C1 C2].
  destruct (cos_speed_bound (cos (angle b)) (b_speed b) C1 C2 Hs0 Hs1)
    as [B1 B2].
  destruct Hy as [-> | ->].
  - replace (Qgtb (-100 - cos (angle b) * b_speed b
                   * (if isEnemy b then -1 else 1)) (-50)) with false;
      [reflexivity|].
    symmetry. apply not_true_is_false. intros G. apply Qgtb_lt in G.
    destruct (isEnemy b); lra.
  - replace (Qltb (CANVAS_HEIGHT + 100 - cos (angle b) * b_speed b
                   * (if isEnemy b then -1 else 1)) (CANVAS_HEIGHT + 50))
      with false; [now rewrite andb_false_r|].
    symmetry. apply not_true_is_false. intros G. apply Qltb_lt in G.
    unfold CANVAS_HEIGHT in G. destruct (isEnemy b); lra.
Qed.

(** ** The player's own bullets *)

(** The player block leaves the player's own bullets alone: with no enemy
    bullet around the bullet list is unchanged, and if no boss and no
    enemy touches the ship either, neither health nor shield changes. *)
Theorem own_bullets_are_harmless (i : Input) (w : World) :
  Forall (fun b => isEnemy b = false) (bullets w) ->
  bullets (playerCollisions i w) = bullets w
  /\ (countIf (playerTouchesEnemy (player w)) (bosses w) = 0%nat ->
      countIf (playerTouchesEnemy (player w)) (enemies w) = 0%nat ->
      health (playerCollisions i w) = health w
      /\ shieldActive (player (playerCollisions i w)) = shieldActive (player w)
      /\ invincible (player (playerCollisions i w)) = invincible (player w)).
Proof.
  intros Hown.
  assert (N : countIf (bulletTouch (player w)) (bullets w) = 0%nat).
  { unfold countIf. induction Hown as [|b l Hb _ IH]; [reflexivity|].
    cbn. unfold bulletTouch at 1. rewrite Hb. exact IH. }
  assert (M : map (markBullet (player w)) (bullets w) = bullets w).
  { induction Hown as [|b l Hb _ IH]; [reflexivity|].
    cbn [map]. unfold markBullet at 1, bulletTouch. rewrite Hb. cbn [andb].
    f_equal. apply IH. unfold countIf in *. cbn in N.
    unfold bulletTouch in N at 1. rewrite Hb in N. exact N. }
  destruct (invincible (player w)) eqn:Hinv.
  - rewrite playerCollisions_invincible by exact Hinv. auto.
  - destruct (playerCollisions_spec i w Hinv)
      as (Hh & Hs & Hi & _ & _ & Hb & _).
    split; [now rewrite Hb|]. intros B E.
    unfold qualifyingHits in *. rewrite N, B, E in *. cbn in *.
    rewrite Hh, Hs, Hi.
    destruct (shieldActive (player w)); cbn; repeat split; lia.
Qed.

(** ** Pausing *)

(** Pausing and resuming does not continue the run.  The resume resets
    score, level and health, empties the four lists and drops shield,
    invincibility and power-up; the host is told so; pending boss
    callbacks are kept. *)
Theorem pause_then_resume_restarts (w : World) :
  gameState w = PLAYING -> prevGameState w = PLAYING ->
  let w' := changeGameState (togglePause (togglePause (gameState w)))
              (changeGameState (togglePause (gameState w)) w) in
  gameState w' = PLAYING
  /\ score w' = 0 /\ level w' = 1 /\ health w' = PLAYER_MAX_HEALTH
  /\ lastLevelHealed w' = 1
  /\ enemies w' = [] /\ bullets w' = [] /\ powerUps w' = [] /\ bosses w' = []
  /\ bossWarningActive w' = false
  /\ shieldActive (player w') = false /\ invincible (player w') = false
  /\ activePowerUp (player w') = None
  /\ p_x (player w') = (CANVAS_WIDTH / 2 - PLAYER_SIZE / 2)%Q
  /\ p_y (player w') = (CANVAS_HEIGHT - 100)%Q
  /\ events w' = events w ++ [ScoreUpdate 0; LevelUpdate 1;
                              HealthUpdate PLAYER_MAX_HEALTH]
  /\ timeouts w' = timeouts w.
Proof.
  intros Hg Hp. cbv zeta. rewrite Hg. cbn [togglePause].
  assert (E1 : changeGameState PAUSED w
               = clearEntities (set_gameState w PAUSED PAUSED)).
  { unfold changeGameState. rewrite Hg. reflexivity. }
  rewrite E1. unfold changeGameState. cbn.
  repeat split. rewrite <- !app_assoc. reflexivity.
Qed.

Lemma pause_then_resume_restarts_witness :
  gameState level5World = PLAYING
  /\ level (changeGameState PLAYING (changeGameState PAUSED level5World)) = 1
  /\ score (changeGameState PLAYING (changeGameState PAUSED level5World)) = 0.
Proof.
  pose proof (pause_then_resume_restarts level5World eq_refl eq_refl)
    as (_ & S & L & _).
  split; [reflexivity|]. split; [exact L|exact S].
Defined.

Lemma own_bullets_are_harmless_witness :
  let w := set_bullets world0 [playerShot 390 810] in
  Forall (fun b => isEnemy b = false) (bullets w)
  /\ bullets (playerCollisions (idle 1000) w) = bullets w
  /\ health (playerCollisions (idle 1000) w) = health w.
Proof.
  intros w.
  assert (H : Forall (fun b => isEnemy b = false) (bullets w))
    by (repeat constructor).
  pose proof (own_bullets_are_harmless (idle 1000) w H) as (A & B).
  split; [exact H|]. split; [exact A|].
  exact (proj1 (B eq_refl eq_refl)).
Defined.

(** ** Achievements *)

Lemma findIndex_none (id : string) (l : list Achievement) :
  Forall (fun a => a_id a <> id) l -> findIndex id l = None.
Proof.
  induction 1 as [|a l Ha _ IH]; [reflexivity|]. cbn.
  destruct (String.eqb (a_id a) id) eqn:E.
  - apply String.eqb_eq in E. contradiction.
  - now rewrite IH.
Qed.

Lemma findIndex_some (id : string) (l : list Achievement) (n : nat) :
  findIndex id l = Some n ->
  exists a, nth_error l n = Some a /\ a_id a = id.
Proof.
  revert n. induction l as [|a l IH]; intros n H; [discriminate|].
  cbn in H. destruct (String.eqb (a_id a) id) eqn:E.
  - injection H as <-. exists a. split; [reflexivity|].
    now apply String.eqb_eq.
  - destruct (findIndex id l) as [k|]; [|discriminate].
    injection H as <-. exact (IH k eq_refl).
Qed.

Lemma findIndex_ids (id : string) (l l' : list Achievement) :
  map a_id l = map a_id l' -> findIndex id l = findIndex id l'.
Proof.
  revert l'. induction l as [|a l IH]; intros [|a' l'] H;
    try discriminate; [reflexivity|].
  cbn in H. injection H as Ha Hl. cbn. rewrite Ha, (IH l' Hl). reflexivity.
Qed.

Lemma setAt_spec (n : nat) (v a : Achievement) (l : list Achievement) :
  nth_error l n = Some a ->
  nth_error (setAt n v l) n = Some v
  /\ List.length (setAt n v l) = List.length l
  /\ (a_id v = a_id a -> map a_id (setAt n v l) = map a_id l)
  /\ (a_title v = a_title a -> map a_title (setAt n v l) = map a_title l)
  /\ (a_description v = a_description a ->
      map a_description (setAt n v l) = map a_description l)
  /\ (a_unlocked v = true ->
      Forall2 (fun x y => a_unlocked x = true -> a_unlocked y = true)
              l (setAt n v l)).
Proof.
  revert n. induction l as [|x l IH]; intros [|n] H; try discriminate.
  - cbn in H. injection H as ->. cbn. repeat split; try congruence.
    intros Hv. constructor; [auto|].
    clear. induction l; constructor; auto.
  - cbn in H. destruct (IH n H) as (A & B & C & D & E & F).
    cbn. repeat split; try congruence; intros Hv.
    + now rewrite (C Hv). + now rewrite (D Hv). + now rewrite (E Hv).
    + constructor; [auto|exact (F Hv)].
Qed.

(** What one call of the handler does: nothing, or it unlocks the first
    entry with this id, which was locked. *)
Lemma handleAchievementUnlock_cases (id : string) (s : Trophies) :
  handleAchievementUnlock id s = s
  \/ exists n a,
       findIndex id (achievements s) = Some n
       /\ nth_error (achievements s) n = Some a
       /\ a_id a = id /\ a_unlocked a = false
       /\ handleAchievementUnlock id s
          = mkTrophies (setAt n (set_unlocked a true) (achievements s))
              (Some (set_unlocked a true))
              (Some (unlockedIds
                       (setAt n (set_unlocked a true) (achievements s)))).
Proof.
  unfold handleAchievementUnlock.
  destruct (findIndex id (achievements s)) as [n|] eqn:F; [|now left].
  destruct (findIndex_some id _ n F) as (a & Hn & Hid). rewrite Hn.
  destruct (a_unlocked a) eqn:U; [now left|]. right.
  exists n, a. cbn. auto.
Qed.

(** Unlocking an achievement.  An id that is not in the list changes
    nothing; unlocking twice is unlocking once; ids, titles, descriptions
    and the order of the list are kept and no entry is ever locked again;
    and when the list changes, the new entry is the toast and the saved
    ids are those of the unlocked entries. *)
Theorem unlock_achievement (id : string) (s : Trophies) :
  let s' := handleAchievementUnlock id s in
  (Forall (fun a => a_id a <> id) (achievements s) -> s' = s)
  /\ handleAchievementUnlock id s' = s'
  /\ map a_id (achievements s') = map a_id (achievements s)
  /\ map a_title (achievements s') = map a_title (achievements s)
  /\ map a_description (achievements s') = map a_description (achievements s)
  /\ Forall2 (fun x y => a_unlocked x = true -> a_unlocked y = true)
             (achievements s) (achievements s')
  /\ (s' <> s ->
      savedAchievements s' = Some (unlockedIds (achievements s'))
      /\ exists a, lastAchievement s' = Some a /\ a_id a = id
                   /\ a_unlocked a = true /\ In a (achievements s')).
Proof.
  cbv zeta.
  assert (R : forall l : list Achievement,
             Forall2 (fun x y => a_unlocked x = true -> a_unlocked y = true)
                     l l)
    by (induction l; constructor; auto).
  split.
  { intros H. unfold handleAchievementUnlock.
    now rewrite (findIndex_none id _ H). }
  destruct (handleAchievementUnlock_cases id s)
    as [E | (n & a & F & Hn & Hid & U & E)].
  - rewrite E. split; [exact E|]. do 3 (split; [reflexivity|]).
    split; [apply R|]. intros C. exfalso. apply C. reflexivity.
  - rewrite E. cbn [achievements lastAchievement savedAchievements].
    destruct (setAt_spec n (set_unlocked a true) a (achievements s) Hn)
      as (N & _ & I & T & D & M).
    specialize (I eq_refl). specialize (T eq_refl). specialize (D eq_refl).
    specialize (M eq_refl).
    repeat split; auto.
    + unfold handleAchievementUnlock.
      cbn [achievements]. rewrite (findIndex_ids id _ _ I), F, N.
      reflexivity.
    + exists (set_unlocked a true). repeat split; auto.
      eapply nth_error_In. exact N.
Qed.

Lemma ids_injective (l : list Achievement) (a b : Achievement) :
  NoDup (map a_id l) -> In a l -> In b l -> a_id a = a_id b -> a = b.
Proof.
  induction l as [|x l IH]; intros Hn Ha Hb E; [contradiction|].
  cbn in Hn. inversion Hn as [|? ? Hx Hl]; subst.
  destruct Ha as [<- | Ha]; destruct Hb as [<- | Hb]; auto.
  - exfalso. apply Hx. rewrite E. now apply in_map.
  - exfalso. apply Hx. rewrite <- E. now apply in_map.
Qed.

Lemma set_unlocked_same (a : Achievement) : set_unlocked a (a_unlocked a) = a.
Proof. now destruct a. Qed.

Lemma reload_flags (l : list Achievement) :
  NoDup (map a_id l) ->
  map (fun a => set_unlocked a
                  (existsb (String.eqb (a_id a)) (unlockedIds l))) l = l.
Proof.
  intros Hn. transitivity (map (fun a : Achievement => a) l); [|apply map_id].
  apply map_ext_in. intros a Ha.
  transitivity (set_unlocked a (a_unlocked a)); [|apply set_unlocked_same].
  f_equal.
  destruct (a_unlocked a) eqn:U.
  - apply existsb_exists. exists (a_id a). split; [|apply String.eqb_refl].
    unfold unlockedIds. apply in_map. apply filter_In. auto.
  - apply not_true_is_false. intros H. apply existsb_exists in H.
    destruct H as (x & Hx & Ex). apply String.eqb_eq in Ex. subst x.
    unfold unlockedIds in Hx. apply in_map_iff in Hx.
    destruct Hx as (b & Eb & Hb). apply filter_In in Hb.
    destruct Hb as [Hb Ub].
    assert (b = a) by (apply (ids_injective l); auto). subst b. congruence.
Qed.

(** Saving and loading the achievements.  When the ids of the list are
    distinct, reading the flags back from the saved ids of the unlocked
    entries gives the list that was saved; in particular loading after an
    unlock that changed the list changes nothing. *)
Theorem achievements_round_trip (s : Trophies) :
  NoDup (map a_id (achievements s)) ->
  (savedAchievements s = Some (unlockedIds (achievements s)) ->
   loadAchievements s = s)
  /\ (forall id, handleAchievementUnlock id s <> s ->
        loadAchievements (handleAchievementUnlock id s)
        = handleAchievementUnlock id s).
Proof.
  intros Hn.
  assert (G : forall t, NoDup (map a_id (achievements t)) ->
                savedAchievements t = Some (unlockedIds (achievements t)) ->
                loadAchievements t = t).
  { intros t Ht Hs. unfold loadAchievements. rewrite Hs.
    rewrite (reload_flags _ Ht). rewrite <- Hs. now destruct t. }
  split; [apply G; exact Hn|].
  intros id Hc.
  destruct (handleAchievementUnlock_cases id s)
    as [E | (n & a & _ & Hnth & _ & _ & E)]; [contradiction|].
  rewrite E. apply G; cbn [achievements savedAchievements]; [|reflexivity].
  destruct (setAt_spec n (set_unlocked a true) a (achievements s) Hnth)
    as (_ & _ & I & _).
  rewrite (I eq_refl). exact Hn.
Qed.

(** ** Induction over the bullet pass *)

(** A relation [R] on worlds, with a property [PB] of bosses and [PE] of
    regular enemies, is carried through the bullet loops as soon as the
    single hits and the write-backs of the lists respect it. *)
Section PassInduction.

Variable R : World -> World -> Prop.
Variables PB PE : Enemy -> Prop.

Hypothesis R_refl : forall w, R w w.
Hypothesis R_trans : forall a b c, R a b -> R b c -> R a c.
Hypothesis R_hitBoss :
  forall w b e, PB e ->
    R w (fst (fst (hitBoss w b e))) /\ PB (snd (hitBoss w b e)).
Hypothesis R_hitEnemy :
  forall w b e, PE e ->
    R w (fst (fst (hitEnemy w b e))) /\ PE (snd (hitEnemy w b e)).
Hypothesis R_bosses :
  forall w l, Forall PB l -> List.length l = List.length (bosses w) ->
    R w (set_bosses w l).
Hypothesis R_enemies :
  forall w l, Forall PE l -> List.length l = List.length (enemies w) ->
    R w (set_enemies w l).

Lemma bulletVsBosses_rel (es : list Enemy) (w : World) (b : Bullet) :
  Forall PB es ->
  R w (fst (fst (bulletVsBosses w b es)))
  /\ Forall PB (snd (bulletVsBosses w b es))
  /\ List.length (snd (bulletVsBosses w b es)) = List.length es.
Proof.
  revert w b. induction es as [|e rest IH]; intros w b H.
  - cbn. auto.
  - inversion H as [|? ? He Hrest]; subst. cbn [bulletVsBosses].
    destruct (R_hitBoss w b e He) as [H1 H2].
    destruct (hitBoss w b e) as [[w1 b1] e1]. cbn in H1, H2.
    destruct (IH w1 b1 Hrest) as (A & B & C).
    destruct (bulletVsBosses w1 b1 rest) as [[w2 b2] r]. cbn in *.
    split; [eapply R_trans; eassumption|]. split; [constructor; auto|].
    now rewrite C.
Qed.

Lemma bulletVsEnemies_rel (es : list Enemy) (w : World) (b : Bullet) :
  Forall PE es ->
  R w (fst (fst (bulletVsEnemies w b es)))
  /\ Forall PE (snd (bulletVsEnemies w b es))
  /\ List.length (snd (bulletVsEnemies w b es)) = List.length es.
Proof.
  revert w b. induction es as [|e rest IH]; intros w b H.
  - cbn. auto.
  - inversion H as [|? ? He Hrest]; subst. cbn [bulletVsEnemies].
    destruct (R_hitEnemy w b e He) as [H1 H2].
    destruct (hitEnemy w b e) as [[w1 b1] e1]. cbn in H1, H2.
    destruct (IH w1 b1 Hrest) as (A & B & C).
    destruct (bulletVsEnemies w1 b1 rest) as [[w2 b2] r]. cbn in *.
    split; [eapply R_trans; eassumption|]. split; [constructor; auto|].
    now rewrite C.
Qed.

(** The hits leave the lists of the world they thread alone. *)
Lemma hitBoss_lists (w : World) (b : Bullet) (e : Enemy) :
  bosses (fst (fst (hitBoss w b e))) = bosses w
  /\ enemies (fst (fst (hitBoss w b e))) = enemies w.
Proof.
  unfold hitBoss. destruct (bulletHits b e); [|auto].
  destruct (e_health (set_e_health e (e_health e - damage b)) <=? 0); auto.
Qed.

Lemma levelUpCheck_lists (w : World) :
  bosses (levelUpCheck w) = bosses w /\ enemies (levelUpCheck w) = enemies w.
Proof.
  unfold levelUpCheck. destruct (noBoss w); [|auto].
  destruct (level w * 2000 <=? score w); [|auto].
  destruct ((Z.rem (level w + 1) 2 =? 0) && (lastLevelHealed w <? level w + 1));
    [destruct (health w <? PLAYER_MAX_HEALTH)|];
    match goal with |- context [(level ?x =? 5)] => destruct (level x =? 5) end;
    auto.
Qed.

Lemma hitEnemy_lists (w : World) (b : Bullet) (e : Enemy) :
  bosses (fst (fst (hitEnemy w b e))) = bosses w
  /\ enemies (fst (fst (hitEnemy w b e))) = enemies w.
Proof.
  unfold hitEnemy. destruct (bulletHits b e); [|auto].
  destruct (e_health (set_e_health e (e_health e - damage b)) <=? 0); [|auto].
  cbn [fst]. unfold killEnemy.
  match goal with |- context [levelUpCheck ?x] =>
    destruct (levelUpCheck_lists x) as [A B]; rewrite A, B end.
  match goal with |- context [(10000 <=? ?s)] => destruct (10000 <=? s) end;
    auto.
Qed.

Lemma bulletVsBosses_lists (es : list Enemy) (w : World) (b : Bullet) :
  bosses (fst (fst (bulletVsBosses w b es))) = bosses w
  /\ enemies (fst (fst (bulletVsBosses w b es))) = enemies w.
Proof.
  revert w b. induction es as [|e rest IH]; intros w b; [cbn; auto|].
  cbn [bulletVsBosses]. pose proof (hitBoss_lists w b e) as H.
  destruct (hitBoss w b e) as [[w1 b1] e1]. cbn in H.
  specialize (IH w1 b1).
  destruct (bulletVsBosses w1 b1 rest) as [[w2 b2] r]. cbn in *.
  destruct H, IH. split; congruence.
Qed.

Lemma bulletVsEnemies_lists (es : list Enemy) (w : World) (b : Bullet) :
  bosses (fst (fst (bulletVsEnemies w b es))) = bosses w
  /\ enemies (fst (fst (bulletVsEnemies w b es))) = enemies w.
Proof.
  revert w b. induction es as [|e rest IH]; intros w b; [cbn; auto|].
  cbn [bulletVsEnemies]. pose proof (hitEnemy_lists w b e) as H.
  destruct (hitEnemy w b e) as [[w1 b1] e1]. cbn in H.
  specialize (IH w1 b1).
  destruct (bulletVsEnemies w1 b1 rest) as [[w2 b2] r]. cbn in *.
  destruct H, IH. split; congruence.
Qed.

Lemma bulletStep_rel (w : World) (b : Bullet) :
  Forall PB (bosses w) -> Forall PE (enemies w) ->
  let w' := fst (bulletStep w b) in
  R w w' /\ Forall PB (bosses w') /\ Forall PE (enemies w')
  /\ List.length (bosses w') = List.length (bosses w)
  /\ List.length (enemies w') = List.length (enemies w).
Proof.
  intros HB HE. unfold bulletStep.
  destruct (bulletVsBosses_rel (bosses w) w b HB) as (A1 & B1 & C1).
  destruct (bulletVsBosses_lists (bosses w) w b) as (L1 & L2).
  destruct (bulletVsBosses w b (bosses w)) as [[w1 b1] bs].
  cbn [fst snd] in A1, B1, C1, L1, L2.
  assert (S1 : R w1 (set_bosses w1 bs))
    by (apply R_bosses; [exact B1|congruence]).
  set (w2 := set_bosses w1 bs) in *.
  assert (Hb2 : bosses w2 = bs) by reflexivity.
  assert (He2 : enemies w2 = enemies w1) by reflexivity.
  clearbody w2.
  assert (HE2 : Forall PE (enemies w2)) by (rewrite He2, L2; exact HE).
  destruct (bulletVsEnemies_rel (enemies w2) w2 b1 HE2) as (A2 & B2 & C2).
  destruct (bulletVsEnemies_lists (enemies w2) w2 b1) as (M1 & M2).
  destruct (bulletVsEnemies w2 b1 (enemies w2)) as [[w3 b2] es].
  cbn [fst snd] in A2, B2, C2, M1, M2.
  assert (S2 : R w3 (set_enemies w3 es)).
  { apply R_enemies; [exact B2|]. rewrite C2, M2. reflexivity. }
  cbv zeta. cbn [fst bosses enemies set_enemies].
  split.
  { eapply R_trans; [exact A1|]. eapply R_trans; [exact S1|].
    eapply R_trans; [exact A2|exact S2]. }
  rewrite M1, Hb2. repeat split; auto. rewrite C2, He2, L2. reflexivity.
Qed.

Lemma bulletLoop_rel (bs : list Bullet) (w : World) :
  Forall PB (bosses w) -> Forall PE (enemies w) ->
  let w' := fst (bulletLoop w bs) in
  R w w' /\ Forall PB (bosses w') /\ Forall PE (enemies w')
  /\ List.length (bosses w') = List.length (bosses w)
  /\ List.length (enemies w') = List.length (enemies w).
Proof.
  revert w. induction bs as [|b rest IH]; intros w HB HE.
  - cbn. auto.
  - cbn [bulletLoop].
    destruct (bulletStep_rel w b HB HE) as (A & B & C & D & E).
    destruct (bulletStep w b) as [w1 b1]. cbn in A, B, C, D, E.
    destruct (IH w1 B C) as (A' & B' & C' & D' & E').
    destruct (bulletLoop w1 rest) as [w2 r]. cbn in *.
    split; [eapply R_trans; eassumption|]. repeat split; auto; congruence.
Qed.

End PassInduction.

(** ** Steps that leave the ledger and the lists alone *)

Lemma stepBosses_length (i : Input) (lvl : Z) (p : Player) (bs : list Enemy)
    (k : nat) :
  List.length (fst (stepBosses i lvl p k bs)) = List.length bs.
Proof.
  revert k. induction bs as [|b rest IH]; intros k; [reflexivity|].
  cbn [stepBosses]. destruct (stepBoss i lvl p k b) as [b' s].
  specialize (IH (S k)). destruct (stepBosses i lvl p (S k) rest) as [r s'].
  cbn in *. now rewrite IH.
Qed.

Lemma stepEnemies_length (i : Input) (p : Player) (es : list Enemy) :
  List.length (fst (stepEnemies i p es)) = List.length es.
Proof.
  induction es as [|e rest IH]; [reflexivity|].
  cbn [stepEnemies]. destruct (stepEnemy i p e) as [e' s].
  destruct (stepEnemies i p rest) as [r s']. cbn in *. now rewrite IH.
Qed.

Lemma filter_length_le {A} (f : A -> bool) (l : list A) :
  (List.length (filter f l) <= List.length l)%nat.
Proof.
  induction l as [|x l IH]; cbn; [lia|]. destruct (f x); cbn; lia.
Qed.

Lemma ledger_movePlayer (i : Input) (w : World) :
  ledger (movePlayer i w) = ledger w.
Proof. unfold movePlayer. destruct (touch i) as [[tx ty]|]; reflexivity. Qed.

Lemma ledger_shoot (i : Input) (w : World) : ledger (shoot i w) = ledger w.
Proof. unfold shoot. destruct (fires i w); reflexivity. Qed.

Lemma ledger_updateBosses (i : Input) (w : World) :
  ledger (updateBosses i w) = ledger w.
Proof.
  unfold updateBosses.
  destruct (stepBosses i (level w) (player w) 0 (bosses w)); reflexivity.
Qed.

Lemma ledger_bossWarning (i : Input) (w : World) :
  ledger (bossWarning i w) = ledger w.
Proof.
  unfold bossWarning. destruct (warningTriggers w); [|reflexivity].
  destruct (BOSS_CONFIGS (level w)); reflexivity.
Qed.

Lemma ledger_bossEntrance (i : Input) (w : World) :
  ledger (bossEntrance i w) = ledger w.
Proof. unfold bossEntrance. destruct (isEntering i w); reflexivity. Qed.

Lemma ledger_spawnEnemies (i : Input) (en : bool) (w : World) :
  ledger (spawnEnemies i en w) = ledger w.
Proof.
  unfold spawnEnemies. destruct (spawnAllowed en w); [|reflexivity].
  destruct (spawnInterval (level w) <? now i - lastEnemySpawn w); reflexivity.
Qed.

Lemma ledger_updateEnemies (i : Input) (w : World) :
  ledger (updateEnemies i w) = ledger w.
Proof.
  unfold updateEnemies.
  destruct (stepEnemies i (player w) (enemies w)); reflexivity.
Qed.

Lemma ledger_checkEscaped (w : World) : ledger (checkEscaped w) = ledger w.
Proof.
  unfold checkEscaped.
  destruct (0 <? List.length (filter hasEscaped (enemies w)))%nat; reflexivity.
Qed.

Lemma ledger_updatePowerUps (i : Input) (w : World) :
  ledger (updatePowerUps i w) = ledger w.
Proof.
  unfold updatePowerUps.
  destruct (15000 <? now i - lastPowerUpSpawn w); reflexivity.
Qed.

(** The boss list before the bullet pass, when a boss is on the field: it
    keeps its length, no warning is raised and no enemy is spawned. *)
Lemma boss_phase_before_pass (i : Input) (w : World) :
  noBoss w = false ->
  let w1 := bossWarning i
              (updateBosses i (updateBullets (shoot i (movePlayer i w)))) in
  let w2 := updatePowerUps i (checkEscaped (updateEnemies i
              (spawnEnemies i (isEntering i w1) (bossEntrance i w1)))) in
  ledger w2 = ledger w
  /\ noBoss w2 = false
  /\ List.length (bosses w2) = List.length (bosses w)
  /\ (List.length (enemies w2) <= List.length (enemies w))%nat
  /\ bossWarningActive w2 = bossWarningActive w
  /\ timeouts w2 = timeouts w.
Proof.
  intros Hb. cbv zeta.
  set (a := updateBullets (shoot i (movePlayer i w))).
  assert (La : ledger a = ledger w).
  { unfold a. transitivity (ledger (shoot i (movePlayer i w)));
      [reflexivity|]. rewrite ledger_shoot. apply ledger_movePlayer. }
  destruct (movePlayer_fields i w) as (_ & B1 & C1 & D1 & E1).
  destruct (shoot_fields i (movePlayer i w)) as (_ & B2 & C2 & D2 & E2).
  assert (Fa : bosses a = bosses w /\ enemies a = enemies w
               /\ bossWarningActive a = bossWarningActive w
               /\ timeouts a = timeouts w).
  { unfold a, updateBullets. cbn. repeat split; congruence. }
  clearbody a. destruct Fa as (Ba & Ea & Wa & Ta).
  set (b := updateBosses i a).
  assert (Lb : ledger b = ledger w)
    by (unfold b; rewrite ledger_updateBosses; exact La).
  assert (Fb : List.length (bosses b) = List.length (bosses w)
               /\ enemies b = enemies w
               /\ bossWarningActive b = bossWarningActive w
               /\ timeouts b = timeouts w).
  { unfold b, updateBosses.
    pose proof (stepBosses_length i (level a) (player a) (bosses a) 0) as H.
    destruct (stepBosses i (level a) (player a) 0 (bosses a)) as [bs sh].
    cbn in *. repeat split; congruence. }
  clearbody b. destruct Fb as (Bb & Eb & Wb & Tb).
  assert (Nb : noBoss b = false).
  { unfold noBoss in *. now rewrite Bb. }
  assert (Q1 : bossWarning i b = b).
  { unfold bossWarning, warningTriggers. rewrite Nb.
    now rewrite andb_false_r. }
  rewrite Q1.
  set (c := bossEntrance i b).
  assert (Fc : ledger c = ledger w
               /\ List.length (bosses c) = List.length (bosses w)
               /\ enemies c = enemies w
               /\ bossWarningActive c = bossWarningActive w
               /\ timeouts c = timeouts w).
  { unfold c, bossEntrance. destruct (isEntering i b); cbn.
    - rewrite length_map. repeat split; auto.
    - repeat split; auto. }
  clearbody c. destruct Fc as (Lc & Bc & Ec & Wc & Tc).
  assert (Nc : noBoss c = false).
  { unfold noBoss in *. now rewrite Bc. }
  assert (Q2 : spawnEnemies i (isEntering i b) c = c).
  { unfold spawnEnemies, spawnAllowed. now rewrite Nc. }
  rewrite Q2.
  set (d := updateEnemies i c).
  assert (Fd : ledger d = ledger w
               /\ bosses d = bosses c
               /\ List.length (enemies d) = List.length (enemies w)
               /\ bossWarningActive d = bossWarningActive w
               /\ timeouts d = timeouts w).
  { split; [unfold d; rewrite ledger_updateEnemies; exact Lc|].
    unfold d, updateEnemies.
    pose proof (stepEnemies_length i (player c) (enemies c)) as H.
    destruct (stepEnemies i (player c) (enemies c)) as [es sh].
    cbn in *. repeat split; congruence. }
  clearbody d. destruct Fd as (Ld & Bd & Ed & Wd & Td).
  set (e := checkEscaped d).
  assert (Fe : ledger e = ledger w
               /\ bosses e = bosses d
               /\ (List.length (enemies e) <= List.length (enemies w))%nat
               /\ bossWarningActive e = bossWarningActive w
               /\ timeouts e = timeouts w).
  { split; [unfold e; rewrite ledger_checkEscaped; exact Ld|].
    unfold e, checkEscaped.
    destruct (0 <? List.length (filter hasEscaped (enemies d)))%nat; cbn.
    - pose proof (filter_length_le stillInside (enemies d)).
      repeat split; auto. lia.
    - repeat split; auto. lia. }
  clearbody e. destruct Fe as (Le & Be & Ee & We & Te).
  destruct (updatePowerUps_fields i e) as (_ & B' & E' & W' & T').
  rewrite ledger_updatePowerUps.
  split; [exact Le|]. unfold noBoss in *.
  rewrite B', E', W', T', Be, Bd. repeat split; auto.
Qed.

(** ** Level and health in the bullet pass *)

Lemma quiet_refl (w : World) : quiet w w.
Proof. unfold quiet. repeat split; lia. Qed.

Lemma quiet_trans (a b c : World) : quiet a b -> quiet b c -> quiet a c.
Proof.
  unfold quiet. intros (N1 & L1 & B1) (N2 & L2 & B2).
  split; [congruence|]. split; [lia|]. intros H.
  destruct (B1 H) as (A1 & A2 & A3).
  assert (H' : noBoss b = false) by congruence.
  destruct (B2 H') as (A4 & A5 & A6). repeat split; congruence.
Qed.

Lemma quiet_award (w : World) (e : Enemy) : quiet w (award w e).
Proof. unfold quiet, award, noBoss. cbn. repeat split; lia. Qed.

Lemma quiet_levelUpCheck (w : World) : quiet w (levelUpCheck w).
Proof.
  unfold levelUpCheck. destruct (noBoss w) eqn:N; [|apply quiet_refl].
  destruct (level w * 2000 <=? score w); [|apply quiet_refl].
  destruct ((Z.rem (level w + 1) 2 =? 0) && (lastLevelHealed w <? level w + 1));
    [destruct (health w <? PLAYER_MAX_HEALTH)|];
    match goal with |- context [(level ?x =? 5)] => destruct (level x =? 5) end;
    unfold quiet, noBoss in *; cbn; rewrite N;
    (split; [reflexivity|]); (split; [lia|]); intros; discriminate.
Qed.

Lemma quiet_killEnemy (w : World) (e : Enemy) : quiet w (killEnemy w e).
Proof.
  unfold killEnemy. eapply quiet_trans; [|apply quiet_levelUpCheck].
  match goal with |- context [(10000 <=? ?s)] => destruct (10000 <=? s) end;
    unfold quiet, award, noBoss; cbn; repeat split; lia.
Qed.

Lemma quiet_hitBoss (w : World) (b : Bullet) (e : Enemy) :
  quiet w (fst (fst (hitBoss w b e))).
Proof.
  unfold hitBoss. destruct (bulletHits b e); [|apply quiet_refl].
  match goal with |- context [(?h <=? 0)] => destruct (h <=? 0) end;
    [apply quiet_award|apply quiet_refl].
Qed.

Lemma quiet_hitEnemy (w : World) (b : Bullet) (e : Enemy) :
  quiet w (fst (fst (hitEnemy w b e))).
Proof.
  unfold hitEnemy. destruct (bulletHits b e); [|apply quiet_refl].
  match goal with |- context [(?h <=? 0)] => destruct (h <=? 0) end;
    [apply quiet_killEnemy|apply quiet_refl].
Qed.

Lemma quiet_set_bosses (w : World) (l : list Enemy) :
  List.length l = List.length (bosses w) -> quiet w (set_bosses w l).
Proof.
  intros H. unfold quiet, noBoss. cbn. rewrite H. repeat split; lia.
Qed.

Lemma quiet_set_enemies (w : World) (l : list Enemy) :
  quiet w (set_enemies w l).
Proof. unfold quiet, noBoss. cbn. repeat split; lia. Qed.

Lemma bulletPass_quiet (w : World) :
  quiet w (bulletPass w)
  /\ List.length (bosses (bulletPass w)) = List.length (bosses w)
  /\ (List.length (enemies (bulletPass w)) <= List.length (enemies w))%nat.
Proof.
  unfold bulletPass.
  assert (T : forall l : list Enemy, Forall (fun _ => True) l)
    by (induction l; constructor; auto).
  destruct (bulletLoop_rel quiet (fun _ => True) (fun _ => True)
              quiet_refl quiet_trans
              (fun w b e _ => conj (quiet_hitBoss w b e) I)
              (fun w b e _ => conj (quiet_hitEnemy w b e) I)
              (fun w l _ H => quiet_set_bosses w l H)
              (fun w l _ _ => quiet_set_enemies w l)
              (bullets w) w (T _) (T _)) as (Q & _ & _ & LB & LE).
  destruct (bulletLoop w (bullets w)) as [w1 bs]. cbn [fst] in Q, LB, LE.
  cbn [bosses enemies set_enemies set_bullets].
  split; [|split; [exact LB|]].
  - eapply quiet_trans; [exact Q|].
    unfold quiet, noBoss. cbn. repeat split; lia.
  - pose proof (filter_length_le alive (enemies w1)). lia.
Qed.

Lemma ledger_before_collisions (i : Input) (w : World) :
  let w1 := bossWarning i
              (updateBosses i (updateBullets (shoot i (movePlayer i w)))) in
  ledger (updatePowerUps i (checkEscaped (updateEnemies i
            (spawnEnemies i (isEntering i w1) (bossEntrance i w1)))))
  = ledger w.
Proof.
  cbv zeta.
  rewrite ledger_updatePowerUps, ledger_checkEscaped, ledger_updateEnemies,
    ledger_spawnEnemies, ledger_bossEntrance, ledger_bossWarning,
    ledger_updateBosses.
  transitivity (ledger (shoot i (movePlayer i w))); [reflexivity|].
  rewrite ledger_shoot. apply ledger_movePlayer.
Qed.

Lemma cleanupBosses_level (w : World) :
  bosses (cleanupBosses w) = filter (fun e => negb (deadBoss e)) (bosses w)
  /\ enemies (cleanupBosses w) = enemies w
  /\ health (cleanupBosses w) = health w
  /\ lastLevelHealed (cleanupBosses w) = lastLevelHealed w
  /\ ((level (cleanupBosses w) = level w
       /\ (noBoss w = false -> noBoss (cleanupBosses w) = false))
      \/ (level (cleanupBosses w) = level w + 1
          /\ noBoss w = false /\ bosses (cleanupBosses w) = [])).
Proof.
  unfold cleanupBosses.
  destruct (0 <? List.length (filter deadBoss (bosses w)))%nat eqn:D.
  - match goal with |- context [noBoss ?x] => destruct (noBoss x) eqn:N end.
    + cbn. repeat split; auto. right. split; [reflexivity|].
      unfold noBoss in *. cbn in N. apply Nat.eqb_eq in N.
      apply length_zero_iff_nil in N. split; [|exact N].
      apply Nat.eqb_neq. apply Nat.ltb_lt in D.
      pose proof (filter_length_le deadBoss (bosses w)). lia.
    + cbn. repeat split; auto.
  - repeat split; auto.
    + apply Nat.ltb_ge in D.
      assert (E : filter deadBoss (bosses w) = [])
        by (destruct (filter deadBoss (bosses w)); [reflexivity|cbn in D; lia]).
      clear D. induction (bosses w) as [|x l IH]; [reflexivity|].
      cbn in *. destruct (deadBoss x); [discriminate|]. cbn. f_equal. auto.
Qed.

(** The level never goes down in a tick, whatever the state of the game. *)
Lemma update_level_le (i : Input) (w : World) :
  level w <= level (update i w).
Proof.
  unfold update. destruct (gameState w); try lia.
  pose proof (ledger_before_collisions i w) as V. cbv zeta in V.
  match type of V with ledger ?x = _ => set (w1 := x) in * end.
  clearbody w1. unfold ledger in V. injection V as V1 _ _ _ _.
  destruct (bulletPass_quiet w1) as ((_ & Q & _) & _).
  set (w2 := bulletPass w1) in *. clearbody w2.
  assert (C : level w2 <= level (cleanupBosses w2)).
  { destruct (cleanupBosses_level w2) as (_ & _ & _ & _ & [[E _] | [E _]]);
      lia. }
  set (w3 := cleanupBosses w2) in *. clearbody w3.
  destruct (playerCollisions_fields i w3) as (P & _).
  set (w4 := playerCollisions i w3) in *. clearbody w4.
  unfold pickUpPowerUps, updateTimers.
  pose proof (pickUp_fields (now i) (powerUps w4) w4) as (K & _).
  destruct (pickUp (now i) w4 (powerUps w4)) as [w5 us]. cbn in *. lia.
Qed.

Lemma runTimeouts_level (clock : Z) (w : World) :
  level (runTimeouts clock w) = level w.
Proof.
  unfold runTimeouts.
  set (w0 := set_timeouts w (filter (fun t => negb (due clock t)) (timeouts w))).
  assert (E : level w0 = level w) by reflexivity. clearbody w0.
  revert w0 E. induction (filter (due clock) (timeouts w)) as [|t l IH];
    intros w0 E; [exact E|].
  cbn [fold_left]. apply IH. rewrite <- E. reflexivity.
Qed.

(** The level never goes down: a tick can only raise it and a boss callback
    leaves it alone, so over any sequence of ticks and timers the level
    only grows.  (A change of the game state to PLAYING resets it.) *)
Theorem level_grows_over_ticks_and_timers (l : list Action) (w : World) :
  Forall (fun a => match a with SetGameState _ => False | _ => True end) l ->
  level w <= level (run l w).
Proof.
  revert w. induction l as [|a l IH]; intros w H; [cbn; lia|].
  inversion H as [|? ? Ha Hl]; subst. cbn [run fold_left].
  specialize (IH (act a w) Hl). unfold run in IH.
  assert (S : level w <= level (act a w)).
  { destruct a as [i | clock | g]; cbn [act].
    - apply update_level_le.
    - rewrite runTimeouts_level. lia.
    - contradiction. }
  lia.
Qed.

(** ** While a boss is on the field *)

Lemma takeHit_lastLevelHealed (u : bool) (t : Z) (w : World) :
  lastLevelHealed (takeHit u t w) = lastLevelHealed w.
Proof.
  unfold takeHit. destruct (shieldActive (player w)); destruct u; reflexivity.
Qed.

Lemma iter_takeHit_lastLevelHealed (u : bool) (t : Z) (n : nat) (w : World) :
  lastLevelHealed (Nat.iter n (takeHit u t) w) = lastLevelHealed w.
Proof.
  induction n as [|n IH]; [reflexivity|].
  rewrite Nat.iter_succ, takeHit_lastLevelHealed. exact IH.
Qed.

(** A tick that starts with a boss on the field spawns no regular enemy
    (the enemy list does not grow), heals nobody and levels nobody up by a
    kill; bosses leave the list only by the dead-boss filter; and the
    level goes up, by exactly one, in the tick that empties the boss list
    and in no other. *)
Theorem boss_on_field (i : Input) (w : World) :
  gameState w = PLAYING ->
  noBoss w = false ->
  let w' := update i w in
  (List.length (enemies w') <= List.length (enemies w))%nat
  /\ (List.length (bosses w') <= List.length (bosses w))%nat
  /\ health w' <= health w
  /\ lastLevelHealed w' = lastLevelHealed w
  /\ ((noBoss w' = false /\ level w' = level w)
      \/ (bosses w' = [] /\ level w' = level w + 1)).
Proof.
  intros Hg Hb. cbv zeta. unfold update. rewrite Hg.
  destruct (boss_phase_before_pass i w Hb) as (L & N & LB & LE & _).
  cbv zeta in L, N, LB, LE.
  match type of L with ledger ?x = _ => set (w1 := x) in * end.
  clearbody w1. unfold ledger in L. injection L as L1 L2 L3 _ _.
  destruct (bulletPass_quiet w1) as ((QN & _ & Q) & PB & PE).
  destruct (Q N) as (Q1 & Q2 & Q3).
  set (w2 := bulletPass w1) in *. clearbody w2.
  assert (N2 : noBoss w2 = false) by congruence.
  destruct (cleanupBosses_level w2) as (CB & CE & CH & CL & CC).
  assert (CBl : (List.length (bosses (cleanupBosses w2))
                 <= List.length (bosses w2))%nat)
    by (rewrite CB; apply filter_length_le).
  set (w3 := cleanupBosses w2) in *. clearbody w3.
  assert (H3 : health (playerCollisions i w3) <= health w3
               /\ List.length (enemies (playerCollisions i w3))
                  = List.length (enemies w3)
               /\ lastLevelHealed (playerCollisions i w3) = lastLevelHealed w3).
  { destruct (invincible (player w3)) eqn:Hinv.
    - rewrite playerCollisions_invincible by exact Hinv.
      repeat split; lia.
    - destruct (playerCollisions_spec i w3 Hinv) as (-> & _ & _ & -> & _).
      rewrite length_map. split; [lia|]. split; [reflexivity|].
      unfold playerCollisions. rewrite Hinv. cbn [negb].
      rewrite playerVsBullets_iter, playerVsBosses_iter, playerVsEnemies_iter.
      cbn [lastLevelHealed set_enemies].
      rewrite !iter_takeHit_lastLevelHealed.
      cbn [lastLevelHealed set_bullets].
      rewrite iter_takeHit_lastLevelHealed. reflexivity. }
  destruct H3 as (PH & PLen & PLl).
  destruct (playerCollisions_fields i w3) as (PL & PBs & _).
  set (w4 := playerCollisions i w3) in *. clearbody w4.
  unfold pickUpPowerUps, updateTimers.
  pose proof (pickUp_fields (now i) (powerUps w4) w4) as (K1 & K2 & K3 & _).
  pose proof (pickUp_vitals (now i) (powerUps w4) w4) as (K4 & _).
  assert (K5 : lastLevelHealed (fst (pickUp (now i) w4 (powerUps w4)))
               = lastLevelHealed w4).
  { generalize (powerUps w4) as us. generalize w4 as x.
    intros x us. revert x. induction us as [|u rest IH]; intros x;
      [reflexivity|]. cbn [pickUp].
    destruct (playerTouchesPowerUp (player x) u).
    - match goal with |- context [pickUp _ ?y rest] =>
        specialize (IH y); destruct (pickUp (now i) y rest) as [z r] end.
      cbn in *. rewrite IH. destruct (u_type u); reflexivity.
    - specialize (IH x). destruct (pickUp (now i) x rest) as [z r].
      exact IH. }
  destruct (pickUp (now i) w4 (powerUps w4)) as [w5 us].
  cbn [fst] in K1, K2, K3, K4, K5.
  cbn [enemies bosses health lastLevelHealed level noBoss set_player
       set_powerUps].
  unfold noBoss in *. cbn [bosses set_player set_powerUps].
  rewrite K2, K3, K4, K5, K1, PBs, PL, PLen, PLl.
  rewrite CE.
  split; [lia|]. split; [lia|]. split; [lia|]. split; [congruence|].
  destruct CC as [[E1 E2] | [E1 [_ E3]]].
  - left. split; [apply E2; exact N2|congruence].
  - right. split; [exact E3|congruence].
Qed.

(** ** The score is never negative *)

Lemma BOSS_CONFIGS_worth (lvl : Z) (c : BossConfig) :
  BOSS_CONFIGS lvl = Some c -> 0 <= bc_scoreValue c.
Proof.
  unfold BOSS_CONFIGS.
  repeat match goal with
         | |- context [if ?x then _ else _] => destruct x
         end; intros H; inversion H; subst; cbn; lia.
Qed.

Lemma ENEMY_CONFIGS_worth (t : EnemyType) :
  0 <= ec_scoreValue (ENEMY_CONFIGS t).
Proof. destruct t; cbn; lia. Qed.

Lemma stepBosses_worth (i : Input) (lvl : Z) (p : Player) (bs : list Enemy)
    (k : nat) :
  Forall worth bs -> Forall worth (fst (stepBosses i lvl p k bs)).
Proof.
  revert k. induction bs as [|b rest IH]; intros k H; [constructor|].
  inversion H as [|? ? Hb Hr]; subst. cbn [stepBosses].
  assert (W : worth (fst (stepBoss i lvl p k b))).
  { unfold stepBoss. destruct (bossAttacks i lvl (moveBoss b)); cbn [fst];
      unfold worth, moveBoss in *; cbn [scoreValue set_attackTimer];
      repeat match goal with
             | |- context [if ?x then _ else _] => destruct x
             end; exact Hb. }
  destruct (stepBoss i lvl p k b) as [b' s].
  specialize (IH (S k) Hr). destruct (stepBosses i lvl p (S k) rest) as [r s'].
  cbn in *. constructor; assumption.
Qed.

Lemma stepEnemies_worth (i : Input) (p : Player) (es : list Enemy) :
  Forall worth es -> Forall worth (fst (stepEnemies i p es)).
Proof.
  induction 1 as [|e rest He _ IH]; [constructor|]. cbn [stepEnemies].
  assert (W : worth (fst (stepEnemy i p e))).
  { unfold stepEnemy, worth in *.
    destruct (e_type e); try exact He.
    destruct (Qltb (e_y e) 200); [exact He|].
    destruct (Qgtb (inject_Z (now i) - timerOf (initTimer e)) 2000);
      exact He. }
  destruct (stepEnemy i p e) as [e' s].
  destruct (stepEnemies i p rest) as [r s']. cbn in *.
  constructor; assumption.
Qed.

Lemma Forall_filter {A} (P : A -> Prop) (f : A -> bool) (l : list A) :
  Forall P l -> Forall P (filter f l).
Proof.
  induction 1 as [|x l Hx _ IH]; cbn; [constructor|].
  destruct (f x); [constructor; assumption|assumption].
Qed.

Lemma Forall_map_same {A} (P : A -> Prop) (g : A -> A) (l : list A) :
  (forall x, P x -> P (g x)) -> Forall P l -> Forall P (map g l).
Proof. intros H. induction 1; cbn; constructor; auto. Qed.

Lemma sound_before_pass (i : Input) (w : World) :
  sound w ->
  let w1 := bossWarning i
              (updateBosses i (updateBullets (shoot i (movePlayer i w)))) in
  sound (updatePowerUps i (checkEscaped (updateEnemies i
           (spawnEnemies i (isEntering i w1) (bossEntrance i w1))))).
Proof.
  intros S. cbv zeta.
  assert (Sa : sound (updateBullets (shoot i (movePlayer i w)))).
  { unfold sound in *. unfold updateBullets, shoot, movePlayer.
    destruct (touch i) as [[tx ty]|];
      match goal with |- context [fires i ?x] => destruct (fires i x) end;
      cbn; exact S. }
  set (a := updateBullets (shoot i (movePlayer i w))) in *. clearbody a.
  assert (Sb : sound (updateBosses i a)).
  { destruct Sa as (A & B & C & D). unfold sound, updateBosses.
    pose proof (stepBosses_worth i (level a) (player a) (bosses a) 0 C) as H.
    destruct (stepBosses i (level a) (player a) 0 (bosses a)) as [bs sh].
    cbn in *. auto. }
  set (b := updateBosses i a) in *. clearbody b.
  assert (Sc : sound (bossWarning i b)).
  { destruct Sb as (A & B & C & D). unfold bossWarning.
    destruct (warningTriggers b); [|unfold sound; auto].
    destruct (BOSS_CONFIGS (level b)) as [c|] eqn:E; [|unfold sound; auto].
    unfold sound. cbn. repeat split; auto.
    apply Forall_app. split; [exact D|]. constructor; [|constructor].
    cbn. exact (BOSS_CONFIGS_worth _ _ E). }
  set (c := bossWarning i b) in *.
  assert (Sd : sound (bossEntrance i c)).
  { destruct Sc as (A & B & C & D). unfold bossEntrance.
    destruct (isEntering i c); [|unfold sound; auto].
    unfold sound. cbn. repeat split; auto.
    apply Forall_map_same; [|exact C]. intros x Hx. exact Hx. }
  generalize (isEntering i c). intros en.
  set (d := bossEntrance i c) in *. clearbody d. clearbody c.
  assert (Se : sound (spawnEnemies i en d)).
  { destruct Sd as (A & B & C & D). unfold spawnEnemies.
    destruct (spawnAllowed en d); [|unfold sound; auto].
    destruct (spawnInterval (level d) <? now i - lastEnemySpawn d);
      [|unfold sound; auto].
    unfold sound. cbn. repeat split; auto.
    apply Forall_app. split; [exact B|]. constructor; [|constructor].
    unfold worth, newEnemy. cbn. apply ENEMY_CONFIGS_worth. }
  set (e := spawnEnemies i en d) in *. clearbody e.
  assert (Sf : sound (updateEnemies i e)).
  { destruct Se as (A & B & C & D). unfold sound, updateEnemies.
    pose proof (stepEnemies_worth i (player e) (enemies e) B) as H.
    destruct (stepEnemies i (player e) (enemies e)) as [es sh].
    cbn in *. auto. }
  set (f := updateEnemies i e) in *. clearbody f.
  assert (Sg : sound (checkEscaped f)).
  { destruct Sf as (A & B & C & D). unfold checkEscaped.
    destruct (0 <? List.length (filter hasEscaped (enemies f)))%nat;
      [|unfold sound; auto].
    unfold sound. cbn. repeat split; auto; [lia|].
    apply Forall_filter. exact B. }
  set (g := checkEscaped f) in *. clearbody g.
  destruct Sg as (A & B & C & D). unfold sound, updatePowerUps.
  destruct (15000 <? now i - lastPowerUpSpawn g); cbn; auto.
Qed.

Lemma levelUpCheck_score (w : World) :
  score (levelUpCheck w) = score w /\ timeouts (levelUpCheck w) = timeouts w.
Proof.
  unfold levelUpCheck. destruct (noBoss w); [|auto].
  destruct (level w * 2000 <=? score w); [|auto].
  destruct ((Z.rem (level w + 1) 2 =? 0) && (lastLevelHealed w <? level w + 1));
    [destruct (health w <? PLAYER_MAX_HEALTH)|];
    match goal with |- context [(level ?x =? 5)] => destruct (level x =? 5) end;
    auto.
Qed.

Lemma worth_hitBoss (w : World) (b : Bullet) (e : Enemy) :
  worth e ->
  (score w <= score (fst (fst (hitBoss w b e)))
   /\ timeouts (fst (fst (hitBoss w b e))) = timeouts w)
  /\ worth (snd (hitBoss w b e)).
Proof.
  intros H. unfold hitBoss, worth in *. destruct (bulletHits b e);
    [|cbn; repeat split; auto; lia].
  match goal with |- context [(?h <=? 0)] => destruct (h <=? 0) end;
    cbn; repeat split; auto; lia.
Qed.

Lemma worth_hitEnemy (w : World) (b : Bullet) (e : Enemy) :
  worth e ->
  (score w <= score (fst (fst (hitEnemy w b e)))
   /\ timeouts (fst (fst (hitEnemy w b e))) = timeouts w)
  /\ worth (snd (hitEnemy w b e)).
Proof.
  intros H. unfold hitEnemy, worth in *. destruct (bulletHits b e);
    [|cbn; repeat split; auto; lia].
  match goal with |- context [(?h <=? 0)] => destruct (h <=? 0) end;
    cbn [fst snd scoreValue set_e_health]; [|repeat split; auto; lia].
  unfold killEnemy.
  match goal with |- context [levelUpCheck ?x] =>
    destruct (levelUpCheck_score x) as [A B]; rewrite A, B end.
  match goal with |- context [(10000 <=? ?s)] => destruct (10000 <=? s) end;
    cbn; repeat split; auto; lia.
Qed.

Lemma sound_bulletPass (w : World) : sound w -> sound (bulletPass w).
Proof.
  intros (A & B & C & D). unfold bulletPass.
  destruct (bulletLoop_rel
              (fun x y => score x <= score y /\ timeouts y = timeouts x)
              worth worth
              (fun x => conj (Z.le_refl _) eq_refl)
              (fun a b c H1 H2 =>
                 conj (Z.le_trans _ _ _ (proj1 H1) (proj1 H2))
                      (eq_trans (proj2 H2) (proj2 H1)))
              worth_hitBoss worth_hitEnemy
              (fun x l _ _ => conj (Z.le_refl _) eq_refl)
              (fun x l _ _ => conj (Z.le_refl _) eq_refl)
              (bullets w) w C B) as ((S & T) & PB & PE & _).
  destruct (bulletLoop w (bullets w)) as [w1 bs]. cbn [fst] in *.
  unfold sound. cbn. repeat split; auto; [lia| |congruence].
  apply Forall_filter. exact PE.
Qed.

Lemma sound_after_pass (i : Input) (w : World) :
  sound w ->
  sound (updateTimers i (pickUpPowerUps i (playerCollisions i
           (cleanupBosses w)))).
Proof.
  intros (A & B & C & D).
  assert (S3 : sound (cleanupBosses w)).
  { unfold cleanupBosses.
    destruct (0 <? List.length (filter deadBoss (bosses w)))%nat;
      [|unfold sound; auto].
    match goal with |- context [noBoss ?x] => destruct (noBoss x) end;
      unfold sound; cbn; repeat split; auto; apply Forall_filter; exact C. }
  set (w3 := cleanupBosses w) in *. clearbody w3.
  assert (S4 : sound (playerCollisions i w3)).
  { destruct S3 as (A3 & B3 & C3 & D3).
    destruct (invincible (player w3)) eqn:Hinv.
    - rewrite playerCollisions_invincible by exact Hinv. unfold sound. auto.
    - destruct (playerCollisions_spec i w3 Hinv)
        as (_ & _ & _ & He & Hb & _ & _ & Hs & _ & Ht).
      unfold sound. rewrite He, Hb, Hs, Ht. repeat split; auto.
      apply Forall_map_same; [|exact B3]. intros x Hx. unfold ram, worth in *.
      destruct (playerTouchesEnemy (player w3) x); exact Hx. }
  set (w4 := playerCollisions i w3) in *. clearbody w4.
  destruct S4 as (A4 & B4 & C4 & D4).
  unfold pickUpPowerUps, updateTimers.
  pose proof (pickUp_fields (now i) (powerUps w4) w4) as (_ & K2 & K3 & _ & K5).
  assert (K6 : score (fst (pickUp (now i) w4 (powerUps w4))) = score w4).
  { generalize (powerUps w4) as us. generalize w4 as x.
    intros x us. revert x. induction us as [|u rest IH]; intros x;
      [reflexivity|]. cbn [pickUp].
    destruct (playerTouchesPowerUp (player x) u).
    - match goal with |- context [pickUp _ ?y rest] =>
        specialize (IH y); destruct (pickUp (now i) y rest) as [z r] end.
      cbn in *. rewrite IH. destruct (u_type u); reflexivity.
    - specialize (IH x). destruct (pickUp (now i) x rest) as [z r].
      exact IH. }
  destruct (pickUp (now i) w4 (powerUps w4)) as [w5 us]. cbn [fst] in *.
  unfold sound. cbn. rewrite K2, K3, K5, K6. auto.
Qed.

Lemma sound_update (i : Input) (w : World) : sound w -> sound (update i w).
Proof.
  intros S. unfold update. destruct (gameState w); try exact S.
  apply sound_after_pass. apply sound_bulletPass.
  apply (sound_before_pass i w S).
Qed.

Lemma sound_callback (t : Timeout) (w : World) :
  0 <= bc_scoreValue (t_config t) -> sound w -> sound (bossSpawnCallback t w).
Proof.
  intros Ht (A & B & C & D). unfold sound, bossSpawnCallback. cbn.
  repeat split; auto; apply Forall_app; split; auto;
    apply Forall_forall; intros e He; apply in_map_iff in He;
    destruct He as (k & <- & _); unfold worth; cbn; [lia|exact Ht].
Qed.

Lemma sound_runTimeouts (clock : Z) (w : World) :
  sound w -> sound (runTimeouts clock w).
Proof.
  intros (A & B & C & D). unfold runTimeouts.
  set (w0 := set_timeouts w (filter (fun t => negb (due clock t)) (timeouts w))).
  assert (S0 : sound w0).
  { unfold sound, w0. cbn. repeat split; auto. apply Forall_filter. exact D. }
  assert (F : Forall (fun t => 0 <= bc_scoreValue (t_config t))
                (filter (due clock) (timeouts w)))
    by (apply Forall_filter; exact D).
  clearbody w0. revert w0 S0.
  induction F as [|t l Ht _ IH]; intros w0 S0; [exact S0|].
  cbn [fold_left]. apply IH. apply sound_callback; assumption.
Qed.

Lemma sound_changeGameState (g : GameState) (w : World) :
  sound w -> sound (changeGameState g w).
Proof.
  intros (A & B & C & D). unfold changeGameState.
  destruct (sameState g (gameState w)); [unfold sound; auto|].
  destruct (isPlaying g && negb (isPlaying (prevGameState w)));
    destruct (leavesPlay g); unfold sound; cbn; repeat split; auto; lia.
Qed.

(** Whatever the host does (ticks, timers, changes of the game state), a
    score that is non-negative stays non-negative, provided the score
    values in the world are non-negative, as those of the configurations
    are. *)
Theorem score_never_negative (l : list Action) (w : World) :
  sound w -> 0 <= score (run l w) /\ sound (run l w).
Proof.
  revert w. induction l as [|a l IH]; intros w S; [split; [apply S|exact S]|].
  cbn [run fold_left]. apply (IH (act a w)).
  destruct a as [i | clock | g]; cbn [act].
  - apply sound_update. exact S.
  - apply sound_runTimeouts. exact S.
  - apply sound_changeGameState. exact S.
Qed.

(** ** The ship stays inside the field *)

Lemma Qmax_lower (a b : Q) : (a <= Qmax a b)%Q.
Proof.
  unfold Qmax. destruct (Qle_bool a b) eqn:E.
  - now apply Qle_bool_iff. - apply Qle_refl.
Qed.

Lemma Qmax_upper (a b c : Q) : (a <= c)%Q -> (b <= c)%Q -> (Qmax a b <= c)%Q.
Proof. intros H1 H2. unfold Qmax. destruct (Qle_bool a b); assumption. Qed.

Lemma Qmin_left (a b : Q) : (Qmin a b <= a)%Q.
Proof.
  unfold Qmin. destruct (Qle_bool a b) eqn:E; [apply Qle_refl|].
  destruct (Qlt_le_dec a b) as [H|H]; [|exact H].
  apply Qlt_le_weak in H. apply Qle_bool_iff in H. congruence.
Qed.

Lemma movePlayer_inField (i : Input) (w : World) :
  (p_width (player w) <= CANVAS_WIDTH)%Q ->
  (p_height (player w) <= CANVAS_HEIGHT)%Q ->
  inField (player (movePlayer i w))
  /\ p_width (player (movePlayer i w)) = p_width (player w)
  /\ p_height (player (movePlayer i w)) = p_height (player w).
Proof.
  intros Hw Hh. unfold movePlayer.
  match goal with |- context [let '(x, y) := ?m in _] =>
    destruct m as [x y] end.
  unfold inField. cbn [player set_player p_x p_y p_width p_height set_p_pos].
  pose proof (Qmax_lower 0 (Qmin (CANVAS_WIDTH - p_width (player w)) x)).
  pose proof (Qmax_lower 0 (Qmin (CANVAS_HEIGHT - p_height (player w)) y)).
  pose proof (Qmax_upper 0 (Qmin (CANVAS_WIDTH - p_width (player w)) x)
                (CANVAS_WIDTH - p_width (player w)) ltac:(lra)
                (Qmin_left _ _)).
  pose proof (Qmax_upper 0 (Qmin (CANVAS_HEIGHT - p_height (player w)) y)
                (CANVAS_HEIGHT - p_height (player w)) ltac:(lra)
                (Qmin_left _ _)).
  repeat split; try assumption; lra.
Qed.

Lemma iter_takeHit_hull (u : bool) (t : Z) (n : nat) (w : World) :
  hull (player (Nat.iter n (takeHit u t) w)) = hull (player w).
Proof.
  destruct (iter_takeHit_frame u t n w) as (A & B & C & D & _).
  unfold hull. congruence.
Qed.

Lemma playerCollisions_hull (i : Input) (w : World) :
  hull (player (playerCollisions i w)) = hull (player w).
Proof.
  unfold playerCollisions. destruct (invincible (player w)); [reflexivity|].
  cbn [negb].
  rewrite playerVsBullets_iter, playerVsBosses_iter, playerVsEnemies_iter.
  cbn [player set_enemies]. rewrite !iter_takeHit_hull.
  cbn [player set_bullets]. apply iter_takeHit_hull.
Qed.

Lemma pickUp_hull (t : Z) (us : list PowerUp) (w : World) :
  hull (player (fst (pickUp t w us))) = hull (player w).
Proof.
  revert w. induction us as [|u rest IH]; intros w; [reflexivity|].
  cbn [pickUp]. destruct (playerTouchesPowerUp (player w) u).
  - match goal with |- context [pickUp t ?y rest] =>
      specialize (IH y); destruct (pickUp t y rest) as [z r] end.
    cbn in *. rewrite IH. destruct (u_type u); reflexivity.
  - specialize (IH w). destruct (pickUp t w rest) as [z r]. exact IH.
Qed.

Lemma player_before_collisions (i : Input) (w : World) :
  let w1 := bossWarning i
              (updateBosses i (updateBullets (shoot i (movePlayer i w)))) in
  player (updatePowerUps i (checkEscaped (updateEnemies i
            (spawnEnemies i (isEntering i w1) (bossEntrance i w1)))))
  = player (movePlayer i w).
Proof.
  cbv zeta.
  set (a := movePlayer i w).
  assert (E1 : player (updateBullets (shoot i a)) = player a)
    by (unfold updateBullets, shoot; destruct (fires i a); reflexivity).
  set (b := updateBullets (shoot i a)) in *. clearbody b.
  assert (E2 : player (updateBosses i b) = player b).
  { unfold updateBosses.
    destruct (stepBosses i (level b) (player b) 0 (bosses b)); reflexivity. }
  set (c := updateBosses i b) in *. clearbody c.
  assert (E3 : player (bossWarning i c) = player c).
  { unfold bossWarning. destruct (warningTriggers c); [|reflexivity].
    destruct (BOSS_CONFIGS (level c)); reflexivity. }
  set (d := bossWarning i c) in *.
  generalize (isEntering i d). intros en. clearbody d.
  assert (E4 : player (bossEntrance i d) = player d).
  { unfold bossEntrance. destruct (isEntering i d); reflexivity. }
  set (e := bossEntrance i d) in *. clearbody e.
  assert (E5 : player (spawnEnemies i en e) = player e).
  { unfold spawnEnemies. destruct (spawnAllowed en e); [|reflexivity].
    destruct (spawnInterval (level e) <? now i - lastEnemySpawn e);
      reflexivity. }
  set (f := spawnEnemies i en e) in *. clearbody f.
  assert (E6 : player (updateEnemies i f) = player f).
  { unfold updateEnemies.
    destruct (stepEnemies i (player f) (enemies f)); reflexivity. }
  set (g := updateEnemies i f) in *. clearbody g.
  assert (E7 : player (checkEscaped g) = player g).
  { unfold checkEscaped.
    destruct (0 <? List.length (filter hasEscaped (enemies g)))%nat;
      reflexivity. }
  set (h := checkEscaped g) in *. clearbody h.
  assert (E8 : player (updatePowerUps i h) = player h).
  { unfold updatePowerUps.
    destruct (15000 <? now i - lastPowerUpSpawn h); reflexivity. }
  congruence.
Qed.

(** After every tick of a running game the ship lies inside the field,
    wherever the pointer or the keys wanted it, and it keeps its size. *)
Theorem player_stays_in_field (i : Input) (w : World) :
  gameState w = PLAYING ->
  (p_width (player w) <= CANVAS_WIDTH)%Q ->
  (p_height (player w) <= CANVAS_HEIGHT)%Q ->
  inField (player (update i w))
  /\ p_width (player (update i w)) = p_width (player w)
  /\ p_height (player (update i w)) = p_height (player w).
Proof.
  intros Hg Hw Hh.
  destruct (movePlayer_inField i w Hw Hh) as (F & W & H).
  assert (E : hull (player (update i w)) = hull (player (movePlayer i w))).
  { unfold update. rewrite Hg.
    pose proof (player_before_collisions i w) as P. cbv zeta in P.
    match type of P with player ?x = _ => set (w1 := x) in * end.
    clearbody w1.
    destruct (mended_bulletPass w1) as [P2 _].
    pose proof (vitals_cleanupBosses (bulletPass w1)) as V.
    assert (P3 : player (cleanupBosses (bulletPass w1)) = player (bulletPass w1)).
    { unfold cleanupBosses.
      destruct (0 <? List.length (filter deadBoss (bosses (bulletPass w1))))%nat;
        [|reflexivity].
      match goal with |- context [noBoss ?x] => destruct (noBoss x) end;
        reflexivity. }
    set (w3 := cleanupBosses (bulletPass w1)) in *. clearbody w3.
    pose proof (playerCollisions_hull i w3) as P4.
    set (w4 := playerCollisions i w3) in *. clearbody w4.
    unfold pickUpPowerUps, updateTimers.
    pose proof (pickUp_hull (now i) (powerUps w4) w4) as P5.
    destruct (pickUp (now i) w4 (powerUps w4)) as [w5 us]. cbn [fst] in P5.
    cbn [player set_player set_powerUps].
    transitivity (hull (player w5)).
    - unfold hull.
      destruct (invincible (player w5) && (2000 <? now i - invincibleTimer (player w5)));
        match goal with |- context [isSome ?a && ?b] =>
          destruct (isSome a && b) end; reflexivity.
    - rewrite P5, P4. unfold hull. now rewrite P3, P2, P. }
  unfold hull in E. injection E as E1 E2 E3 E4.
  unfold inField in *. rewrite E1, E2, E3, E4. auto.
Qed.

(** ** Bosses stay, and leave only dead *)






(** ** The events of the simulation *)

Lemma extends_refl (w : World) : extends w w.
Proof. exists []. split; [now rewrite app_nil_r|constructor]. Qed.

Lemma extends_trans (a b c : World) : extends a b -> extends b c -> extends a c.
Proof.
  intros (l1 & E1 & F1) (l2 & E2 & F2). exists (l1 ++ l2). split.
  - rewrite E2, E1. now rewrite app_assoc.
  - apply Forall_app. auto.
Qed.

Lemma extends_same (w w' : World) : events w' = events w -> extends w w'.
Proof. intros E. exists []. split; [now rewrite app_nil_r|constructor]. Qed.

Lemma extends_emit (w : World) (ev : Event) : simEvent ev -> extends w (emit w ev).
Proof. intros H. exists [ev]. split; [reflexivity|]. now constructor. Qed.

Lemma extends_with (w x : World) (ev : Event) :
  extends w x -> simEvent ev -> extends w (emit x ev).
Proof. intros H S. eapply extends_trans; [exact H|]. now apply extends_emit. Qed.

Lemma extends_award (w : World) (e : Enemy) : extends w (award w e).
Proof.
  unfold award. apply extends_with; [|exact I]. apply extends_same. reflexivity.
Qed.

Lemma extends_levelUpCheck (w : World) : extends w (levelUpCheck w).
Proof.
  unfold levelUpCheck. destruct (noBoss w); [|apply extends_refl].
  destruct (level w * 2000 <=? score w); [|apply extends_refl].
  destruct ((Z.rem (level w + 1) 2 =? 0) && (lastLevelHealed w <? level w + 1));
    [destruct (health w <? PLAYER_MAX_HEALTH)|];
    match goal with |- context [(level ?x =? 5)] => destruct (level x =? 5) end;
    unfold reported;
    repeat first
      [ apply extends_refl
      | apply extends_with; [|cbn; auto 7]
      | match goal with
        | |- extends ?a (set_level ?b _) =>
            apply (extends_trans a b); [|apply extends_same; reflexivity]
        | |- extends ?a (set_lastLevelHealed ?b _) =>
            apply (extends_trans a b); [|apply extends_same; reflexivity]
        | |- extends ?a (set_health ?b _) =>
            apply (extends_trans a b); [|apply extends_same; reflexivity]
        end ].
Qed.

Lemma extends_killEnemy (w : World) (e : Enemy) : extends w (killEnemy w e).
Proof.
  unfold killEnemy. eapply extends_trans; [|apply extends_levelUpCheck].
  match goal with |- context [(10000 <=? ?s)] => destruct (10000 <=? s) end.
  - apply extends_with; [|cbn; unfold reported; cbn; auto 7].
    apply extends_with; [|cbn; unfold reported; cbn; auto 7].
    apply extends_award.
  - apply extends_with; [|cbn; unfold reported; cbn; auto 7].
    apply extends_award.
Qed.

Lemma extends_hitBoss (w : World) (b : Bullet) (e : Enemy) :
  extends w (fst (fst (hitBoss w b e))).
Proof.
  unfold hitBoss. destruct (bulletHits b e); [|apply extends_refl].
  match goal with |- context [(?h <=? 0)] => destruct (h <=? 0) end;
    [apply extends_award|apply extends_refl].
Qed.

Lemma extends_hitEnemy (w : World) (b : Bullet) (e : Enemy) :
  extends w (fst (fst (hitEnemy w b e))).
Proof.
  unfold hitEnemy. destruct (bulletHits b e); [|apply extends_refl].
  match goal with |- context [(?h <=? 0)] => destruct (h <=? 0) end;
    [apply extends_killEnemy|apply extends_refl].
Qed.

Lemma extends_bulletPass (w : World) : extends w (bulletPass w).
Proof.
  unfold bulletPass.
  assert (T : forall l : list Enemy, Forall (fun _ => True) l)
    by (induction l; constructor; auto).
  destruct (bulletLoop_rel extends (fun _ => True) (fun _ => True)
              extends_refl extends_trans
              (fun w b e _ => conj (extends_hitBoss w b e) I)
              (fun w b e _ => conj (extends_hitEnemy w b e) I)
              (fun w l _ _ => extends_same w (set_bosses w l) eq_refl)
              (fun w l _ _ => extends_same w (set_enemies w l) eq_refl)
              (bullets w) w (T _) (T _)) as (Q & _).
  destruct (bulletLoop w (bullets w)) as [w1 bs]. cbn [fst] in Q.
  eapply extends_trans; [exact Q|]. apply extends_same. reflexivity.
Qed.

Lemma extends_takeHit (u : bool) (t : Z) (w : World) :
  extends w (takeHit u t w).
Proof.
  unfold takeHit. destruct (shieldActive (player w)); destruct u;
    (eapply extends_trans; [|apply extends_same; reflexivity]);
    first [ apply extends_with; [apply extends_same; reflexivity
                                |cbn; unfold reported; cbn; auto 7]
          | apply extends_same; reflexivity ].
Qed.

Lemma extends_iter_takeHit (u : bool) (t : Z) (n : nat) (w : World) :
  extends w (Nat.iter n (takeHit u t) w).
Proof.
  induction n as [|n IH]; [apply extends_refl|].
  rewrite Nat.iter_succ. eapply extends_trans; [exact IH|].
  apply extends_takeHit.
Qed.

Lemma extends_playerCollisions (i : Input) (w : World) :
  extends w (playerCollisions i w).
Proof.
  unfold playerCollisions. destruct (invincible (player w));
    [apply extends_refl|]. cbn [negb].
  rewrite playerVsBullets_iter, playerVsBosses_iter, playerVsEnemies_iter.
  eapply extends_trans; [|apply extends_same; reflexivity].
  eapply extends_trans; [|apply extends_iter_takeHit].
  eapply extends_trans; [|apply extends_iter_takeHit].
  eapply extends_trans; [|apply extends_same; reflexivity].
  apply extends_iter_takeHit.
Qed.

Lemma extends_pickUp (t : Z) (us : list PowerUp) (w : World) :
  extends w (fst (pickUp t w us)).
Proof.
  revert w. induction us as [|u rest IH]; intros w; [apply extends_refl|].
  cbn [pickUp]. destruct (playerTouchesPowerUp (player w) u).
  - match goal with |- context [pickUp t ?y rest] =>
      assert (E : extends w y);
        [|specialize (IH y); destruct (pickUp t y rest) as [z r];
          eapply extends_trans; [exact E|exact IH]] end.
    destruct (u_type u).
    + apply extends_with; [apply extends_same; reflexivity|].
      cbn. unfold reported. cbn. auto 7.
    + apply extends_same. reflexivity.
  - specialize (IH w). destruct (pickUp t w rest) as [z r]. exact IH.
Qed.

Lemma extends_update (i : Input) (w : World) : extends w (update i w).
Proof.
  unfold update. destruct (gameState w); try apply extends_refl.
  assert (E1 : extends w (updateBosses i (updateBullets (shoot i (movePlayer i w))))).
  { apply extends_same. unfold updateBosses.
    match goal with |- context [stepBosses ?a ?b ?c ?d ?e] =>
      destruct (stepBosses a b c d e) end.
    unfold updateBullets, shoot, movePlayer.
    destruct (touch i) as [[tx ty]|];
      match goal with |- context [fires i ?x] => destruct (fires i x) end;
      reflexivity. }
  set (a := updateBosses i (updateBullets (shoot i (movePlayer i w)))) in *.
  clearbody a.
  assert (E2 : extends a (bossWarning i a)).
  { unfold bossWarning. destruct (warningTriggers a); [|apply extends_refl].
    destruct (BOSS_CONFIGS (level a)); [|apply extends_refl].
    eapply extends_trans; [|apply extends_same; reflexivity].
    apply extends_with; [apply extends_same; reflexivity|exact I]. }
  set (b := bossWarning i a) in *.
  generalize (isEntering i b). intros en. clearbody b.
  assert (E3 : extends b (updateEnemies i (spawnEnemies i en (bossEntrance i b)))).
  { apply extends_same. unfold updateEnemies.
    match goal with |- context [stepEnemies ?x ?y ?z] =>
      destruct (stepEnemies x y z) end.
    unfold spawnEnemies, bossEntrance.
    destruct (isEntering i b);
      match goal with |- context [spawnAllowed en ?x] =>
        destruct (spawnAllowed en x) end; try reflexivity;
      match goal with |- context [(spawnInterval ?x <? ?y)] =>
        destruct (spawnInterval x <? y) end; reflexivity. }
  set (c := updateEnemies i (spawnEnemies i en (bossEntrance i b))) in *.
  clearbody c.
  assert (E4 : extends c (checkEscaped c)).
  { unfold checkEscaped.
    destruct (0 <? List.length (filter hasEscaped (enemies c)))%nat;
      [|apply extends_refl].
    eapply extends_trans; [|apply extends_same; reflexivity].
    apply extends_with; [apply extends_same; reflexivity|exact I]. }
  set (d := checkEscaped c) in *. clearbody d.
  assert (E5 : extends d (updatePowerUps i d)).
  { apply extends_same. unfold updatePowerUps.
    destruct (15000 <? now i - lastPowerUpSpawn d); reflexivity. }
  set (e := updatePowerUps i d) in *. clearbody e.
  pose proof (extends_bulletPass e) as E6.
  set (f := bulletPass e) in *. clearbody f.
  assert (E7 : extends f (cleanupBosses f)).
  { unfold cleanupBosses.
    destruct (0 <? List.length (filter deadBoss (bosses f)))%nat;
      [|apply extends_refl].
    match goal with |- context [noBoss ?x] => destruct (noBoss x) end.
    - apply extends_with; [apply extends_same; reflexivity|exact I].
    - apply extends_same. reflexivity. }
  set (g := cleanupBosses f) in *. clearbody g.
  pose proof (extends_playerCollisions i g) as E8.
  set (h := playerCollisions i g) in *. clearbody h.
  assert (E9 : extends h (updateTimers i (pickUpPowerUps i h))).
  { unfold pickUpPowerUps, updateTimers.
    pose proof (extends_pickUp (now i) (powerUps h) h) as P.
    destruct (pickUp (now i) h (powerUps h)) as [z us]. cbn [fst] in P.
    eapply extends_trans; [exact P|]. apply extends_same. reflexivity. }
  repeat (eapply extends_trans; [eassumption|]). apply extends_refl.
Qed.

(** The log of host callbacks is only ever appended to by a tick, and the
    achievements a tick reports are among ["first_blood"], ["ace"],
    ["level_up"], ["shield_master"] and ["triple_threat"]: the other seven
    entries of the achievement list are never reported. *)
Theorem tick_reports_five_achievements (i : Input) (w : World) :
  exists new,
    events (update i w) = events w ++ new
    /\ (forall id, In (AchievementUnlock id) new ->
          In id reported
          /\ In id (map a_id ACHIEVEMENTS_LIST)
          /\ ~ In id ["survivor"; "boss_slayer"; "untouchable"; "power_hungry";
                      "planet_traveler"; "order_restorer";
                      "speed_demon"]%string).
Proof.
  destruct (extends_update i w) as (new & E & F).
  exists new. split; [exact E|]. intros id Hid.
  rewrite Forall_forall in F. specialize (F _ Hid). cbn in F.
  split; [exact F|].
  unfold reported in F. cbn in F.
  destruct F as [<- | [<- | [<- | [<- | [<- | []]]]]];
    (split; [cbn; tauto|]);
    cbn; intros C;
    repeat (destruct C as [C | C]; [discriminate|]); exact C.
Qed.

End Further.

(** ** The further statements at sample worlds *)

Lemma ranged_enemy_holds_witness :
  let e := rangedEnemy 100 200 in
  e_type e = RANGED /\ (200 <= e_y e)%Q
  /\ e_y (fst (stepEnemy (trig := sampleTrig) (idle 5000) player0 e)) = e_y e
  /\ hasEscaped (fst (stepEnemy (trig := sampleTrig) (idle 5000) player0 e))
     = false.
Proof.
  intros e.
  pose proof (ranged_enemy_holds (trig := sampleTrig) (idle 5000) player0 e
                eq_refl) as (A & B & _).
  assert (H200 : (200 <= e_y e)%Q) by (cbn; lra).
  split; [reflexivity|]. split; [exact H200|]. split.
  - exact (proj1 (A H200)).
  - apply B; cbn; unfold CANVAS_HEIGHT; lra.
Defined.

Lemma rain_has_eight_columns_witness :
  (0 <= 0.5)%Q /\ (0.5 < 1)%Q
  /\ List.length (verticalRain 0.5 guard) = 8%nat.
Proof.
  assert (H0 : (0 <= 0.5)%Q) by lra. assert (H1 : (0.5 < 1)%Q) by lra.
  split; [exact H0|]. split; [exact H1|].
  exact (proj1 (rain_has_eight_columns 0.5 guard H0 H1)).
Defined.

Lemma boss_attack_patterns_witness :
  (0 <= randPattern (idle 4016) 0)%Q /\ (randPattern (idle 4016) 0 < 1)%Q
  /\ 5 < 50
  /\ 0 <= Qfloor (randPattern (idle 4016) 0 * 4) <= 3.
Proof.
  assert (H0 : (0 <= randPattern (idle 4016) 0)%Q) by (cbn; lra).
  assert (H1 : (randPattern (idle 4016) 0 < 1)%Q) by (cbn; lra).
  assert (G0 : (0 <= randGap (idle 4016) 0)%Q) by (cbn; lra).
  assert (G1 : (randGap (idle 4016) 0 < 1)%Q) by (cbn; lra).
  assert (L : 5 < 50) by lia.
  split; [exact H0|]. split; [exact H1|]. split; [exact L|].
  exact (proj1 (boss_attack_patterns (trig := sampleTrig) (idle 4016) 5
                  player0 0 guard H0 H1 G0 G1 L)).
Defined.

Lemma boundedTrig_cos (a : Q) :
  (-1 <= cos (Trig := boundedTrig) a)%Q /\ (cos (Trig := boundedTrig) a <= 1)%Q.
Proof.
  cbn. split.
  - apply Qmax_lower.
  - apply Qmax_upper; [lra|apply Qmin_left].
Defined.

Lemma marked_bullets_are_culled_witness :
  let w := set_bullets world0
             [mkBullet IdFresh 390 (-100) 6 6 4 1 0 true;
              mkBullet IdFresh 380 (CANVAS_HEIGHT + 100) 4 15 15 1 0 false] in
  bullets (updateBullets (trig := boundedTrig) w) = [].
Proof.
  intros w.
  apply (marked_bullets_are_culled (trig := boundedTrig) w boundedTrig_cos).
  unfold w. cbn [bullets set_bullets].
  constructor; [|constructor; [|constructor]]; cbn;
    (split; [lra|]); (split; [lra|]); auto.
Defined.

Lemma no_such_achievement :
  Forall (fun a => a_id a <> "nope"%string) ACHIEVEMENTS_LIST.
Proof. unfold ACHIEVEMENTS_LIST. repeat constructor; discriminate. Defined.

Lemma unlock_achievement_witness :
  let s := mkTrophies ACHIEVEMENTS_LIST None None in
  Forall (fun a => a_id a <> "nope"%string) (achievements s)
  /\ handleAchievementUnlock "nope" s = s
  /\ handleAchievementUnlock "ace" (handleAchievementUnlock "ace" s)
     = handleAchievementUnlock "ace" s.
Proof.
  intros s. split; [exact no_such_achievement|]. split.
  - exact (proj1 (unlock_achievement "nope" s) no_such_achievement).
  - exact (proj1 (proj2 (unlock_achievement "ace" s))).
Defined.

Lemma achievement_ids_distinct : NoDup (map a_id ACHIEVEMENTS_LIST).
Proof.
  cbn. repeat (constructor;
    [cbn; intros H; repeat (destruct H as [H|H]; [discriminate|]); exact H|]).
  constructor.
Defined.

Lemma achievements_round_trip_witness :
  let s := handleAchievementUnlock "ace" (mkTrophies ACHIEVEMENTS_LIST None None) in
  NoDup (map a_id ACHIEVEMENTS_LIST)
  /\ loadAchievements s = s.
Proof.
  intros s. split; [exact achievement_ids_distinct|].
  apply (proj2 (achievements_round_trip
                  (mkTrophies ACHIEVEMENTS_LIST None None)
                  achievement_ids_distinct)).
  cbv. discriminate.
Defined.

Lemma level_grows_over_ticks_and_timers_witness :
  level level5World
  <= level (run (trig := sampleTrig) [Frame (idle 1000); Timers 4000]
              level5World).
Proof.
  apply (level_grows_over_ticks_and_timers (trig := sampleTrig)).
  repeat constructor.
Defined.

Lemma boss_on_field_witness :
  let w := set_bosses level5World [guard] in
  gameState w = PLAYING /\ noBoss w = false
  /\ health (update (trig := sampleTrig) (idle 4016) w) <= health w.
Proof.
  intros w.
  pose proof (boss_on_field (trig := sampleTrig) (idle 4016) w eq_refl eq_refl)
    as (_ & _ & H & _).
  split; [reflexivity|]. split; [reflexivity|exact H].
Defined.

Lemma world0_sound : sound world0.
Proof. unfold sound. cbn. repeat split; try constructor. lia. Defined.

Lemma score_never_negative_witness :
  sound world0
  /\ 0 <= score (run (trig := sampleTrig)
                   [Frame (idle 1000); SetGameState PAUSED; Timers 4000]
                   world0).
Proof.
  split; [exact world0_sound|].
  exact (proj1 (score_never_negative (trig := sampleTrig) _ world0
                  world0_sound)).
Defined.

Lemma player_stays_in_field_witness :
  gameState world0 = PLAYING
  /\ (p_width (player world0) <= CANVAS_WIDTH)%Q
  /\ inField (player (update (trig := sampleTrig) (idle 1000) world0)).
Proof.
  assert (Hw : (p_width (player world0) <= CANVAS_WIDTH)%Q)
    by (cbn; unfold PLAYER_SIZE, CANVAS_WIDTH; lra).
  assert (Hh : (p_height (player world0) <= CANVAS_HEIGHT)%Q)
    by (cbn; unfold PLAYER_SIZE, CANVAS_HEIGHT; lra).
  split; [reflexivity|]. split; [exact Hw|].
  exact (proj1 (player_stays_in_field (trig := sampleTrig) (idle 1000) world0
                  eq_refl Hw Hh)).
Defined.


Lemma health_never_above_max_witness :
  health world0 <= PLAYER_MAX_HEALTH
  /\ health (update (trig := sampleTrig) (idle 1000) world0)
     <= PLAYER_MAX_HEALTH.
Proof.
  assert (H : health world0 <= PLAYER_MAX_HEALTH) by (cbn; lia).
  split; [exact H|].
  exact (health_never_above_max (trig := sampleTrig) (idle 1000) world0 H).
Defined.

Lemma invincible_tick_witness :
  invincible (player invincibleWorld) = true
  /\ health invincibleWorld
     <= health (update (trig := sampleTrig) (idle 1000) invincibleWorld).
Proof.
  split; [reflexivity|].
  exact (proj1 (invincible_tick (trig := sampleTrig) (idle 1000)
                  invincibleWorld eq_refl)).
Defined.

(** * Power-ups and the spawn of enemies *)

Section Supplies.

Context {trig : Trig}.

Local Open Scope Z_scope.

Lemma touch_hull (p q : Player) (u : PowerUp) :
  hull p = hull q -> playerTouchesPowerUp p u = playerTouchesPowerUp q u.
Proof.
  unfold hull, playerTouchesPowerUp. intros H. injection H as -> -> -> ->.
  reflexivity.
Qed.

Lemma taken_hull (p q : Player) (u : PowerUp) :
  hull p = hull q -> taken p u = taken q u.
Proof. intros H. unfold taken. now rewrite (touch_hull p q u H). Qed.

Lemma pickUp_spec (t : Z) (us : list PowerUp) (w : World) :
  let p := player w in
  let touched := filter (playerTouchesPowerUp p) us in
  let w' := fst (pickUp t w us) in
  snd (pickUp t w us) = map (taken p) us
  /\ shieldActive (player w') = shieldActive p || existsb isShield touched
  /\ gear (player w')
     = (if forallb isShield touched then gear p else (Some TRIPLE_SHOT, t))
  /\ events w'
     = events w ++ map (fun _ => AchievementUnlock "triple_threat")
                       (filter (fun u => negb (isShield u)) touched)
  /\ hull (player w') = hull p.
Proof.
  revert w. induction us as [|u rest IH]; intros w; cbv zeta.
  - cbn. rewrite orb_false_r, app_nil_r. repeat split.
  - cbn [pickUp filter map]. unfold taken at 1.
    destruct (playerTouchesPowerUp (player w) u) eqn:T.
    + match goal with |- context [pickUp t ?y rest] => set (w1 := y) end.
      assert (Hh : hull (player w1) = hull (player w))
        by (unfold w1; destruct (u_type u); reflexivity).
      specialize (IH w1). cbv zeta in IH.
      rewrite (filter_ext _ _ (fun x => touch_hull _ _ x Hh)) in IH.
      rewrite (map_ext _ _ (fun x => taken_hull _ _ x Hh)) in IH.
      destruct IH as (A & B & C & D & E).
      destruct (pickUp t w1 rest) as [w2 r]. cbn [fst snd] in *.
      set (touched := filter (playerTouchesPowerUp (player w)) rest) in *.
      clearbody touched.
      split; [now rewrite A|].
      cbn [existsb forallb filter]. unfold isShield at 1 3 5.
      rewrite B, C, D, E, Hh. unfold w1.
      destruct (u_type u); cbn.
      * repeat split.
        -- destruct (forallb isShield touched); reflexivity.
        -- now rewrite <- app_assoc.
      * repeat split. now rewrite orb_true_r.
    + specialize (IH w). cbv zeta in IH.
      destruct IH as (A & B & C & D & E).
      destruct (pickUp t w rest) as [w2 r]. cbn [fst snd] in *.
      split; [now rewrite A|]. auto.
Qed.


Lemma untouched_untaken (p : Player) (l : list PowerUp) :
  filter (playerTouchesPowerUp p) l = [] -> map (taken p) l = l.
Proof.
  induction l as [|u rest IH]; [reflexivity|]. cbn. unfold taken at 1.
  destruct (playerTouchesPowerUp p u); [discriminate|].
  intros H. now rewrite IH.
Qed.

Lemma pickUp_clocks (t : Z) (us : list PowerUp) (w : World) :
  let w' := fst (pickUp t w us) in
  lastPowerUpSpawn w' = lastPowerUpSpawn w
  /\ lastEnemySpawn w' = lastEnemySpawn w
  /\ score w' = score w /\ bullets w' = bullets w.
Proof.
  revert w. induction us as [|u rest IH]; intros w; cbn; [repeat split|].
  destruct (playerTouchesPowerUp (player w) u).
  - match goal with |- context [pickUp t ?x rest] => set (w1 := x) end.
    assert (lastPowerUpSpawn w1 = lastPowerUpSpawn w
            /\ lastEnemySpawn w1 = lastEnemySpawn w
            /\ score w1 = score w /\ bullets w1 = bullets w)
      as (A & B & C & D) by (unfold w1; destruct (u_type u); repeat split).
    specialize (IH w1). destruct (pickUp t w1 rest) as [w2 r]. cbn in *.
    destruct IH as (A' & B' & C' & D'). repeat split; congruence.
  - specialize (IH w). destruct (pickUp t w rest) as [w2 r]. exact IH.
Qed.

(** Picking up power-ups.  Every power-up the ship touches is put below
    the field, the others are left alone; a SHIELD raises the shield and
    nothing else, a TRIPLE_SHOT becomes the power-up of the ship, timed
    from this tick, and reports ["triple_threat"] once per power-up;
    position, health, level, score, enemies and bullets are as they
    were. *)
Theorem power_up_pick_up (i : Input) (w : World) :
  let p := player w in
  let touched := filter (playerTouchesPowerUp p) (powerUps w) in
  let w' := pickUpPowerUps i w in
  powerUps w' = map (taken p) (powerUps w)
  /\ (touched = [] -> powerUps w' = powerUps w)
  /\ shieldActive (player w') = shieldActive p || existsb isShield touched
  /\ gear (player w')
     = (if forallb isShield touched then gear p
        else (Some TRIPLE_SHOT, now i))
  /\ events w'
     = events w ++ map (fun _ => AchievementUnlock "triple_threat")
                       (filter (fun u => negb (isShield u)) touched)
  /\ hull (player w') = hull p
  /\ health w' = health w /\ level w' = level w /\ score w' = score w
  /\ enemies w' = enemies w /\ bosses w' = bosses w
  /\ bullets w' = bullets w.
Proof.
  cbv zeta. unfold pickUpPowerUps.
  destruct (pickUp_spec (now i) (powerUps w) w) as (A & B & C & D & E).
  destruct (pickUp_fields (now i) (powerUps w) w) as (F1 & F2 & F3 & _).
  destruct (pickUp_vitals (now i) (powerUps w) w) as (V1 & _).
  destruct (pickUp_clocks (now i) (powerUps w) w) as (_ & _ & K3 & K4).
  destruct (pickUp (now i) w (powerUps w)) as [w1 us]. cbn [fst snd] in *.
  cbn [powerUps player events health level score enemies bosses bullets
       set_powerUps].
  split; [exact A|]. split.
  { intros T. rewrite A. now apply untouched_untaken. }
  repeat split; assumption.
Qed.

Lemma marked_fall_out (p : Player) (l : list PowerUp) :
  Forall (fun u => (-100 <= u_speed u)%Q) l ->
  filter (fun u => Qltb (u_y u) CANVAS_HEIGHT)
    (map (fun u => set_u_y u (u_y u + u_speed u)) (map (taken p) l))
  = filter (fun u => Qltb (u_y u) CANVAS_HEIGHT)
      (map (fun u => set_u_y u (u_y u + u_speed u))
           (filter (fun u => negb (playerTouchesPowerUp p u)) l)).
Proof.
  induction 1 as [|u rest Hu _ IH]; [reflexivity|].
  cbn [map filter].
  destruct (playerTouchesPowerUp p u) eqn:T; cbn [negb map filter].
  - replace (taken p u) with (set_u_y u (CANVAS_HEIGHT + 100))
      by (unfold taken; now rewrite T).
    cbn [u_y u_speed set_u_y].
    destruct (Qltb (CANVAS_HEIGHT + 100 + u_speed u) CANVAS_HEIGHT) eqn:L.
    + apply Qltb_lt in L. lra.
    + exact IH.
  - replace (taken p u) with u by (unfold taken; now rewrite T).
    now rewrite IH.
Qed.

(** The mark of the pick-up works: with no power-up rising faster than
    100 per tick, the power-ups after the next [updatePowerUps] are those
    that would be there had the picked ones been taken from the list. *)
Theorem picked_power_ups_are_removed (i j : Input) (w : World) :
  Forall (fun u => (-100 <= u_speed u)%Q) (powerUps w) ->
  powerUps (updatePowerUps j (pickUpPowerUps i w))
  = powerUps (updatePowerUps j
      (set_powerUps w
         (filter (fun u => negb (playerTouchesPowerUp (player w) u))
                 (powerUps w)))).
Proof.
  intros H. unfold pickUpPowerUps.
  destruct (pickUp_spec (now i) (powerUps w) w) as (A & _).
  destruct (pickUp_clocks (now i) (powerUps w) w) as (K & _).
  destruct (pickUp (now i) w (powerUps w)) as [w1 us]. cbn [fst snd] in *.
  unfold updatePowerUps.
  cbn [lastPowerUpSpawn set_powerUps]. rewrite K.
  destruct (15000 <? now j - lastPowerUpSpawn w);
    cbn [powerUps set_powerUps set_lastPowerUpSpawn]; rewrite A.
  - rewrite !map_app, !filter_app. f_equal. now apply marked_fall_out.
  - now apply marked_fall_out.
Qed.

Lemma kept_refl (w : World) : kept w w.
Proof. unfold kept. auto. Qed.

Lemma kept_trans (a b c : World) : kept a b -> kept b c -> kept a c.
Proof.
  unfold kept. intros (A & B & C & D) (A' & B' & C' & D').
  repeat split; congruence.
Qed.

Ltac by_cases :=
  repeat match goal with
         | |- context [if ?c then _ else _] => destruct c
         | |- context [match ?c with _ => _ end] => destruct c
         end;
  unfold kept; cbn; auto.

Lemma kept_movePlayer (i : Input) (w : World) : kept w (movePlayer i w).
Proof. unfold movePlayer. by_cases. Qed.

Lemma kept_shoot (i : Input) (w : World) : kept w (shoot i w).
Proof. unfold shoot. by_cases. Qed.

Lemma kept_updateBullets (w : World) : kept w (updateBullets w).
Proof. unfold updateBullets, kept. cbn. auto. Qed.

Lemma kept_updateBosses (i : Input) (w : World) : kept w (updateBosses i w).
Proof.
  unfold updateBosses.
  destruct (stepBosses i (level w) (player w) 0 (bosses w)).
  unfold kept. cbn. auto.
Qed.

Lemma kept_bossWarning (i : Input) (w : World) : kept w (bossWarning i w).
Proof.
  unfold bossWarning. destruct (warningTriggers w); [|apply kept_refl].
  destruct (BOSS_CONFIGS (level w)); unfold kept; cbn; auto.
Qed.

Lemma kept_bossEntrance (i : Input) (w : World) : kept w (bossEntrance i w).
Proof.
  unfold bossEntrance. destruct (isEntering i w); unfold kept; cbn; auto.
Qed.

Lemma kept_updateEnemies (i : Input) (w : World) : kept w (updateEnemies i w).
Proof.
  unfold updateEnemies.
  destruct (stepEnemies i (player w) (enemies w)). unfold kept. cbn. auto.
Qed.

Lemma kept_checkEscaped (w : World) : kept w (checkEscaped w).
Proof.
  unfold checkEscaped.
  destruct (0 <? List.length (filter hasEscaped (enemies w)))%nat;
    unfold kept; cbn; auto.
Qed.


Lemma kept_award (w : World) (e : Enemy) : kept w (award w e).
Proof. unfold award, kept. cbn. auto. Qed.

Lemma kept_levelUpCheck (w : World) : kept w (levelUpCheck w).
Proof. unfold levelUpCheck. by_cases. Qed.

Lemma kept_killEnemy (w : World) (e : Enemy) : kept w (killEnemy w e).
Proof.
  unfold killEnemy. eapply kept_trans; [|apply kept_levelUpCheck].
  match goal with |- context [(10000 <=? ?s)] => destruct (10000 <=? s) end;
    unfold kept, award; cbn; auto.
Qed.

Lemma kept_hitBoss (w : World) (b : Bullet) (e : Enemy) :
  kept w (fst (fst (hitBoss w b e))).
Proof.
  unfold hitBoss. destruct (bulletHits b e); [|apply kept_refl].
  match goal with |- context [(?h <=? 0)] => destruct (h <=? 0) end;
    [apply kept_award|apply kept_refl].
Qed.

Lemma kept_hitEnemy (w : World) (b : Bullet) (e : Enemy) :
  kept w (fst (fst (hitEnemy w b e))).
Proof.
  unfold hitEnemy. destruct (bulletHits b e); [|apply kept_refl].
  match goal with |- context [(?h <=? 0)] => destruct (h <=? 0) end;
    [apply kept_killEnemy|apply kept_refl].
Qed.

Lemma kept_set_bosses (w : World) (l : list Enemy) : kept w (set_bosses w l).
Proof. unfold kept. cbn. auto. Qed.

Lemma kept_set_enemies (w : World) (l : list Enemy) : kept w (set_enemies w l).
Proof. unfold kept. cbn. auto. Qed.

Lemma kept_set_bullets (w : World) (l : list Bullet) : kept w (set_bullets w l).
Proof. unfold kept. cbn. auto. Qed.

Lemma kept_bulletPass (w : World) : kept w (bulletPass w).
Proof.
  unfold bulletPass.
  assert (T : forall l : list Enemy, Forall (fun _ => True) l)
    by (induction l; constructor; auto).
  destruct (bulletLoop_rel kept (fun _ => True) (fun _ => True)
              kept_refl kept_trans
              (fun w b e _ => conj (kept_hitBoss w b e) I)
              (fun w b e _ => conj (kept_hitEnemy w b e) I)
              (fun w l _ _ => kept_set_bosses w l)
              (fun w l _ _ => kept_set_enemies w l)
              (bullets w) w (T _) (T _)) as (Q & _).
  destruct (bulletLoop w (bullets w)) as [w1 bs]. cbn [fst] in Q.
  eapply kept_trans; [exact Q|].
  eapply kept_trans; [apply kept_set_bullets|apply kept_set_enemies].
Qed.

Lemma kept_cleanupBosses (w : World) : kept w (cleanupBosses w).
Proof.
  unfold cleanupBosses.
  destruct (0 <? List.length (filter deadBoss (bosses w)))%nat;
    [|apply kept_refl].
  match goal with |- context [noBoss ?x] => destruct (noBoss x) end;
    unfold kept; cbn; auto.
Qed.

Lemma cleanupBosses_player (w : World) :
  player (cleanupBosses w) = player w.
Proof.
  unfold cleanupBosses.
  destruct (0 <? List.length (filter deadBoss (bosses w)))%nat; [|reflexivity].
  match goal with |- context [noBoss ?x] => destruct (noBoss x) end;
    reflexivity.
Qed.

Lemma kept_takeHit (u : bool) (t : Z) (w : World) : kept w (takeHit u t w).
Proof.
  unfold takeHit, kept. destruct (shieldActive (player w)); destruct u; cbn;
    auto.
Qed.

Lemma kept_iter (u : bool) (t : Z) (n : nat) (w : World) :
  kept w (Nat.iter n (takeHit u t) w).
Proof.
  induction n as [|n IH]; [apply kept_refl|].
  rewrite Nat.iter_succ. eapply kept_trans; [exact IH|apply kept_takeHit].
Qed.

Lemma kept_playerCollisions (i : Input) (w : World) :
  kept w (playerCollisions i w).
Proof.
  unfold playerCollisions. destruct (invincible (player w));
    [apply kept_refl|]. cbn [negb].
  rewrite playerVsBullets_iter, playerVsBosses_iter, playerVsEnemies_iter.
  eapply kept_trans; [|apply kept_set_enemies].
  eapply kept_trans; [|apply kept_iter].
  eapply kept_trans; [|apply kept_iter].
  eapply kept_trans; [|apply kept_set_bullets].
  apply kept_iter.
Qed.

Lemma updateTimers_gear (i : Input) (w : World) :
  let p := player w in
  gear (player (updateTimers i w))
  = (if isSome (activePowerUp p)
        && (POWERUP_DURATION <? now i - powerUpTimer p)
     then (None, powerUpTimer p) else gear p)
  /\ powerUps (updateTimers i w) = powerUps w
  /\ lastPowerUpSpawn (updateTimers i w) = lastPowerUpSpawn w
  /\ lastEnemySpawn (updateTimers i w) = lastEnemySpawn w
  /\ enemies (updateTimers i w) = enemies w.
Proof.
  cbv zeta. unfold updateTimers.
  destruct (invincible (player w) && (2000 <? now i - invincibleTimer (player w)));
    cbn;
    destruct (isSome (activePowerUp (player w))
              && (POWERUP_DURATION <? now i - powerUpTimer (player w)));
    cbn; auto.
Qed.

Lemma updatePowerUps_supply (i : Input) (a b : World) :
  supply a = supply b ->
  powerUps (updatePowerUps i a) = powerUps (updatePowerUps i b)
  /\ lastPowerUpSpawn (updatePowerUps i a)
     = (if 15000 <? now i - lastPowerUpSpawn b then now i
        else lastPowerUpSpawn b)
  /\ gear (player (updatePowerUps i a)) = gear (player a)
  /\ lastEnemySpawn (updatePowerUps i a) = lastEnemySpawn a
  /\ enemies (updatePowerUps i a) = enemies a.
Proof.
  unfold supply. intros H. injection H as H1 H2. unfold updatePowerUps.
  rewrite H1, H2.
  destruct (15000 <? now i - lastPowerUpSpawn b); cbn; rewrite ?H1, ?H2;
    auto.
Qed.

Lemma kept_spawnEnemies (i : Input) (en : bool) (w : World) :
  powerUps (spawnEnemies i en w) = powerUps w
  /\ lastPowerUpSpawn (spawnEnemies i en w) = lastPowerUpSpawn w
  /\ gear (player (spawnEnemies i en w)) = gear (player w).
Proof.
  unfold spawnEnemies. destruct (spawnAllowed en w); [|auto].
  destruct (spawnInterval (level w) <? now i - lastEnemySpawn w); cbn; auto.
Qed.

(** The world a tick hands to its power-up step. *)
Lemma supply_before_powerUps (i : Input) (w : World) :
  let w1 := bossWarning i
              (updateBosses i (updateBullets (shoot i (movePlayer i w)))) in
  let w0 := checkEscaped (updateEnemies i
              (spawnEnemies i (isEntering i w1) (bossEntrance i w1))) in
  supply w0 = supply w /\ gear (player w0) = gear (player w).
Proof.
  cbv zeta.
  set (w1 := bossWarning i
               (updateBosses i (updateBullets (shoot i (movePlayer i w))))).
  assert (K1 : kept w w1).
  { unfold w1.
    eapply kept_trans; [|apply kept_bossWarning].
    eapply kept_trans; [|apply kept_updateBosses].
    eapply kept_trans; [|apply kept_updateBullets].
    eapply kept_trans; [|apply kept_shoot]. apply kept_movePlayer. }
  generalize (isEntering i w1). intros en. clearbody w1.
  pose proof (kept_bossEntrance i w1) as K2.
  set (x := bossEntrance i w1) in *. clearbody x.
  destruct (kept_spawnEnemies i en x) as (S1 & S2 & S3).
  set (y := spawnEnemies i en x) in *. clearbody y.
  assert (K3 : kept y (checkEscaped (updateEnemies i y)))
    by (eapply kept_trans; [apply kept_updateEnemies|apply kept_checkEscaped]).
  set (z := checkEscaped (updateEnemies i y)) in *. clearbody z.
  unfold kept, supply in *.
  destruct K1 as (A1 & B1 & C1 & _), K2 as (A2 & B2 & C2 & _),
    K3 as (A3 & B3 & C3 & _).
  split; [f_equal|]; congruence.
Qed.


(** Power-ups over a whole tick of a running game.  The power-ups fall and
    one may be supplied, and then those the ship (where the tick has moved
    it) touches are put below the field.  If a TRIPLE_SHOT is among them
    the ship carries it after the tick, timed from this tick; if not, a
    power-up the ship carries is kept with its time as long as no more
    than POWERUP_DURATION has passed since it was picked up, and is
    dropped in the first tick after that.  So after every tick a power-up
    that is carried is at most POWERUP_DURATION old. *)
Theorem power_ups_over_a_tick (i : Input) (w : World) :
  gameState w = PLAYING ->
  let p1 := player (movePlayer i w) in
  let fallen := powerUps (updatePowerUps i w) in
  let touched := filter (playerTouchesPowerUp p1) fallen in
  let p := player w in
  let p' := player (update i w) in
  powerUps (update i w) = map (taken p1) fallen
  /\ lastPowerUpSpawn (update i w)
     = (if 15000 <? now i - lastPowerUpSpawn w then now i
        else lastPowerUpSpawn w)
  /\ (forallb isShield touched = false ->
      gear p' = (Some TRIPLE_SHOT, now i))
  /\ (forallb isShield touched = true ->
      (now i - powerUpTimer p <= POWERUP_DURATION -> gear p' = gear p)
      /\ (POWERUP_DURATION < now i - powerUpTimer p ->
          gear p' = (None, powerUpTimer p)))
  /\ (forall ty, activePowerUp p' = Some ty ->
        now i - powerUpTimer p' <= POWERUP_DURATION).
Proof.
  intros Hg. cbv zeta. unfold update. rewrite Hg.
  destruct (supply_before_powerUps i w) as (S0 & G0). cbv zeta in S0, G0.
  pose proof (player_before_collisions i w) as P. cbv zeta in P.
  match type of S0 with supply ?x = _ => set (w0 := x) in * end.
  clearbody w0.
  destruct (updatePowerUps_supply i w0 w S0) as (U1 & U2 & U3 & _).
  set (v := updatePowerUps i w0) in *. clearbody v.
  assert (K : kept v (playerCollisions i (cleanupBosses (bulletPass v)))).
  { eapply kept_trans; [apply kept_bulletPass|].
    eapply kept_trans; [apply kept_cleanupBosses|].
    apply kept_playerCollisions. }
  assert (H4 : hull (player (playerCollisions i (cleanupBosses (bulletPass v))))
               = hull (player (movePlayer i w))).
  { rewrite playerCollisions_hull, cleanupBosses_player.
    destruct (mended_bulletPass v) as [-> _]. now rewrite P. }
  set (w4 := playerCollisions i (cleanupBosses (bulletPass v))) in *.
  clearbody w4. destruct K as (K1 & K2 & K3 & _).
  unfold pickUpPowerUps.
  destruct (pickUp_spec (now i) (powerUps w4) w4) as (A & _ & C & _).
  destruct (pickUp_clocks (now i) (powerUps w4) w4) as (L & _).
  cbv zeta in A, C.
  destruct (pickUp (now i) w4 (powerUps w4)) as [w5 us].
  cbn [fst snd] in A, C, L.
  rewrite (filter_ext _ _ (fun x => touch_hull _ _ x H4)) in C.
  rewrite (map_ext _ _ (fun x => taken_hull _ _ x H4)) in A.
  rewrite K1, U1 in A, C. rewrite K3, U3, G0 in C. rewrite K2, U2 in L.
  destruct (updateTimers_gear i (set_powerUps w5 us)) as (T1 & T2 & T3 & _).
  cbv zeta in T1.
  cbn [player powerUps lastPowerUpSpawn set_powerUps] in T1, T2, T3.
  set (X := updateTimers i (set_powerUps w5 us)) in *.
  change (activePowerUp (player X)) with (fst (gear (player X))).
  change (powerUpTimer (player X)) with (snd (gear (player X))).
  rewrite T2, T3, T1. clear T1 T2 T3. clearbody X.
  set (touched := filter (playerTouchesPowerUp (player (movePlayer i w)))
                    (powerUps (updatePowerUps i w))) in *.
  clearbody touched.
  split; [exact A|]. split; [exact L|].
  assert (D0 : (POWERUP_DURATION <? now i - now i) = false)
    by (rewrite Z.sub_diag; reflexivity).
  unfold gear in C |- *.
  destruct (forallb isShield touched); injection C as C1 C2; rewrite C1, C2.
  - split; [discriminate|]. split.
    + intros _. split.
      * intros Hle.
        replace (POWERUP_DURATION <? now i - powerUpTimer (player w))
          with false by (symmetry; apply Z.ltb_ge; exact Hle).
        now rewrite andb_false_r.
      * intros Hlt.
        replace (POWERUP_DURATION <? now i - powerUpTimer (player w))
          with true by (symmetry; apply Z.ltb_lt; exact Hlt).
        rewrite andb_true_r.
        destruct (activePowerUp (player w)); reflexivity.
    + intros ty.
      destruct (POWERUP_DURATION <? now i - powerUpTimer (player w)) eqn:E.
      * rewrite andb_true_r.
        destruct (activePowerUp (player w)); cbn; discriminate.
      * rewrite andb_false_r. cbn [fst snd]. intros _. now apply Z.ltb_ge.
  - cbn [isSome andb]. rewrite D0. split; [reflexivity|].
    split; [discriminate|]. intros ty _. cbn [snd]. rewrite Z.sub_diag.
    unfold POWERUP_DURATION. lia.
Qed.


(** ** The spawn of regular enemies over a tick *)

Lemma gate_refl (w : World) : gate w w.
Proof. unfold gate. repeat split; auto. Qed.

Lemma gate_trans (a b c : World) : gate a b -> gate b c -> gate a c.
Proof.
  unfold gate. intros (A & B & C & D & E) (A' & B' & C' & D' & E').
  repeat split; try congruence; [auto|lia].
Qed.

Lemma gate_movePlayer (i : Input) (w : World) : gate w (movePlayer i w).
Proof.
  unfold movePlayer.
  match goal with |- context [let '(x, y) := ?m in _] =>
    destruct m as [x y] end.
  unfold gate, noBoss. cbn. repeat split; auto.
Qed.

Lemma gate_shoot (i : Input) (w : World) : gate w (shoot i w).
Proof.
  unfold shoot. destruct (fires i w); unfold gate, noBoss; cbn;
    repeat split; auto.
Qed.

Lemma gate_updateBullets (w : World) : gate w (updateBullets w).
Proof. unfold updateBullets, gate, noBoss. cbn. repeat split; auto. Qed.

Lemma gate_updateBosses (i : Input) (w : World) : gate w (updateBosses i w).
Proof.
  unfold updateBosses.
  pose proof (stepBosses_length i (level w) (player w) (bosses w) 0) as L.
  destruct (stepBosses i (level w) (player w) 0 (bosses w)) as [bs shots].
  cbn [fst] in L. unfold gate, noBoss. cbn. rewrite L. repeat split; auto.
Qed.

Lemma gate_bossWarning (i : Input) (w : World) : gate w (bossWarning i w).
Proof.
  unfold bossWarning. destruct (warningTriggers w); [|apply gate_refl].
  destruct (BOSS_CONFIGS (level w)); [|apply gate_refl].
  unfold gate, noBoss. cbn. repeat split; auto. lia.
Qed.

Lemma gate_bossEntrance (i : Input) (w : World) : gate w (bossEntrance i w).
Proof.
  unfold bossEntrance. destruct (isEntering i w); [|apply gate_refl].
  unfold gate, noBoss. cbn. rewrite length_map. repeat split; auto.
Qed.

Lemma thins_refl (w : World) : thins w w.
Proof. unfold thins. auto. Qed.

Lemma thins_trans (a b c : World) : thins a b -> thins b c -> thins a c.
Proof. unfold thins. intros (A & B) (A' & B'). split; [congruence|lia]. Qed.

Lemma thins_updateEnemies (i : Input) (w : World) :
  thins w (updateEnemies i w).
Proof.
  unfold updateEnemies.
  pose proof (stepEnemies_length i (player w) (enemies w)) as L.
  destruct (stepEnemies i (player w) (enemies w)) as [es shots].
  cbn [fst] in L. unfold thins. cbn. split; [reflexivity|lia].
Qed.

Lemma thins_checkEscaped (w : World) : thins w (checkEscaped w).
Proof.
  unfold checkEscaped.
  destruct (0 <? List.length (filter hasEscaped (enemies w)))%nat;
    [|apply thins_refl].
  unfold thins. cbn. split; [reflexivity|apply filter_length_le].
Qed.

Lemma thins_updatePowerUps (i : Input) (w : World) :
  thins w (updatePowerUps i w).
Proof.
  unfold updatePowerUps.
  destruct (15000 <? now i - lastPowerUpSpawn w); unfold thins; cbn; auto.
Qed.

Lemma thins_bulletPass (w : World) : thins w (bulletPass w).
Proof.
  destruct (kept_bulletPass w) as (_ & _ & _ & K).
  destruct (bulletPass_quiet w) as (_ & _ & L). split; assumption.
Qed.

Lemma thins_cleanupBosses (w : World) : thins w (cleanupBosses w).
Proof.
  destruct (kept_cleanupBosses w) as (_ & _ & _ & K).
  destruct (cleanupBosses_level w) as (_ & E & _). split; [exact K|].
  rewrite E. lia.
Qed.

Lemma thins_playerCollisions (i : Input) (w : World) :
  thins w (playerCollisions i w).
Proof.
  destruct (kept_playerCollisions i w) as (_ & _ & _ & K).
  split; [exact K|].
  destruct (invincible (player w)) eqn:Hinv.
  - rewrite playerCollisions_invincible by exact Hinv. lia.
  - destruct (playerCollisions_spec i w Hinv) as (_ & _ & _ & -> & _).
    rewrite length_map. lia.
Qed.

Lemma thins_pickUpPowerUps (i : Input) (w : World) :
  thins w (pickUpPowerUps i w).
Proof.
  unfold pickUpPowerUps.
  destruct (pickUp_fields (now i) (powerUps w) w) as (_ & _ & E & _).
  destruct (pickUp_clocks (now i) (powerUps w) w) as (_ & K & _).
  destruct (pickUp (now i) w (powerUps w)) as [w1 us]. cbn [fst] in E, K.
  unfold thins. cbn. rewrite E. split; [exact K|lia].
Qed.

Lemma thins_updateTimers (i : Input) (w : World) :
  thins w (updateTimers i w).
Proof.
  destruct (updateTimers_gear i w) as (_ & _ & _ & K & E).
  unfold thins. rewrite K, E. auto.
Qed.

Lemma spawnInterval_range (lvl : Z) :
  300 <= spawnInterval lvl
  /\ (0 <= lvl -> spawnInterval lvl <= 1500)
  /\ (10 <= lvl -> spawnInterval lvl = 300).
Proof. unfold spawnInterval. lia. Qed.

(** Regular enemies are spawned at most one per tick, never with a boss on
    the field or a warning on, and only when more than the spawn interval
    of the level has passed since the last spawn; the interval is never
    under 300 ms and is 300 ms from level 10 on.  A tick that does not
    spawn does not lengthen the enemy list. *)
Theorem enemy_spawn_gate (i : Input) (w : World) :
  gameState w = PLAYING ->
  let w' := update i w in
  (List.length (enemies w') <= S (List.length (enemies w)))%nat
  /\ (lastEnemySpawn w' = lastEnemySpawn w
      \/ (lastEnemySpawn w' = now i /\ noBoss w = true
          /\ bossWarningActive w = false
          /\ spawnInterval (level w) < now i - lastEnemySpawn w))
  /\ (lastEnemySpawn w' = lastEnemySpawn w ->
      (List.length (enemies w') <= List.length (enemies w))%nat)
  /\ 300 <= spawnInterval (level w)
  /\ (10 <= level w -> spawnInterval (level w) = 300).
Proof.
  intros Hg. cbv zeta. unfold update. rewrite Hg.
  set (w1 := bossWarning i
               (updateBosses i (updateBullets (shoot i (movePlayer i w))))).
  assert (G : gate w (bossEntrance i w1)).
  { unfold w1.
    eapply gate_trans; [|apply gate_bossEntrance].
    eapply gate_trans; [|apply gate_bossWarning].
    eapply gate_trans; [|apply gate_updateBosses].
    eapply gate_trans; [|apply gate_updateBullets].
    eapply gate_trans; [|apply gate_shoot]. apply gate_movePlayer. }
  generalize (isEntering i w1). intros en.
  set (x := bossEntrance i w1) in *. clearbody x. clear w1.
  set (y := spawnEnemies i en x).
  assert (T : thins y
                (updateTimers i (pickUpPowerUps i (playerCollisions i
                   (cleanupBosses (bulletPass (updatePowerUps i
                      (checkEscaped (updateEnemies i y))))))))).
  { eapply thins_trans; [|apply thins_updateTimers].
    eapply thins_trans; [|apply thins_pickUpPowerUps].
    eapply thins_trans; [|apply thins_playerCollisions].
    eapply thins_trans; [|apply thins_cleanupBosses].
    eapply thins_trans; [|apply thins_bulletPass].
    eapply thins_trans; [|apply thins_updatePowerUps].
    eapply thins_trans; [|apply thins_checkEscaped].
    apply thins_updateEnemies. }
  match type of T with thins _ ?z => set (w' := z) in * end.
  clearbody w'. destruct T as (T1 & T2).
  destruct G as (G1 & G2 & G3 & G4 & G5).
  destruct (spawnInterval_range (level w)) as (R1 & _ & R3).
  assert (Y : (lastEnemySpawn y = lastEnemySpawn x
               /\ enemies y = enemies x)
              \/ (lastEnemySpawn y = now i
                  /\ enemies y = enemies x ++ [newEnemy i (level x)]
                  /\ noBoss x = true /\ bossWarningActive x = false
                  /\ spawnInterval (level x) < now i - lastEnemySpawn x)).
  { unfold y, spawnEnemies, spawnAllowed.
    destruct (noBoss x) eqn:N; [|left; auto].
    destruct (bossWarningActive x) eqn:B; [left; auto|].
    destruct en; [left; auto|]. cbn [andb negb].
    destruct (spawnInterval (level x) <? now i - lastEnemySpawn x) eqn:E;
      [|left; auto].
    right. apply Z.ltb_lt in E. cbn. auto. }
  clearbody y.
  destruct Y as [(Y1 & Y2) | (Y1 & Y2 & Y3 & Y4 & Y5)].
  - assert (L : (List.length (enemies w') <= List.length (enemies w))%nat)
      by (rewrite Y2 in T2; lia).
    split; [lia|]. split; [left; congruence|]. split; [auto|].
    split; assumption.
  - rewrite Y2, length_app in T2. cbn [List.length] in T2.
    rewrite G1, G2 in Y5. rewrite G3 in Y3.
    assert (B : bossWarningActive w = false).
    { destruct (bossWarningActive w); [|reflexivity].
      rewrite (G4 eq_refl) in Y4. discriminate. }
    split; [lia|]. split; [right; repeat split; auto; congruence|].
    split; [|split; assumption].
    intros C. exfalso. rewrite T1, Y1 in C. lia.
Qed.

End Supplies.

(** ** The statements on power-ups and spawns at sample worlds *)

Lemma picked_power_ups_are_removed_witness :
  Forall (fun u => (-100 <= u_speed u)%Q) (powerUps powerUpWorld)
  /\ powerUps (updatePowerUps (idle 1016)
                (pickUpPowerUps (idle 1000) powerUpWorld))
     = [shieldAt 10 12].
Proof.
  assert (F : Forall (fun u => (-100 <= u_speed u)%Q) (powerUps powerUpWorld))
    by (repeat constructor; cbn; lra).
  split; [exact F|].
  rewrite (picked_power_ups_are_removed (idle 1000) (idle 1016) powerUpWorld F).
  reflexivity.
Defined.

Lemma power_ups_over_a_tick_witness :
  gameState powerUpWorld = PLAYING
  /\ gear (player (update (trig := sampleTrig) (idle 1000) powerUpWorld))
     = (Some TRIPLE_SHOT, 1000).
Proof.
  split; [reflexivity|].
  pose proof (power_ups_over_a_tick (trig := sampleTrig) (idle 1000)
                powerUpWorld eq_refl) as (_ & _ & H & _).
  apply H. reflexivity.
Defined.

Lemma enemy_spawn_gate_witness :
  gameState world0 = PLAYING
  /\ (List.length (enemies (update (trig := sampleTrig) (idle 1000) world0))
      <= 1)%nat.
Proof.
  split; [reflexivity|].
  exact (proj1 (enemy_spawn_gate (trig := sampleTrig) (idle 1000) world0
                  eq_refl)).
Defined.

(** * The host *)

Section Host.

Context {trig : Trig}.

Local Open Scope Z_scope.

Lemma tracks_refl (w : World) : tracks w w.
Proof.
  exists []. split; [now rewrite app_nil_r|]. intros h H. cbn.
  repeat split; auto. intros C. now destruct C.
Qed.

Lemma tracks_trans (a b c : World) : tracks a b -> tracks b c -> tracks a c.
Proof.
  intros (l1 & E1 & F1) (l2 & E2 & F2). exists (l1 ++ l2). split.
  - rewrite E2, E1. now rewrite app_assoc.
  - intros h H. rewrite fold_left_app.
    destruct (F1 h H) as (S1 & G1 & D1).
    destruct (F2 _ S1) as (S2 & G2 & D2).
    split; [exact S2|]. split; [auto|].
    intros Hne Hle. destruct (Z.eq_dec (health c) (health b)) as [Q|Q].
    + apply G2, D1; congruence.
    + now apply D2.
Qed.

Lemma tracks_quiet (w w' : World) :
  events w' = events w -> figures w' = figures w -> tracks w w'.
Proof.
  intros E F. exists []. split; [now rewrite app_nil_r|]. intros h H. cbn.
  split; [congruence|]. split; [auto|].
  unfold figures in F. injection F as _ _ F. intros C. now destruct C.
Qed.

(** The figures after one callback. *)
Lemma tracks_step (w w' : World) (ev : Event) :
  events w' = events w ++ [ev] ->
  figures w'
  = match ev with
    | ScoreUpdate s => (s, level w, health w)
    | LevelUpdate l => (score w, l, health w)
    | HealthUpdate v => (score w, level w, v)
    | _ => figures w
    end ->
  tracks w w'.
Proof.
  intros E F. exists [ev]. split; [exact E|]. intros h H. cbn [fold_left].
  unfold shown, figures in *. injection H as H1 H2 H3.
  destruct ev; cbn in *; injection F as F1 F2 F3;
    (split; [congruence|]); (split; [|intros C; try (now destruct C)]);
    try (intros G; exact G).
  - intros G. rewrite G. now destruct (h0 <=? 0).
  - intros Hle. rewrite F3 in Hle. apply Z.leb_le in Hle. now rewrite Hle.
Qed.

Ltac track :=
  repeat first
    [ apply tracks_refl
    | match goal with
      | |- tracks ?a (emit (set_level ?y ?n) ?ev) =>
          apply (tracks_trans a y); [|eapply tracks_step; reflexivity]
      | |- tracks ?a (emit (set_health ?y ?n) ?ev) =>
          apply (tracks_trans a y); [|eapply tracks_step; reflexivity]
      | |- tracks ?a (emit (set_score ?y ?n) ?ev) =>
          apply (tracks_trans a y); [|eapply tracks_step; reflexivity]
      | |- tracks ?a (emit ?y (AchievementUnlock ?id)) =>
          apply (tracks_trans a y); [|eapply tracks_step; reflexivity]
      | |- tracks ?a (emit ?y (BossWarning ?n)) =>
          apply (tracks_trans a y); [|eapply tracks_step; reflexivity]
      | |- tracks ?a (set_lastLevelHealed ?y ?n) =>
          apply (tracks_trans a y); [|apply tracks_quiet; reflexivity]
      | |- tracks ?a (set_player ?y ?n) =>
          apply (tracks_trans a y); [|apply tracks_quiet; reflexivity]
      | |- tracks ?a (set_enemies ?y ?n) =>
          apply (tracks_trans a y); [|apply tracks_quiet; reflexivity]
      | |- tracks ?a (set_bosses ?y ?n) =>
          apply (tracks_trans a y); [|apply tracks_quiet; reflexivity]
      | |- tracks ?a (set_bullets ?y ?n) =>
          apply (tracks_trans a y); [|apply tracks_quiet; reflexivity]
      | |- tracks ?a (set_timeouts ?y ?n) =>
          apply (tracks_trans a y); [|apply tracks_quiet; reflexivity]
      | |- tracks ?a (set_bossWarningActive ?y ?n) =>
          apply (tracks_trans a y); [|apply tracks_quiet; reflexivity]
      | |- tracks ?a (set_bossEntranceTimer ?y ?n) =>
          apply (tracks_trans a y); [|apply tracks_quiet; reflexivity]
      end ].

Lemma tracks_award (w : World) (e : Enemy) : tracks w (award w e).
Proof. unfold award. cbv zeta. track. Qed.

Lemma tracks_levelUpCheck (w : World) : tracks w (levelUpCheck w).
Proof.
  unfold levelUpCheck. cbv zeta. destruct (noBoss w); [|apply tracks_refl].
  destruct (level w * 2000 <=? score w); [|apply tracks_refl].
  destruct ((Z.rem (level w + 1) 2 =? 0) && (lastLevelHealed w <? level w + 1));
    [destruct (health w <? PLAYER_MAX_HEALTH)|];
    match goal with |- context [(level ?x =? 5)] => destruct (level x =? 5) end;
    track.
Qed.

Lemma tracks_killEnemy (w : World) (e : Enemy) : tracks w (killEnemy w e).
Proof.
  unfold killEnemy. cbv zeta.
  eapply tracks_trans; [|apply tracks_levelUpCheck].
  match goal with |- context [(10000 <=? ?s)] => destruct (10000 <=? s) end;
    unfold award; cbv zeta; track.
Qed.

Lemma tracks_hitBoss (w : World) (b : Bullet) (e : Enemy) :
  tracks w (fst (fst (hitBoss w b e))).
Proof.
  unfold hitBoss. destruct (bulletHits b e); [|apply tracks_refl].
  match goal with |- context [(?h <=? 0)] => destruct (h <=? 0) end;
    [apply tracks_award|apply tracks_refl].
Qed.

Lemma tracks_hitEnemy (w : World) (b : Bullet) (e : Enemy) :
  tracks w (fst (fst (hitEnemy w b e))).
Proof.
  unfold hitEnemy. destruct (bulletHits b e); [|apply tracks_refl].
  match goal with |- context [(?h <=? 0)] => destruct (h <=? 0) end;
    [apply tracks_killEnemy|apply tracks_refl].
Qed.

Lemma tracks_bulletPass (w : World) : tracks w (bulletPass w).
Proof.
  unfold bulletPass.
  assert (T : forall l : list Enemy, Forall (fun _ => True) l)
    by (induction l; constructor; auto).
  destruct (bulletLoop_rel tracks (fun _ => True) (fun _ => True)
              tracks_refl tracks_trans
              (fun w b e _ => conj (tracks_hitBoss w b e) I)
              (fun w b e _ => conj (tracks_hitEnemy w b e) I)
              (fun w l _ _ => tracks_quiet w (set_bosses w l) eq_refl eq_refl)
              (fun w l _ _ => tracks_quiet w (set_enemies w l) eq_refl eq_refl)
              (bullets w) w (T _) (T _)) as (Q & _).
  destruct (bulletLoop w (bullets w)) as [w1 bs]. cbn [fst] in Q.
  eapply tracks_trans; [exact Q|]. apply tracks_quiet; reflexivity.
Qed.

Lemma tracks_takeHit (u : bool) (t : Z) (w : World) :
  tracks w (takeHit u t w).
Proof.
  unfold takeHit. cbv zeta. destruct (shieldActive (player w)); destruct u;
    track.
Qed.

Lemma tracks_iter_takeHit (u : bool) (t : Z) (n : nat) (w : World) :
  tracks w (Nat.iter n (takeHit u t) w).
Proof.
  induction n as [|n IH]; [apply tracks_refl|].
  rewrite Nat.iter_succ. eapply tracks_trans; [exact IH|].
  apply tracks_takeHit.
Qed.

Lemma tracks_playerCollisions (i : Input) (w : World) :
  tracks w (playerCollisions i w).
Proof.
  unfold playerCollisions. destruct (invincible (player w));
    [apply tracks_refl|]. cbn [negb].
  rewrite playerVsBullets_iter, playerVsBosses_iter, playerVsEnemies_iter.
  eapply tracks_trans; [|apply tracks_quiet; reflexivity].
  eapply tracks_trans; [|apply tracks_iter_takeHit].
  eapply tracks_trans; [|apply tracks_iter_takeHit].
  eapply tracks_trans; [|apply tracks_quiet; reflexivity].
  apply tracks_iter_takeHit.
Qed.

Lemma tracks_pickUp (t : Z) (us : list PowerUp) (w : World) :
  tracks w (fst (pickUp t w us)).
Proof.
  revert w. induction us as [|u rest IH]; intros w; [apply tracks_refl|].
  cbn [pickUp]. destruct (playerTouchesPowerUp (player w) u).
  - match goal with |- context [pickUp t ?y rest] =>
      assert (E : tracks w y);
        [|specialize (IH y); destruct (pickUp t y rest) as [z r];
          eapply tracks_trans; [exact E|exact IH]] end.
    destruct (u_type u); cbv zeta; track.
  - specialize (IH w). destruct (pickUp t w rest) as [z r]. exact IH.
Qed.

Lemma tracks_movePlayer (i : Input) (w : World) : tracks w (movePlayer i w).
Proof.
  unfold movePlayer.
  match goal with |- context [let '(x, y) := ?m in _] =>
    destruct m as [x y] end.
  apply tracks_quiet; reflexivity.
Qed.

Lemma tracks_shoot (i : Input) (w : World) : tracks w (shoot i w).
Proof.
  unfold shoot. destruct (fires i w); apply tracks_quiet; reflexivity.
Qed.

Lemma tracks_updateBosses (i : Input) (w : World) :
  tracks w (updateBosses i w).
Proof.
  unfold updateBosses.
  destruct (stepBosses i (level w) (player w) 0 (bosses w)).
  apply tracks_quiet; reflexivity.
Qed.

Lemma tracks_bossEntrance (i : Input) (w : World) :
  tracks w (bossEntrance i w).
Proof.
  unfold bossEntrance. destruct (isEntering i w);
    apply tracks_quiet; reflexivity.
Qed.

Lemma tracks_spawnEnemies (i : Input) (en : bool) (w : World) :
  tracks w (spawnEnemies i en w).
Proof.
  unfold spawnEnemies. destruct (spawnAllowed en w);
    [|apply tracks_refl].
  destruct (spawnInterval (level w) <? now i - lastEnemySpawn w);
    apply tracks_quiet; reflexivity.
Qed.

Lemma tracks_updateEnemies (i : Input) (w : World) :
  tracks w (updateEnemies i w).
Proof.
  unfold updateEnemies. destruct (stepEnemies i (player w) (enemies w)).
  apply tracks_quiet; reflexivity.
Qed.

Lemma tracks_bossWarning (i : Input) (w : World) :
  tracks w (bossWarning i w).
Proof.
  unfold bossWarning. destruct (warningTriggers w); [|apply tracks_refl].
  destruct (BOSS_CONFIGS (level w)); [|apply tracks_refl].
  cbv zeta. track.
Qed.

Lemma tracks_checkEscaped (w : World) : tracks w (checkEscaped w).
Proof.
  unfold checkEscaped.
  destruct (0 <? List.length (filter hasEscaped (enemies w)))%nat;
    [|apply tracks_refl].
  cbv zeta. track.
Qed.

Lemma tracks_updatePowerUps (i : Input) (w : World) :
  tracks w (updatePowerUps i w).
Proof.
  unfold updatePowerUps.
  destruct (15000 <? now i - lastPowerUpSpawn w);
    apply tracks_quiet; reflexivity.
Qed.

Lemma tracks_cleanupBosses (w : World) : tracks w (cleanupBosses w).
Proof.
  unfold cleanupBosses.
  destruct (0 <? List.length (filter deadBoss (bosses w)))%nat;
    [|apply tracks_refl].
  match goal with |- context [noBoss ?x] => destruct (noBoss x) end;
    cbv zeta; track.
Qed.

Lemma tracks_pickUpPowerUps (i : Input) (w : World) :
  tracks w (pickUpPowerUps i w).
Proof.
  unfold pickUpPowerUps.
  pose proof (tracks_pickUp (now i) (powerUps w) w) as P.
  destruct (pickUp (now i) w (powerUps w)) as [z us]. cbn [fst] in P.
  eapply tracks_trans; [exact P|]. apply tracks_quiet; reflexivity.
Qed.

Lemma tracks_updateTimers (i : Input) (w : World) :
  tracks w (updateTimers i w).
Proof. unfold updateTimers. apply tracks_quiet; reflexivity. Qed.

Lemma tracks_update (i : Input) (w : World) : tracks w (update i w).
Proof.
  unfold update. destruct (gameState w); try apply tracks_refl.
  eapply tracks_trans; [|apply tracks_updateTimers].
  eapply tracks_trans; [|apply tracks_pickUpPowerUps].
  eapply tracks_trans; [|apply tracks_playerCollisions].
  eapply tracks_trans; [|apply tracks_cleanupBosses].
  eapply tracks_trans; [|apply tracks_bulletPass].
  eapply tracks_trans; [|apply tracks_updatePowerUps].
  eapply tracks_trans; [|apply tracks_checkEscaped].
  eapply tracks_trans; [|apply tracks_updateEnemies].
  eapply tracks_trans; [|apply tracks_spawnEnemies].
  eapply tracks_trans; [|apply tracks_bossEntrance].
  eapply tracks_trans; [|apply tracks_bossWarning].
  eapply tracks_trans; [|apply tracks_updateBosses].
  eapply tracks_trans; [|apply tracks_quiet; reflexivity].
  eapply tracks_trans; [|apply tracks_shoot]. apply tracks_movePlayer.
Qed.


Lemma tracks_callback (t : Timeout) (w : World) :
  tracks w (bossSpawnCallback t w).
Proof. unfold bossSpawnCallback. cbv zeta. track. Qed.

Lemma tracks_runTimeouts (clock : Z) (w : World) :
  tracks w (runTimeouts clock w).
Proof.
  unfold runTimeouts.
  set (w0 := set_timeouts w
               (filter (fun t => negb (due clock t)) (timeouts w))).
  assert (E : tracks w w0) by (apply tracks_quiet; reflexivity).
  clearbody w0.
  revert w0 E. induction (filter (due clock) (timeouts w)) as [|t l IH];
    intros w0 E; [exact E|].
  cbn [fold_left]. apply IH.
  eapply tracks_trans; [exact E|apply tracks_callback].
Qed.

Lemma tracks_resetGame (w : World) : tracks w (resetGame w).
Proof.
  exists [ScoreUpdate 0; LevelUpdate 1; HealthUpdate PLAYER_MAX_HEALTH].
  split; [unfold resetGame; cbn; now rewrite <- !app_assoc|].
  intros h H. cbn. repeat split; auto.
  unfold PLAYER_MAX_HEALTH. lia.
Qed.

Lemma tracks_changeGameState (g : GameState) (w : World) :
  tracks w (changeGameState g w).
Proof.
  unfold changeGameState. destruct (sameState g (gameState w));
    [apply tracks_refl|].
  cbv zeta.
  assert (E : tracks w (if isPlaying g && negb (isPlaying (prevGameState w))
                        then resetGame w else w))
    by (destruct (isPlaying g && negb (isPlaying (prevGameState w)));
        [apply tracks_resetGame|apply tracks_refl]).
  set (w1 := if isPlaying g && negb (isPlaying (prevGameState w))
             then resetGame w else w) in *.
  clearbody w1. eapply tracks_trans; [exact E|].
  destruct (leavesPlay g); apply tracks_quiet; reflexivity.
Qed.

Lemma tracks_run (l : list Action) (w : World) : tracks w (run l w).
Proof.
  revert w. induction l as [|a l IH]; intros w; [apply tracks_refl|].
  unfold run. cbn [fold_left]. fold (run l (act a w)).
  eapply tracks_trans; [|apply IH].
  destruct a; cbn [act];
    [apply tracks_update|apply tracks_runTimeouts
    |apply tracks_changeGameState].
Qed.

(** The figures of the host are those of the game.  Whatever happens
    (ticks, boss callbacks, changes of the game state), the log of
    callbacks only grows, and an [App] that showed the score, the level
    and the health of the simulation before shows them again once it has
    handled the new callbacks: no change of the three goes unreported. *)
Theorem host_shows_the_figures (l : list Action) (w : World) (h : Hud) :
  shown h = figures w ->
  exists new,
    events (run l w) = events w ++ new
    /\ shownScore (fold_left handle new h) = score (run l w)
    /\ shownLevel (fold_left handle new h) = level (run l w)
    /\ shownHealth (fold_left handle new h) = health (run l w).
Proof.
  intros H. destruct (tracks_run l w) as (new & E & F).
  exists new. split; [exact E|].
  destruct (F h H) as (S & _). unfold shown, figures in S.
  injection S as S1 S2 S3. auto.
Qed.

(** Game over.  A tick that changes the health to 0 or less reports it, and
    the [App] that handles the callbacks of the tick has set GAMEOVER. *)
Theorem game_over_is_set (i : Input) (w : World) (h : Hud) :
  shown h = figures w ->
  health (update i w) <> health w ->
  health (update i w) <= 0 ->
  exists new,
    events (update i w) = events w ++ new
    /\ In (HealthUpdate (health (update i w))) new
    /\ appState (fold_left handle new h) = GAMEOVER.
Proof.
  intros H Hne Hle. destruct (tracks_update i w) as (new & E & F).
  exists new. split; [exact E|].
  destruct (F h H) as (S & _ & G). split; [|now apply G].
  unfold shown, figures in S, H. injection S as _ _ S3.
  injection H as _ _ H3. rewrite <- S3. rewrite <- S3, <- H3 in Hne.
  clear - Hne. revert h Hne. induction new as [|ev l IH]; intros h Hne.
  - now destruct Hne.
  - cbn [fold_left] in *.
    destruct (Z.eq_dec (shownHealth (fold_left handle l (handle h ev)))
                       (shownHealth (handle h ev))) as [Q|Q].
    + rewrite Q in *. destruct ev; cbn in Hne |- *;
        try (now destruct Hne). left. reflexivity.
    + right. apply IH. exact Q.
Qed.


(** ** The warning banner *)

Lemma banner_refl (w : World) : banner w w.
Proof. exists []. split; [now rewrite app_nil_r|]. intros h H. exact H. Qed.

Lemma banner_trans (a b c : World) : banner a b -> banner b c -> banner a c.
Proof.
  intros (l1 & E1 & F1) (l2 & E2 & F2). exists (l1 ++ l2). split.
  - rewrite E2, E1. now rewrite app_assoc.
  - intros h H. rewrite fold_left_app. auto.
Qed.

Lemma banner_quiet (w w' : World) :
  events w' = events w -> bossWarningActive w' = bossWarningActive w ->
  banner w w'.
Proof.
  intros E F. exists []. split; [now rewrite app_nil_r|]. intros h H. cbn.
  congruence.
Qed.

Lemma banner_step (w w' : World) (ev : Event) :
  events w' = events w ++ [ev] ->
  bossWarningActive w'
  = match ev with
    | BossWarning name => isSome name
    | _ => bossWarningActive w
    end ->
  banner w w'.
Proof.
  intros E F. exists [ev]. split; [exact E|]. intros h H. cbn [fold_left].
  destruct ev; cbn in *; congruence.
Qed.

Ltac follow :=
  repeat first
    [ apply banner_refl
    | match goal with
      | |- banner ?a (emit (set_bossWarningActive ?y ?n) ?ev) =>
          apply (banner_trans a y); [|eapply banner_step; reflexivity]
      | |- banner ?a (emit ?y ?ev) =>
          apply (banner_trans a y); [|eapply banner_step; reflexivity]
      | |- banner ?a (set_level ?y ?n) =>
          apply (banner_trans a y); [|apply banner_quiet; reflexivity]
      | |- banner ?a (set_health ?y ?n) =>
          apply (banner_trans a y); [|apply banner_quiet; reflexivity]
      | |- banner ?a (set_score ?y ?n) =>
          apply (banner_trans a y); [|apply banner_quiet; reflexivity]
      | |- banner ?a (set_lastLevelHealed ?y ?n) =>
          apply (banner_trans a y); [|apply banner_quiet; reflexivity]
      | |- banner ?a (set_player ?y ?n) =>
          apply (banner_trans a y); [|apply banner_quiet; reflexivity]
      | |- banner ?a (set_enemies ?y ?n) =>
          apply (banner_trans a y); [|apply banner_quiet; reflexivity]
      | |- banner ?a (set_bosses ?y ?n) =>
          apply (banner_trans a y); [|apply banner_quiet; reflexivity]
      | |- banner ?a (set_bullets ?y ?n) =>
          apply (banner_trans a y); [|apply banner_quiet; reflexivity]
      | |- banner ?a (set_timeouts ?y ?n) =>
          apply (banner_trans a y); [|apply banner_quiet; reflexivity]
      end ].

Lemma banner_callback (t : Timeout) (w : World) :
  banner w (bossSpawnCallback t w).
Proof.
  exists [BossWarning None]. split; [reflexivity|]. intros h H. reflexivity.
Qed.

Lemma banner_award (w : World) (e : Enemy) : banner w (award w e).
Proof. unfold award. cbv zeta. follow. Qed.

Lemma banner_levelUpCheck (w : World) : banner w (levelUpCheck w).
Proof.
  unfold levelUpCheck. cbv zeta. destruct (noBoss w); [|apply banner_refl].
  destruct (level w * 2000 <=? score w); [|apply banner_refl].
  destruct ((Z.rem (level w + 1) 2 =? 0) && (lastLevelHealed w <? level w + 1));
    [destruct (health w <? PLAYER_MAX_HEALTH)|];
    match goal with |- context [(level ?x =? 5)] => destruct (level x =? 5) end;
    follow.
Qed.

Lemma banner_killEnemy (w : World) (e : Enemy) : banner w (killEnemy w e).
Proof.
  unfold killEnemy. cbv zeta.
  eapply banner_trans; [|apply banner_levelUpCheck].
  match goal with |- context [(10000 <=? ?s)] => destruct (10000 <=? s) end;
    unfold award; cbv zeta; follow.
Qed.

Lemma banner_hitBoss (w : World) (b : Bullet) (e : Enemy) :
  banner w (fst (fst (hitBoss w b e))).
Proof.
  unfold hitBoss. destruct (bulletHits b e); [|apply banner_refl].
  match goal with |- context [(?h <=? 0)] => destruct (h <=? 0) end;
    [apply banner_award|apply banner_refl].
Qed.

Lemma banner_hitEnemy (w : World) (b : Bullet) (e : Enemy) :
  banner w (fst (fst (hitEnemy w b e))).
Proof.
  unfold hitEnemy. destruct (bulletHits b e); [|apply banner_refl].
  match goal with |- context [(?h <=? 0)] => destruct (h <=? 0) end;
    [apply banner_killEnemy|apply banner_refl].
Qed.

Lemma banner_bulletPass (w : World) : banner w (bulletPass w).
Proof.
  unfold bulletPass.
  assert (T : forall l : list Enemy, Forall (fun _ => True) l)
    by (induction l; constructor; auto).
  destruct (bulletLoop_rel banner (fun _ => True) (fun _ => True)
              banner_refl banner_trans
              (fun w b e _ => conj (banner_hitBoss w b e) I)
              (fun w b e _ => conj (banner_hitEnemy w b e) I)
              (fun w l _ _ => banner_quiet w (set_bosses w l) eq_refl eq_refl)
              (fun w l _ _ => banner_quiet w (set_enemies w l) eq_refl eq_refl)
              (bullets w) w (T _) (T _)) as (Q & _).
  destruct (bulletLoop w (bullets w)) as [w1 bs]. cbn [fst] in Q.
  eapply banner_trans; [exact Q|]. apply banner_quiet; reflexivity.
Qed.

Lemma banner_takeHit (u : bool) (t : Z) (w : World) :
  banner w (takeHit u t w).
Proof.
  unfold takeHit. cbv zeta. destruct (shieldActive (player w)); destruct u;
    follow.
Qed.

Lemma banner_iter_takeHit (u : bool) (t : Z) (n : nat) (w : World) :
  banner w (Nat.iter n (takeHit u t) w).
Proof.
  induction n as [|n IH]; [apply banner_refl|].
  rewrite Nat.iter_succ. eapply banner_trans; [exact IH|].
  apply banner_takeHit.
Qed.

Lemma banner_playerCollisions (i : Input) (w : World) :
  banner w (playerCollisions i w).
Proof.
  unfold playerCollisions. destruct (invincible (player w));
    [apply banner_refl|]. cbn [negb].
  rewrite playerVsBullets_iter, playerVsBosses_iter, playerVsEnemies_iter.
  eapply banner_trans; [|apply banner_quiet; reflexivity].
  eapply banner_trans; [|apply banner_iter_takeHit].
  eapply banner_trans; [|apply banner_iter_takeHit].
  eapply banner_trans; [|apply banner_quiet; reflexivity].
  apply banner_iter_takeHit.
Qed.

Lemma banner_pickUp (t : Z) (us : list PowerUp) (w : World) :
  banner w (fst (pickUp t w us)).
Proof.
  revert w. induction us as [|u rest IH]; intros w; [apply banner_refl|].
  cbn [pickUp]. destruct (playerTouchesPowerUp (player w) u).
  - match goal with |- context [pickUp t ?y rest] =>
      assert (E : banner w y);
        [|specialize (IH y); destruct (pickUp t y rest) as [z r];
          eapply banner_trans; [exact E|exact IH]] end.
    destruct (u_type u); cbv zeta; follow.
  - specialize (IH w). destruct (pickUp t w rest) as [z r]. exact IH.
Qed.

Lemma banner_movePlayer (i : Input) (w : World) : banner w (movePlayer i w).
Proof.
  unfold movePlayer.
  match goal with |- context [let '(x, y) := ?m in _] =>
    destruct m as [x y] end.
  apply banner_quiet; reflexivity.
Qed.

Lemma banner_shoot (i : Input) (w : World) : banner w (shoot i w).
Proof.
  unfold shoot. destruct (fires i w); apply banner_quiet; reflexivity.
Qed.

Lemma banner_updateBosses (i : Input) (w : World) :
  banner w (updateBosses i w).
Proof.
  unfold updateBosses.
  destruct (stepBosses i (level w) (player w) 0 (bosses w)).
  apply banner_quiet; reflexivity.
Qed.

Lemma banner_bossEntrance (i : Input) (w : World) :
  banner w (bossEntrance i w).
Proof.
  unfold bossEntrance. destruct (isEntering i w);
    apply banner_quiet; reflexivity.
Qed.

Lemma banner_spawnEnemies (i : Input) (en : bool) (w : World) :
  banner w (spawnEnemies i en w).
Proof.
  unfold spawnEnemies. destruct (spawnAllowed en w);
    [|apply banner_refl].
  destruct (spawnInterval (level w) <? now i - lastEnemySpawn w);
    apply banner_quiet; reflexivity.
Qed.

Lemma banner_updateEnemies (i : Input) (w : World) :
  banner w (updateEnemies i w).
Proof.
  unfold updateEnemies. destruct (stepEnemies i (player w) (enemies w)).
  apply banner_quiet; reflexivity.
Qed.

Lemma banner_bossWarning (i : Input) (w : World) :
  banner w (bossWarning i w).
Proof.
  unfold bossWarning. destruct (warningTriggers w); [|apply banner_refl].
  destruct (BOSS_CONFIGS (level w)); [|apply banner_refl].
  cbv zeta. follow.
Qed.

Lemma banner_checkEscaped (w : World) : banner w (checkEscaped w).
Proof.
  unfold checkEscaped.
  destruct (0 <? List.length (filter hasEscaped (enemies w)))%nat;
    [|apply banner_refl].
  cbv zeta. follow.
Qed.

Lemma banner_updatePowerUps (i : Input) (w : World) :
  banner w (updatePowerUps i w).
Proof.
  unfold updatePowerUps.
  destruct (15000 <? now i - lastPowerUpSpawn w);
    apply banner_quiet; reflexivity.
Qed.

Lemma banner_cleanupBosses (w : World) : banner w (cleanupBosses w).
Proof.
  unfold cleanupBosses.
  destruct (0 <? List.length (filter deadBoss (bosses w)))%nat;
    [|apply banner_refl].
  match goal with |- context [noBoss ?x] => destruct (noBoss x) end;
    cbv zeta; follow.
Qed.

Lemma banner_pickUpPowerUps (i : Input) (w : World) :
  banner w (pickUpPowerUps i w).
Proof.
  unfold pickUpPowerUps.
  pose proof (banner_pickUp (now i) (powerUps w) w) as P.
  destruct (pickUp (now i) w (powerUps w)) as [z us]. cbn [fst] in P.
  eapply banner_trans; [exact P|]. apply banner_quiet; reflexivity.
Qed.

Lemma banner_updateTimers (i : Input) (w : World) :
  banner w (updateTimers i w).
Proof. unfold updateTimers. apply banner_quiet; reflexivity. Qed.

Lemma banner_update (i : Input) (w : World) : banner w (update i w).
Proof.
  unfold update. destruct (gameState w); try apply banner_refl.
  eapply banner_trans; [|apply banner_updateTimers].
  eapply banner_trans; [|apply banner_pickUpPowerUps].
  eapply banner_trans; [|apply banner_playerCollisions].
  eapply banner_trans; [|apply banner_cleanupBosses].
  eapply banner_trans; [|apply banner_bulletPass].
  eapply banner_trans; [|apply banner_updatePowerUps].
  eapply banner_trans; [|apply banner_checkEscaped].
  eapply banner_trans; [|apply banner_updateEnemies].
  eapply banner_trans; [|apply banner_spawnEnemies].
  eapply banner_trans; [|apply banner_bossEntrance].
  eapply banner_trans; [|apply banner_bossWarning].
  eapply banner_trans; [|apply banner_updateBosses].
  eapply banner_trans; [|apply banner_quiet; reflexivity].
  eapply banner_trans; [|apply banner_shoot]. apply banner_movePlayer.
Qed.


Lemma banner_runTimeouts (clock : Z) (w : World) :
  banner w (runTimeouts clock w).
Proof.
  unfold runTimeouts.
  set (w0 := set_timeouts w
               (filter (fun t => negb (due clock t)) (timeouts w))).
  assert (E : banner w w0) by (apply banner_quiet; reflexivity).
  clearbody w0.
  revert w0 E. induction (filter (due clock) (timeouts w)) as [|t l IH];
    intros w0 E; [exact E|].
  cbn [fold_left]. apply IH.
  eapply banner_trans; [exact E|apply banner_callback].
Qed.


(** The warning banner of the host follows the simulation over ticks and
    boss callbacks: an [App] that showed a boss warning exactly when one
    was running does so again once it has handled the new callbacks. *)
Theorem warning_banner_follows (l : list Action) (w : World) (h : Hud) :
  Forall (fun a => match a with SetGameState _ => False | _ => True end) l ->
  isSome (shownWarning h) = bossWarningActive w ->
  exists new,
    events (run l w) = events w ++ new
    /\ isSome (shownWarning (fold_left handle new h))
       = bossWarningActive (run l w).
Proof.
  intros Hl H.
  assert (B : banner w (run l w)).
  { clear h H. revert w. induction Hl as [|a l Ha _ IH]; intros w;
      [apply banner_refl|].
    unfold run. cbn [fold_left]. fold (run l (act a w)).
    eapply banner_trans; [|apply IH].
    destruct a; cbn [act];
      [apply banner_update|apply banner_runTimeouts|destruct Ha]. }
  destruct B as (new & E & F). exists new. split; [exact E|]. now apply F.
Qed.

End Host.

(** ** The statements on the host at sample worlds *)

Lemma host_shows_the_figures_witness :
  shown hud0 = figures world0
  /\ exists new,
       events (run (trig := sampleTrig)
                 [Frame (idle 1000); Timers 4000; SetGameState PAUSED] world0)
       = events world0 ++ new
       /\ shownScore (fold_left handle new hud0)
          = score (run (trig := sampleTrig)
                     [Frame (idle 1000); Timers 4000; SetGameState PAUSED]
                     world0).
Proof.
  split; [reflexivity|].
  destruct (host_shows_the_figures (trig := sampleTrig)
              [Frame (idle 1000); Timers 4000; SetGameState PAUSED]
              world0 hud0 eq_refl) as (new & E & S & _).
  exists new. split; assumption.
Defined.

Lemma game_over_is_set_witness :
  let w := twoShotsWorld 1 in
  let h := mkHud 0 1 1 PLAYING None in
  shown h = figures w
  /\ health (update (trig := sampleTrig) (idle 1000) w) <= 0
  /\ exists new,
       events (update (trig := sampleTrig) (idle 1000) w) = events w ++ new
       /\ appState (fold_left handle new h) = GAMEOVER.
Proof.
  intros w h.
  assert (Hne : health (update (trig := sampleTrig) (idle 1000) w) <> health w)
    by (vm_compute; discriminate).
  assert (Hle : health (update (trig := sampleTrig) (idle 1000) w) <= 0)
    by (vm_compute; discriminate).
  split; [reflexivity|]. split; [exact Hle|].
  destruct (game_over_is_set (trig := sampleTrig) (idle 1000) w h eq_refl
              Hne Hle) as (new & E & _ & G).
  exists new. split; assumption.
Defined.

Lemma warning_banner_follows_witness :
  isSome (shownWarning hud0) = bossWarningActive level5World
  /\ exists new,
       events (run (trig := sampleTrig) [Frame (idle 1000); Timers 4000]
                 level5World)
       = events level5World ++ new
       /\ isSome (shownWarning (fold_left handle new hud0))
          = bossWarningActive
              (run (trig := sampleTrig) [Frame (idle 1000); Timers 4000]
                 level5World).
Proof.
  split; [reflexivity|].
  apply (warning_banner_follows (trig := sampleTrig)).
  - repeat constructor.
  - reflexivity.
Defined.
